(** * Resumable multipart upload worker: a shallow embedding

    This development embeds the upload engine of the service worker
    (uploadHandler.ts, apiClient.ts, databaseService.ts, config.ts and
    errors.ts) and states the properties of its specification against it.

    Modelling conventions.
    - JavaScript numbers that hold sizes, counts and delays are integers
      below 2^53 and are modelled by [Z]; on these [Math.ceil (a / b)] is
      the exact ceiling. [Math.round (c / t * 100)] is computed as
      JavaScript computes it: quotient and product are rounded to the
      nearest double, and the result is compared with the specification of
      binary64 in the standard library.
    - Asynchronous methods are computations in the monad [M]: they read and
      update a [World] (IndexedDB stores, the [activeUploads] map, the heap
      of [UploadState] objects shared between the registry and the running
      driver, abort controllers, the [ApiClient] field, and the scripted
      environment), may throw an [Err], and return the list of [Event]s they
      produced (broadcast messages, timer sleeps, and the begin and end of
      every network request).
    - The network is a script of [FetchOutcome]s consumed one per request.
      A [PauseArrives] outcome stands for a PAUSE_UPLOAD command handled by
      the event loop while the request is pending.
    - Only PAUSE_UPLOAD is modelled as arriving during a request, and it is
      handled in one step while the request is pending. Every other handler
      runs on its own from its first to its last step: no other handler
      starts and no driver of an upload resumes from an [await] in between.
      The properties of handlers are about such runs.
    - IndexedDB requests are taken to succeed; template strings of log
      records are kept as the constructors of [LogText]; the clock only
      advances by the timer sleeps, and [averageSpeed] of UPLOAD_COMPLETE
      (a floating-point quotient) is left out.
    - The part driver is stated for a positive [partSize]: for
      [partSize = 0] JavaScript computes [Infinity] or [NaN] parts, which
      [ceil_div] does not represent.
    - A response body is a JSON object that holds the fields of its
      constructor and no others. The casts of the client are unchecked, as
      in the source: a field the body lacks reads as [undefined], and only
      the first use that needs the value raises a [TypeError]. For
      [listUploadedParts] that use is [parts.length] in the [try] block of
      [getUploadedParts]; the model raises the error when
      [listUploadedParts] returns, inside the same block.
    - [loadAllUploadStates] hands out one fresh state object per stored
      record, in ascending order of the keys, which are compared as ASCII
      strings.
    - The store of the foreground (uploadStore.ts) is embedded as pure
      functions on its state. *)

From stdpp Require Import base gmap strings list sorting.
From Stdlib Require Import ZArith Lia Ascii DecimalString.
From Stdlib Require Import QArith Qround Qpower Lqa SpecFloat.

Open Scope Z_scope.

(** ** Configuration (config.ts) *)

Module CONFIG.
Definition PART_SIZE : Z := 10 * 1024 * 1024.
Definition MAX_CONCURRENT_UPLOADS : Z := 5.
Definition API_BASE_URL : string := "/api".
Definition API_TIMEOUT : Z := 180000.
Module RETRY.
Definition ATTEMPTS : nat := 3.
Definition DELAY : Z := 1000.
Definition MAX_DELAY : Z := 30000.
End RETRY.
Module S3_TRANSFER_ACCELERATION.
Definition ENABLED : bool := true.
Definition MIN_SIZE : Z := 512 * 1024 * 1024.
Definition DEFAULT_ENDPOINT : string := "s3-accelerate.amazonaws.com".
End S3_TRANSFER_ACCELERATION.
End CONFIG.

(** ** Data model (types.ts) *)

Inductive UploadStatus :=
  | pending | in_progress | paused | completed | error | cancelled | not_found.

Global Instance UploadStatus_eq_dec : EqDecision UploadStatus.
Proof. solve_decision. Defined.

Record File := { file_name : string; file_size : Z }.

Record Blob := { blob_size : Z }.

Record UploadPart := {
  p_partNumber : Z;
  p_eTag : string;
  p_size : option Z
}.

Record UploadState := {
  st_id : string;
  st_file : File;
  st_fileName : string;
  st_fileSize : Z;
  st_uploadId : string;
  st_key : string;
  st_progress : Z;
  st_status : UploadStatus;
  st_parts : list UploadPart;
  st_startTime : Z;
  st_error : option string;
  st_fileUrl : option string;
  st_contentId : option string;
  st_partSize : Z;
  st_maxConcurrentUploads : Z
}.

Record UploadChunk := {
  ch_id : string;
  ch_uploadId : string;
  ch_partNumber : Z;
  ch_size : Z;
  ch_attempts : Z
}.

Record ChunkConfig := { cc_size : Z; cc_concurrent : Z }.

(** Field updates of the mutable [UploadState] object. *)

Definition set_status (s : UploadStatus) (u : UploadState) : UploadState :=
  {| st_id := st_id u; st_file := st_file u; st_fileName := st_fileName u;
     st_fileSize := st_fileSize u; st_uploadId := st_uploadId u;
     st_key := st_key u; st_progress := st_progress u; st_status := s;
     st_parts := st_parts u; st_startTime := st_startTime u;
     st_error := st_error u; st_fileUrl := st_fileUrl u;
     st_contentId := st_contentId u; st_partSize := st_partSize u;
     st_maxConcurrentUploads := st_maxConcurrentUploads u |}.

Definition set_error (e : string) (u : UploadState) : UploadState :=
  {| st_id := st_id u; st_file := st_file u; st_fileName := st_fileName u;
     st_fileSize := st_fileSize u; st_uploadId := st_uploadId u;
     st_key := st_key u; st_progress := st_progress u;
     st_status := st_status u; st_parts := st_parts u;
     st_startTime := st_startTime u; st_error := Some e;
     st_fileUrl := st_fileUrl u; st_contentId := st_contentId u;
     st_partSize := st_partSize u;
     st_maxConcurrentUploads := st_maxConcurrentUploads u |}.

Definition set_fileUrl (l : option string) (u : UploadState) : UploadState :=
  {| st_id := st_id u; st_file := st_file u; st_fileName := st_fileName u;
     st_fileSize := st_fileSize u; st_uploadId := st_uploadId u;
     st_key := st_key u; st_progress := st_progress u;
     st_status := st_status u; st_parts := st_parts u;
     st_startTime := st_startTime u; st_error := st_error u;
     st_fileUrl := l; st_contentId := st_contentId u;
     st_partSize := st_partSize u;
     st_maxConcurrentUploads := st_maxConcurrentUploads u |}.

Definition set_progress (p : Z) (u : UploadState) : UploadState :=
  {| st_id := st_id u; st_file := st_file u; st_fileName := st_fileName u;
     st_fileSize := st_fileSize u; st_uploadId := st_uploadId u;
     st_key := st_key u; st_progress := p; st_status := st_status u;
     st_parts := st_parts u; st_startTime := st_startTime u;
     st_error := st_error u; st_fileUrl := st_fileUrl u;
     st_contentId := st_contentId u; st_partSize := st_partSize u;
     st_maxConcurrentUploads := st_maxConcurrentUploads u |}.

(** [uploadState.parts.push(part)] *)
Definition push_part (p : UploadPart) (u : UploadState) : UploadState :=
  {| st_id := st_id u; st_file := st_file u; st_fileName := st_fileName u;
     st_fileSize := st_fileSize u; st_uploadId := st_uploadId u;
     st_key := st_key u; st_progress := st_progress u;
     st_status := st_status u; st_parts := st_parts u ++ [p];
     st_startTime := st_startTime u; st_error := st_error u;
     st_fileUrl := st_fileUrl u; st_contentId := st_contentId u;
     st_partSize := st_partSize u;
     st_maxConcurrentUploads := st_maxConcurrentUploads u |}.

(** ** Errors (errors.ts and the exceptions of the platform) *)

Inductive Err :=
  | RetryableError (message : string)
  | FatalError (message : string)
  | Error (message : string)
  | AbortError
  | TypeError (message : string).

(** [error instanceof RetryableError] *)
Definition isRetryableError (e : Err) : bool :=
  match e with RetryableError _ => true | _ => false end.

(** [error instanceof DOMException && error.name === "AbortError"] *)
Definition isAbortError (e : Err) : bool :=
  match e with AbortError => true | _ => false end.

(** [error instanceof Error ? error.message : "Unknown error"] ; every
    exception of the model is an [Error] object. *)
Definition errorMessage (e : Err) : string :=
  match e with
  | RetryableError m | FatalError m | Error m | TypeError m => m
  | AbortError => "The user aborted a request."
  end.

(** Decimal rendering of a number inside a template string. *)
Definition show (n : Z) : string := NilZero.string_of_int (Z.to_int n).

(** ** Outbound messages and the observable trace *)

Inductive LogLevel := info | warn | error_level.

Inductive LogText :=
  | LogStartingUpload (contentId : string)
  | LogResuming (uploadId : string)
  | LogTotalParts (totalParts : Z)
  | LogRetrievedParts (n : Z)
  | LogFailedToRetrieve (message : string)
  | LogSkipping (partNumber : Z)
  | LogCompleting (contentId : string)
  | LogCompleted (contentId : string)
  | LogNoPausedUpload (contentId : string)
  | LogCancelled (contentId : string)
  | LogErrorCancelling (contentId message : string)
  | LogSaving (contentId : option string)
  | LogSaved (contentId : option string)
  | LogLoading (id : string)
  | LogLoaded (id : string).

Inductive OutMsg :=
  | INITIATE_UPLOAD_RESPONSE (contentId : string)
      (uploadId key : option string)
  | UPLOAD_PROGRESS (contentId : string) (progress uploadedBytes totalBytes : Z)
  | CHUNK_UPLOADED (contentId : string) (partNumber size : Z)
  | RETRYING_CHUNK (contentId : string) (partNumber attempt maxAttempts : Z)
      (err : string) (nextAttemptDelay : Z)
  | UPLOAD_COMPLETE (contentId : string) (fileUrl : option string)
      (duration totalBytes : Z)
  | UPLOAD_ERROR (contentId message : string) (retryable : bool)
  | UPLOAD_PAUSED (contentId : string)
  | UPLOAD_CANCELLED (contentId : string)
  | UPLOAD_STATUS (contentId : string) (status : UploadStatus)
  | LOG (message : LogText) (level : LogLevel) (contentId : option string).

(** The requests the client issues, by endpoint. *)
Inductive Request :=
  | ReqInitiate (fileName fileType : string) (size duration : Z)
      (useAcceleration : bool)
  | ReqSignedUrl (partNumber : Z) (uploadId key : string)
      (useAcceleration : bool)
  | ReqPut (url : string) (contentLength : Z)
  | ReqComplete (key uploadId contentId : string) (parts : list UploadPart)
      (useAcceleration : bool)
  | ReqCancel (key uploadId contentId : string) (useAcceleration : bool)
  | ReqListParts (key uploadId : string).

Inductive Event :=
  | Broadcast (m : OutMsg)
  | Sleep (ms : Z)
  | FetchBegin (r : Request)
  | FetchEnd (r : Request).

(** ** The environment *)

Inductive Json :=
  | JInitiate (uploadId key contentId : string)
      (accelerationEndpoint : option string)
  | JSignedUrl (partNumber : Z) (signedUrl : string)
  | JComplete (location : string)
  | JParts (parts : list UploadPart)
  | JNone.

(** The fields a call site reads off a body it has cast. *)

Definition json_uploadId (data : Json) : option string :=
  match data with JInitiate uploadId _ _ _ => Some uploadId | _ => None end.

Definition json_key (data : Json) : option string :=
  match data with JInitiate _ key _ _ => Some key | _ => None end.

Definition json_accelerationEndpoint (data : Json) : option string :=
  match data with JInitiate _ _ _ endpoint => endpoint | _ => None end.

Definition json_signedUrl (data : Json) : option string :=
  match data with JSignedUrl _ signedUrl => Some signedUrl | _ => None end.

Definition json_location (data : Json) : option string :=
  match data with JComplete location => Some location | _ => None end.

Record Response := {
  resp_ok : bool;
  resp_ETag : option string;
  resp_json : Json
}.

Inductive FetchOutcome :=
  | Responds (r : Response)
  | TimesOut
  | NetworkFails
  | PauseArrives (contentId : string).

(** An entry of the [activeUploads] map: a reference to the shared
    [UploadState] object and the [AbortController] of the upload. *)
Record ActiveUpload := { au_state : nat; au_controller : nat }.

Record World := {
  uploadsStore : gmap string UploadState;
  chunksStore : gmap string UploadChunk;
  activeUploads : gmap string ActiveUpload;
  heap : nat -> UploadState;
  nextObject : nat;
  aborted : nat -> bool;
  nextController : nat;
  accelerationEndpoint : option string;
  network : list FetchOutcome;
  uuids : list string;
  clock : Z
}.

Definition with_uploadsStore (f : gmap string UploadState -> gmap string UploadState)
    (w : World) : World :=
  {| uploadsStore := f (uploadsStore w); chunksStore := chunksStore w;
     activeUploads := activeUploads w; heap := heap w;
     nextObject := nextObject w; aborted := aborted w;
     nextController := nextController w;
     accelerationEndpoint := accelerationEndpoint w; network := network w;
     uuids := uuids w; clock := clock w |}.

Definition with_chunksStore (f : gmap string UploadChunk -> gmap string UploadChunk)
    (w : World) : World :=
  {| uploadsStore := uploadsStore w; chunksStore := f (chunksStore w);
     activeUploads := activeUploads w; heap := heap w;
     nextObject := nextObject w; aborted := aborted w;
     nextController := nextController w;
     accelerationEndpoint := accelerationEndpoint w; network := network w;
     uuids := uuids w; clock := clock w |}.

Definition with_activeUploads (f : gmap string ActiveUpload -> gmap string ActiveUpload)
    (w : World) : World :=
  {| uploadsStore := uploadsStore w; chunksStore := chunksStore w;
     activeUploads := f (activeUploads w); heap := heap w;
     nextObject := nextObject w; aborted := aborted w;
     nextController := nextController w;
     accelerationEndpoint := accelerationEndpoint w; network := network w;
     uuids := uuids w; clock := clock w |}.

Definition with_heap (h : nat -> UploadState) (n : nat) (w : World) : World :=
  {| uploadsStore := uploadsStore w; chunksStore := chunksStore w;
     activeUploads := activeUploads w; heap := h; nextObject := n;
     aborted := aborted w; nextController := nextController w;
     accelerationEndpoint := accelerationEndpoint w; network := network w;
     uuids := uuids w; clock := clock w |}.

Definition with_aborted (a : nat -> bool) (n : nat) (w : World) : World :=
  {| uploadsStore := uploadsStore w; chunksStore := chunksStore w;
     activeUploads := activeUploads w; heap := heap w;
     nextObject := nextObject w; aborted := a; nextController := n;
     accelerationEndpoint := accelerationEndpoint w; network := network w;
     uuids := uuids w; clock := clock w |}.

Definition with_accelerationEndpoint (e : option string) (w : World) : World :=
  {| uploadsStore := uploadsStore w; chunksStore := chunksStore w;
     activeUploads := activeUploads w; heap := heap w;
     nextObject := nextObject w; aborted := aborted w;
     nextController := nextController w; accelerationEndpoint := e;
     network := network w; uuids := uuids w; clock := clock w |}.

Definition with_network (n : list FetchOutcome) (w : World) : World :=
  {| uploadsStore := uploadsStore w; chunksStore := chunksStore w;
     activeUploads := activeUploads w; heap := heap w;
     nextObject := nextObject w; aborted := aborted w;
     nextController := nextController w;
     accelerationEndpoint := accelerationEndpoint w; network := n;
     uuids := uuids w; clock := clock w |}.

Definition with_uuids (u : list string) (w : World) : World :=
  {| uploadsStore := uploadsStore w; chunksStore := chunksStore w;
     activeUploads := activeUploads w; heap := heap w;
     nextObject := nextObject w; aborted := aborted w;
     nextController := nextController w;
     accelerationEndpoint := accelerationEndpoint w; network := network w;
     uuids := u; clock := clock w |}.

Definition with_clock (c : Z) (w : World) : World :=
  {| uploadsStore := uploadsStore w; chunksStore := chunksStore w;
     activeUploads := activeUploads w; heap := heap w;
     nextObject := nextObject w; aborted := aborted w;
     nextController := nextController w;
     accelerationEndpoint := accelerationEndpoint w; network := network w;
     uuids := uuids w; clock := c |}.

(** ** The monad of asynchronous methods *)

Inductive Result (A : Type) :=
  | Ok (a : A)
  | Throw (e : Err).
Arguments Ok {A} a.
Arguments Throw {A} e.

Definition M (A : Type) : Type := World -> Result A * World * list Event.

Definition ret {A} (a : A) : M A := fun w => (Ok a, w, []).

Definition throw {A} (e : Err) : M A := fun w => (Throw e, w, []).

Definition bind {A B} (m : M A) (k : A -> M B) : M B :=
  fun w =>
    match m w with
    | (Ok a, w1, e1) =>
        match k a w1 with (r, w2, e2) => (r, w2, e1 ++ e2) end
    | (Throw e, w1, e1) => (Throw e, w1, e1)
    end.

(** [try { m } catch (error) { h error }] *)
Definition try_catch {A} (m : M A) (h : Err -> M A) : M A :=
  fun w =>
    match m w with
    | (Ok a, w1, e1) => (Ok a, w1, e1)
    | (Throw e, w1, e1) =>
        match h e w1 with (r, w2, e2) => (r, w2, e1 ++ e2) end
    end.

Declare Scope async_scope.
Delimit Scope async_scope with async.
Notation "x <- m ;; k" := (bind m (fun x => k))
  (at level 100, m at next level, right associativity) : async_scope.
Notation "m ;; k" := (bind m (fun _ => k))
  (at level 100, right associativity) : async_scope.
Open Scope async_scope.

Definition get_world : M World := fun w => (Ok w, w, []).
Definition update_world (f : World -> World) : M unit :=
  fun w => (Ok tt, f w, []).
Definition emit (e : Event) : M unit := fun w => (Ok tt, w, [e]).

(** Projections of a run. *)
Definition result_of {A} (x : Result A * World * list Event) : Result A := x.1.1.
Definition world_of {A} (x : Result A * World * list Event) : World := x.1.2.
Definition events_of {A} (x : Result A * World * list Event) : list Event := x.2.

(** logger.ts *)
Definition broadcast (m : OutMsg) : M unit := emit (Broadcast m).

Definition broadcastLog (message : LogText) (level : LogLevel)
    (contentId : option string) : M unit :=
  broadcast (LOG message level contentId).

(** [await new Promise((resolve) => setTimeout(resolve, delay))] *)
Definition sleep (delay : Z) : M unit :=
  emit (Sleep delay);; update_world (fun w => with_clock (clock w + delay) w).

(** [Date.now()] *)
Definition now : M Z := w <- get_world;; ret (clock w).

(** [crypto.randomUUID()] *)
Definition randomUUID : M string :=
  fun w =>
    match uuids w with
    | u :: rest => (Ok u, with_uuids rest w, [])
    | [] => (Ok "00000000-0000-4000-8000-000000000000", w, [])
    end.

(** Objects and abort controllers. *)

Definition fn_update {A} (f : nat -> A) (i : nat) (a : A) : nat -> A :=
  fun j => if Nat.eqb j i then a else f j.

Definition new_object (u : UploadState) : M nat :=
  fun w =>
    (Ok (nextObject w),
     with_heap (fn_update (heap w) (nextObject w) u) (S (nextObject w)) w, []).

Definition read_object (r : nat) : M UploadState :=
  w <- get_world;; ret (heap w r).

Definition modify_object (r : nat) (f : UploadState -> UploadState) : M unit :=
  update_world (fun w =>
    with_heap (fn_update (heap w) r (f (heap w r))) (nextObject w) w).

(** [new AbortController()] *)
Definition newAbortController : M nat :=
  fun w =>
    (Ok (nextController w),
     with_aborted (fn_update (aborted w) (nextController w) false)
       (S (nextController w)) w, []).

(** [controller.abort()] *)
Definition abort (c : nat) : M unit :=
  update_world (fun w =>
    with_aborted (fn_update (aborted w) c true) (nextController w) w).

(** ** Persistence store (databaseService.ts)

    The object stores are keyed by the [id] key path; the [chunks] store has
    an index on [uploadId]. *)

Module databaseService.

Definition saveUploadState (state : UploadState) : M unit :=
  broadcastLog (LogSaving (st_contentId state)) info None;;
  update_world (with_uploadsStore (fun m => <[st_id state := state]> m));;
  broadcastLog (LogSaved (st_contentId state)) info None.

Definition loadUploadState (id : string) : M (option UploadState) :=
  broadcastLog (LogLoading id) info None;;
  w <- get_world;;
  let result := uploadsStore w !! id in
  broadcastLog (LogLoaded id) info None;;
  ret result.

Definition saveChunk (chunk : UploadChunk) : M unit :=
  update_world (with_chunksStore (fun m => <[ch_id chunk := chunk]> m)).

(** The entries of a store in ascending order of their keys (for keys
    made of ASCII characters, as UUIDs are). *)
Definition entries {V} (m : gmap string V) : list (string * V) :=
  merge_sort (fun a b => Is_true (String.leb (fst a) (fst b)))
    (map_to_list m).

(** [index.getAll(uploadId)]: the records of the index key, in the order
    of their primary keys. *)
Definition index_getAll (uploadId : string) (m : gmap string UploadChunk)
    : list UploadChunk :=
  filter (fun c => ch_uploadId c = uploadId) (snd <$> entries m).

Definition loadChunks (uploadId : string) : M (list UploadChunk) :=
  w <- get_world;; ret (index_getAll uploadId (chunksStore w)).

Definition deleteUploadState (contentId : string) : M unit :=
  update_world (with_uploadsStore (fun m => delete contentId m)).

(** The key cursor opened on [IDBKeyRange.only(uploadId)] visits the
    primary keys of the matching records; each is deleted in turn. *)
Definition cursor_keys (uploadId : string) (m : gmap string UploadChunk)
    : list string :=
  fst <$> filter (fun kv => ch_uploadId (snd kv) = uploadId) (entries m).

Definition deleteChunks (uploadId : string) : M unit :=
  update_world (with_chunksStore (fun m =>
    foldl (fun store primaryKey => delete primaryKey store) m
      (cursor_keys uploadId m))).

(** [store.getAll()]: the records in ascending order of their keys. *)
Definition getAll (m : gmap string UploadState) : list UploadState :=
  snd <$> entries m.

(** Every record read is a fresh object; the references are returned. *)
Fixpoint new_objects (records : list UploadState) : M (list nat) :=
  match records with
  | [] => ret []
  | record :: rest =>
      object <- new_object record;;
      objects <- new_objects rest;;
      ret (object :: objects)
  end.

Definition loadAllUploadStates : M (list nat) :=
  w <- get_world;; new_objects (getAll (uploadsStore w)).

End databaseService.

(** ** PAUSE_UPLOAD (uploadHandler.ts, [handlePause]) *)

Definition handlePause (contentId : string) : M unit :=
  w <- get_world;;
  match activeUploads w !! contentId with
  | None => ret tt
  | Some upload =>
      abort (au_controller upload);;
      modify_object (au_state upload) (set_status paused);;
      state <- read_object (au_state upload);;
      databaseService.saveUploadState state;;
      broadcast (UPLOAD_PAUSED contentId);;
      update_world (with_activeUploads (fun m => delete contentId m))
  end.

(** ** Control-plane client (apiClient.ts) *)

(** [signal.aborted] of the optional external signal. *)
Definition signal_aborted (abortSignal : option nat) (w : World) : bool :=
  match abortSignal with
  | Some c => aborted w c
  | None => false
  end.

(** The settlement of one pending [fetch] whose signal combines the timer
    of the request with [abortSignal]. The head of the script decides:
    a response, the timer firing first ([AbortError]), a transport failure
    ([TypeError]), or a PAUSE_UPLOAD command handled meanwhile, after which
    the request is aborted when its own signal fired and is still pending
    otherwise. *)
Fixpoint settle (abortSignal : option nat) (script : list FetchOutcome)
    (w : World) : Result Response * World * list Event :=
  match script with
  | [] => (Throw (TypeError "Failed to fetch"), with_network [] w, [])
  | Responds r :: rest => (Ok r, with_network rest w, [])
  | TimesOut :: rest => (Throw AbortError, with_network rest w, [])
  | NetworkFails :: rest =>
      (Throw (TypeError "Failed to fetch"), with_network rest w, [])
  | PauseArrives contentId :: rest =>
      match handlePause contentId (with_network rest w) with
      | (_, w1, e1) =>
          if signal_aborted abortSignal w1
          then (Throw AbortError, w1, e1)
          else match settle abortSignal rest w1 with
               | (r, w2, e2) => (r, w2, e1 ++ e2)
               end
      end
  end.

(** [fetch(url, { ...options, signal })]. A signal that is already aborted
    rejects the call at once, before any request is issued. *)
Definition fetch (req : Request) (abortSignal : option nat) : M Response :=
  fun w =>
    if signal_aborted abortSignal w then (Throw AbortError, w, [])
    else
      match settle abortSignal (network w) w with
      | (r, w1, e1) => (r, w1, FetchBegin req :: e1 ++ [FetchEnd req])
      end.

(** *** [String.prototype.replace] with the host pattern

    [/\.s3\.([^.]+)\.amazonaws\.com/] has no alternative to backtrack
    into: after the literal [.s3.] the group takes every character up to the
    next dot, and the literal [.amazonaws.com] must follow. *)

Fixpoint strip_prefix (p s : string) : option string :=
  match p, s with
  | EmptyString, _ => Some s
  | String a p', String b s' =>
      if Ascii.eqb a b then strip_prefix p' s' else None
  | String _ _, EmptyString => None
  end.

Fixpoint span_not_dot (s : string) : string * string :=
  match s with
  | EmptyString => (EmptyString, EmptyString)
  | String c s' =>
      if Ascii.eqb c "."%char then (EmptyString, s)
      else match span_not_dot s' with (g, r) => (String c g, r) end
  end.

(** A match anchored at the start of [s]: the matched text, the capture
    group and the text after the match. *)
Definition match_here (s : string) : option (string * string * string) :=
  match strip_prefix ".s3." s with
  | Some r1 =>
      match span_not_dot r1 with
      | (EmptyString, _) => None
      | (g, r2) =>
          match strip_prefix ".amazonaws.com" r2 with
          | Some r3 => Some (".s3." +:+ g +:+ ".amazonaws.com", g, r3)
          | None => None
          end
      end
  | None => None
  end.

(** The leftmost match: text before, matched text, group 1, text after. *)
Fixpoint regexp_exec (s : string)
    : option (string * string * string * string) :=
  match match_here s with
  | Some (m, g, a) => Some (EmptyString, m, g, a)
  | None =>
      match s with
      | EmptyString => None
      | String c s' =>
          match regexp_exec s' with
          | Some (b, m, g, a) => Some (String c b, m, g, a)
          | None => None
          end
      end
  end.

Definition is_digit (c : ascii) : bool :=
  (48 <=? nat_of_ascii c)%nat && (nat_of_ascii c <=? 57)%nat.

(** [GetSubstitution] for a pattern with one capture group and no named
    groups: the dollar forms of the replacement template are expanded. *)
Fixpoint getSubstitution (matched before after group1 template : string)
    : string :=
  let go := getSubstitution matched before after group1 in
  match template with
  | EmptyString => EmptyString
  | String "$"%char rest =>
      match rest with
      | EmptyString => "$"
      | String "$"%char r => "$" +:+ go r
      | String "`"%char r => before +:+ go r
      | String "&"%char r => matched +:+ go r
      | String "'"%char r => after +:+ go r
      | String d1 r =>
          if is_digit d1 then
            let one_digit :=
              if Ascii.eqb d1 "1"%char then group1 +:+ go r
              else String "$"%char (String d1 (go r)) in
            match r with
            | String d2 r2 =>
                if is_digit d2 then
                  if Ascii.eqb d1 "0"%char then
                    if Ascii.eqb d2 "1"%char then group1 +:+ go r2
                    else if Ascii.eqb d2 "0"%char
                         then String "$"%char (String d1 (String d2 (go r2)))
                         else one_digit
                  else one_digit
                else one_digit
            | EmptyString => one_digit
            end
          else String "$"%char (go rest)
      end
  | String c rest => String c (go rest)
  end.

(** [url.replace(/\.s3\.([^.]+)\.amazonaws\.com/, replacement)] *)
Definition replace_host (url replacement : string) : string :=
  match regexp_exec url with
  | None => url
  | Some (b, m, g, a) => b +:+ getSubstitution m b a g replacement +:+ a
  end.

(** Removal of every double-quote character (code 34), as done on the
    ETag header. *)
Fixpoint strip_quotes (s : string) : string :=
  match s with
  | EmptyString => EmptyString
  | String c s' =>
      if Ascii.eqb c "034"%char then strip_quotes s' else String c (strip_quotes s')
  end.

(** Truthiness of an optional string: [undefined], [null] and the empty
    string are falsy. *)
Definition truthy (s : option string) : option string :=
  match s with
  | Some EmptyString => None
  | Some v => Some v
  | None => None
  end.

(** [file.slice(start, end)] *)
Definition slice (file : File) (start end_ : Z) : Blob :=
  let size := file_size file in
  let rel x := if x <? 0 then Z.max (size + x) 0 else Z.min x size in
  {| blob_size := Z.max (rel end_ - rel start) 0 |}.

(** [fetch(input, ...)] turns its first argument into a string. *)
Definition url_string (input : option string) : string :=
  match input with
  | Some url => url
  | None => "undefined"
  end.

Module ApiClient.

Definition fetchWithTimeout (req : Request) (abortSignal : option nat)
    : M Response :=
  try_catch (fetch req abortSignal)
    (fun err =>
       if isAbortError err
       then throw (RetryableError "Request timed out")
       else throw err).

(** [retries] counts down from [CONFIG.RETRY.ATTEMPTS]. *)
Fixpoint fetchWithRetry (req : Request) (retries : nat)
    (abortSignal : option nat) : M Response :=
  try_catch (fetchWithTimeout req abortSignal)
    (fun err =>
       match retries with
       | S retries' =>
           if isRetryableError err then
             sleep CONFIG.RETRY.DELAY;;
             fetchWithRetry req retries' abortSignal
           else throw err
       | O => throw err
       end).

Definition shouldUseAcceleration (fileSize : Z) : bool :=
  CONFIG.S3_TRANSFER_ACCELERATION.ENABLED
  && (CONFIG.S3_TRANSFER_ACCELERATION.MIN_SIZE <=? fileSize).

(** [!!this.accelerationEndpoint] *)
Definition acceleration_on : M bool :=
  w <- get_world;;
  ret (match truthy (accelerationEndpoint w) with Some _ => true | None => false end).

(** The body is returned as it is. *)
Definition initiateMultipartUpload (file : File) (videoDuration : Z)
    (fileType : string) : M Json :=
  let useAcceleration := shouldUseAcceleration (file_size file) in
  response <- fetchWithRetry
    (ReqInitiate (file_name file) fileType (file_size file) videoDuration
       useAcceleration) CONFIG.RETRY.ATTEMPTS None;;
  if negb (resp_ok response)
  then throw (FatalError "Failed to initiate multipart upload")
  else
    let data := resp_json response in
    match truthy (json_accelerationEndpoint data) with
    | Some e => update_world (with_accelerationEndpoint (Some e))
    | None => ret tt
    end;;
    ret data.

(** [return data.signedUrl] *)
Definition getSignedUrl (partNumber : Z) (uploadId key : string)
    : M (option string) :=
  useAcceleration <- acceleration_on;;
  response <- fetchWithRetry
    (ReqSignedUrl partNumber uploadId key useAcceleration)
    CONFIG.RETRY.ATTEMPTS None;;
  if negb (resp_ok response)
  then throw (RetryableError "Failed to get signed URL")
  else ret (json_signedUrl (resp_json response)).

(** The first argument is the field [this.accelerationEndpoint]. *)
Definition transformToAcceleratedUrl (endpoint : option string)
    (url : string) : string :=
  match truthy endpoint with
  | None => url
  | Some e => replace_host url ("." +:+ e)
  end.

(** Without an endpoint [transformToAcceleratedUrl] returns its
    argument, [undefined] included; with one, [url.replace] on
    [undefined] raises a [TypeError]. *)
Definition uploadPart (key uploadId : string) (partNumber : Z)
    (chunk : Blob) (abortSignal : nat) : M UploadPart :=
  signedUrl <- getSignedUrl partNumber uploadId key;;
  w <- get_world;;
  uploadUrl <-
    match signedUrl with
    | Some url =>
        ret (Some (transformToAcceleratedUrl (accelerationEndpoint w) url))
    | None =>
        match truthy (accelerationEndpoint w) with
        | None => ret None
        | Some _ =>
            throw (TypeError
              "Cannot read properties of undefined (reading 'replace')")
        end
    end;;
  response <- fetchWithRetry (ReqPut (url_string uploadUrl) (blob_size chunk))
    CONFIG.RETRY.ATTEMPTS (Some abortSignal);;
  if negb (resp_ok response)
  then throw (RetryableError ("Failed to upload part " +:+ show partNumber))
  else
    match truthy (resp_ETag response) with
    | None => throw (Error ("No ETag received for part " +:+ show partNumber))
    | Some eTag =>
        ret {| p_partNumber := partNumber; p_eTag := strip_quotes eTag;
               p_size := Some (blob_size chunk) |}
    end.

(** The body is returned as it is. *)
Definition completeMultipartUpload (key uploadId contentId : string)
    (parts : list UploadPart) : M Json :=
  useAcceleration <- acceleration_on;;
  response <- fetchWithRetry
    (ReqComplete key uploadId contentId parts useAcceleration)
    CONFIG.RETRY.ATTEMPTS None;;
  if negb (resp_ok response)
  then throw (FatalError "Failed to complete multipart upload")
  else ret (resp_json response).

Definition cancelUpload (key uploadId contentId : string) : M unit :=
  useAcceleration <- acceleration_on;;
  response <- fetchWithRetry
    (ReqCancel key uploadId contentId useAcceleration)
    CONFIG.RETRY.ATTEMPTS None;;
  if negb (resp_ok response)
  then throw (RetryableError "Failed to cancel multipart upload")
  else ret tt.

(** [return data.parts]; for a body without [parts] see the conventions
    at the head of the file. *)
Definition listUploadedParts (key uploadId : string)
    : M (list UploadPart) :=
  response <- fetchWithRetry (ReqListParts key uploadId)
    CONFIG.RETRY.ATTEMPTS None;;
  if negb (resp_ok response)
  then throw (RetryableError "Failed to list uploaded parts")
  else
    match resp_json response with
    | JParts parts => ret parts
    | _ =>
        throw (TypeError
          "Cannot read properties of undefined (reading 'length')")
    end.

End ApiClient.

(** ** Upload engine (uploadHandler.ts) *)

Inductive UploadMessage :=
  | START_UPLOAD (file : File) (duration : Z) (fileType : string)
      (chunkConfig : option ChunkConfig)
  | RESUME_UPLOAD (contentId : string).

(** [Math.ceil(a / b)] for a positive divisor. *)
Definition ceil_div (a b : Z) : Z := - ((- a) / b).

(** *** Arithmetic on doubles

    The quotient and the product of [Math.round((completedParts /
    totalParts) * 100)] are doubles: each is the exact result rounded to
    the nearest value with 53 significant bits, ties to the even one. The
    values that occur are zero or lie within the range of the normal
    doubles, and are represented by the rationals they denote. *)

(** The integer nearest to [x], ties to the even one. *)
Definition nearest_even (x : Q) : Z :=
  let q := Qfloor x in
  match (x - inject_Z q ?= 1 # 2)%Q with
  | Lt => q
  | Gt => q + 1
  | Eq => if Z.even q then q else q + 1
  end.

(** [floor (log2 x)] for a positive [x]. *)
Definition binade (x : Q) : Z :=
  let k := Z.log2 (Qnum x) - Z.log2 (Zpos (Qden x)) in
  if Qle_bool (2 ^ k) x then k else k - 1.

(** The double nearest to [x >= 0]. *)
Definition fl (x : Q) : Q :=
  if Qle_bool x 0 then 0%Q
  else
    let e := binade x - 52 in
    (inject_Z (nearest_even (x / 2 ^ e)) * 2 ^ e)%Q.

(** [Math.round(x)]: the nearest integer, ties towards positive
    infinity. *)
Definition Math_round (x : Q) : Z := Qfloor (x + (1 # 2)).

(** [Math.round((completedParts / totalParts) * 100)], for
    [completedParts >= 0] and [totalParts > 0]. *)
Definition round_percent (completedParts totalParts : Z) : Z :=
  Math_round
    (fl (fl (inject_Z completedParts / inject_Z totalParts) * 100)).

(** [uploadedPartNumbers.has(partNumber)] *)
Definition has (numbers : list Z) (partNumber : Z) : bool :=
  bool_decide (partNumber ∈ numbers).

Module UploadHandler.

(** [const { uploadId, key, content } = data]; the message is sent with
    what the body holds, and [content.id] raises a [TypeError] for a
    body without [content]. *)
Definition initializeNewUpload (file : File) (duration : Z)
    (fileType : string) (chunkConfig : option ChunkConfig)
    : M UploadState :=
  contentId <- randomUUID;;
  broadcastLog (LogStartingUpload contentId) info None;;
  data <- ApiClient.initiateMultipartUpload file duration fileType;;
  broadcast (INITIATE_UPLOAD_RESPONSE contentId (json_uploadId data)
               (json_key data));;
  let partSize :=
    match chunkConfig with
    | Some c => cc_size c
    | None => CONFIG.PART_SIZE
    end in
  let maxConcurrentUploads :=
    match chunkConfig with
    | Some c => cc_concurrent c
    | None => CONFIG.MAX_CONCURRENT_UPLOADS
    end in
  match data with
  | JInitiate uploadId key content_id _ =>
      startTime <- now;;
      ret {| st_id := content_id; st_file := file;
             st_fileName := file_name file; st_fileSize := file_size file;
             st_uploadId := uploadId; st_key := key;
             st_progress := 0; st_status := in_progress; st_parts := [];
             st_startTime := startTime; st_error := None;
             st_fileUrl := None; st_contentId := Some content_id;
             st_partSize := partSize;
             st_maxConcurrentUploads := maxConcurrentUploads |}
  | _ =>
      throw (TypeError "Cannot read properties of undefined (reading 'id')")
  end.

Definition getUploadStateForResume (contentId : string) : M UploadState :=
  state <- databaseService.loadUploadState contentId;;
  match state with
  | None => throw (Error "No upload state found to resume")
  | Some state =>
      broadcastLog (LogResuming (st_uploadId state)) info None;;
      ret state
  end.

Definition getUploadedParts (uploadState : UploadState)
    : M (list UploadPart) :=
  try_catch
    (parts <- ApiClient.listUploadedParts (st_key uploadState)
                (st_uploadId uploadState);;
     broadcastLog (LogRetrievedParts (Z.of_nat (length parts))) info None;;
     ret parts)
    (fun err =>
       broadcastLog (LogFailedToRetrieve (errorMessage err)) error_level
         None;;
       ret []).

(** [remaining] is [CONFIG.RETRY.ATTEMPTS - retryCount]; the driver calls
    with [retryCount = 0]. *)
Fixpoint uploadPart_from (remaining : nat) (contentId key uploadId : string)
    (partNumber : Z) (chunk : Blob) (abortSignal : nat) : M UploadPart :=
  let retryCount := Z.of_nat (CONFIG.RETRY.ATTEMPTS - remaining) in
  try_catch
    (part <- ApiClient.uploadPart key uploadId partNumber chunk abortSignal;;
     broadcast (CHUNK_UPLOADED contentId partNumber (blob_size chunk));;
     ret {| p_partNumber := partNumber; p_eTag := p_eTag part;
            p_size := Some (blob_size chunk) |})
    (fun err =>
       match remaining with
       | S remaining' =>
           if isRetryableError err && negb (isAbortError err) then
             let delay := Z.min (1000 * 2 ^ retryCount) 30000 in
             broadcast (RETRYING_CHUNK contentId partNumber (retryCount + 1)
                          (Z.of_nat CONFIG.RETRY.ATTEMPTS)
                          (errorMessage err) delay);;
             sleep delay;;
             uploadPart_from remaining' contentId key uploadId partNumber
               chunk abortSignal
           else throw err
       | O => throw err
       end).

Definition uploadPart (contentId key uploadId : string) (partNumber : Z)
    (chunk : Blob) (abortSignal : nat) : M UploadPart :=
  uploadPart_from CONFIG.RETRY.ATTEMPTS contentId key uploadId partNumber
    chunk abortSignal.

Definition broadcastProgress (contentId : string)
    (progress completedParts : Z) (uploadState : UploadState) : M unit :=
  broadcast (UPLOAD_PROGRESS contentId progress
               (completedParts * st_partSize uploadState)
               (st_fileSize uploadState)).

Definition handleUploadError (contentId : string) (err : Err) : M unit :=
  broadcast (UPLOAD_ERROR contentId (errorMessage err)
               (isRetryableError err));;
  w <- get_world;;
  match activeUploads w !! contentId with
  | Some upload =>
      modify_object (au_state upload) (set_status error);;
      modify_object (au_state upload) (set_error (errorMessage err));;
      state <- read_object (au_state upload);;
      databaseService.saveUploadState state;;
      update_world (with_activeUploads (fun m => delete contentId m))
  | None => ret tt
  end.

(** [uploadState] is the reference to the shared object. *)
Definition completeUpload (uploadState : nat) : M unit :=
  state <- read_object uploadState;;
  match truthy (st_contentId state) with
  | None => throw (Error "Upload state has no contentId")
  | Some contentId =>
      broadcastLog (LogCompleting contentId) info None;;
      completeResponse <- ApiClient.completeMultipartUpload (st_key state)
                            (st_uploadId state) contentId (st_parts state);;
      let location := json_location completeResponse in
      modify_object uploadState (set_status completed);;
      modify_object uploadState (set_fileUrl location);;
      saved <- read_object uploadState;;
      databaseService.saveUploadState saved;;
      t <- now;;
      broadcast (UPLOAD_COMPLETE contentId location
                   (t - st_startTime state) (st_fileSize state));;
      update_world (with_activeUploads (fun m => delete contentId m));;
      broadcastLog (LogCompleted contentId) info None
  end.

(** The body of the [for] loop over the part numbers still ahead;
    [completedParts] is the running counter. *)
Fixpoint partsLoop (uploadState : nat) (abortSignal : nat) (file : File)
    (key uploadId contentId : string) (partSize totalParts : Z)
    (uploadedPartNumbers : list Z) (partNumbers : list Z)
    (completedParts : Z) : M unit :=
  match partNumbers with
  | [] => ret tt
  | partNumber :: rest =>
      if has uploadedPartNumbers partNumber then
        broadcastLog (LogSkipping partNumber) info None;;
        partsLoop uploadState abortSignal file key uploadId contentId
          partSize totalParts uploadedPartNumbers rest completedParts
      else
        let start := (partNumber - 1) * partSize in
        let end_ := Z.min (start + partSize) (file_size file) in
        let chunk := slice file start end_ in
        completedParts' <-
          try_catch
            (part <- uploadPart contentId key uploadId partNumber chunk
                       abortSignal;;
             modify_object uploadState (push_part part);;
             let completedParts := completedParts + 1 in
             let progress := round_percent completedParts totalParts in
             modify_object uploadState (set_progress progress);;
             state <- read_object uploadState;;
             databaseService.saveUploadState state;;
             broadcastProgress contentId progress completedParts state;;
             ret completedParts)
            (fun err =>
               handleUploadError contentId err;;
               throw err);;
        partsLoop uploadState abortSignal file key uploadId contentId
          partSize totalParts uploadedPartNumbers rest completedParts'
  end.

Definition uploadParts (uploadState : nat) (abortSignal : nat) : M unit :=
  state <- read_object uploadState;;
  match truthy (st_contentId state) with
  | None => throw (Error "Upload state has no contentId")
  | Some contentId =>
      let file := st_file state in
      let partSize := st_partSize state in
      let totalParts := ceil_div (file_size file) partSize in
      broadcastLog (LogTotalParts totalParts) info None;;
      uploadedParts <- getUploadedParts state;;
      let uploadedPartNumbers := p_partNumber <$> uploadedParts in
      let completedParts := Z.of_nat (length uploadedParts) in
      partsLoop uploadState abortSignal file (st_key state)
        (st_uploadId state) contentId partSize totalParts
        uploadedPartNumbers (seqZ 1 totalParts) completedParts;;
      completeUpload uploadState
  end.

Definition handleUpload (message : UploadMessage) : M unit :=
  uploadState <-
    match message with
    | RESUME_UPLOAD contentId => getUploadStateForResume contentId
    | START_UPLOAD file duration fileType chunkConfig =>
        initializeNewUpload file duration fileType chunkConfig
    end;;
  match truthy (st_contentId uploadState) with
  | None => throw (Error "Upload state has no contentId")
  | Some contentId =>
      controller <- newAbortController;;
      object <- new_object uploadState;;
      update_world (with_activeUploads (fun m =>
        <[contentId := {| au_state := object; au_controller := controller |}]> m));;
      databaseService.saveUploadState uploadState;;
      uploadParts object controller
  end.

Definition handlePause := handlePause.

Definition handleResume (contentId : string) : M unit :=
  try_catch
    (uploadState <- databaseService.loadUploadState contentId;;
     match uploadState with
     | Some uploadState =>
         if bool_decide (st_status uploadState = paused) then
           databaseService.saveUploadState (set_status in_progress uploadState);;
           handleUpload (RESUME_UPLOAD contentId)
         else
           broadcastLog (LogNoPausedUpload contentId) error_level None
     | None => broadcastLog (LogNoPausedUpload contentId) error_level None
     end)
    (fun err => handleUploadError contentId err).

(** The steps of the handler itself. The driver of the upload, which is
    suspended at an [await] when CANCEL_UPLOAD is handled, resumes with
    the fired signal while the handler awaits; its steps are not part of
    this computation. *)
Definition handleCancel (contentId : string) : M unit :=
  w <- get_world;;
  match activeUploads w !! contentId with
  | None => ret tt
  | Some upload =>
      abort (au_controller upload);;
      databaseService.deleteUploadState contentId;;
      state <- read_object (au_state upload);;
      databaseService.deleteChunks (st_uploadId state);;
      try_catch
        (state <- read_object (au_state upload);;
         ApiClient.cancelUpload (st_key state) (st_uploadId state) contentId;;
         broadcastLog (LogCancelled contentId) info None)
        (fun err =>
           broadcastLog (LogErrorCancelling contentId (errorMessage err))
             error_level None);;
      broadcast (UPLOAD_CANCELLED contentId);;
      update_world (with_activeUploads (fun m => delete contentId m))
  end.

Definition handleGetUploadStatus (contentId : string) : M unit :=
  state <- databaseService.loadUploadState contentId;;
  match state with
  | Some state => broadcast (UPLOAD_STATUS contentId (st_status state))
  | None => broadcast (UPLOAD_STATUS contentId not_found)
  end.

(** [uploadState] refers to the object read from the store. *)
Definition resumeUpload (uploadState : nat) : M unit :=
  state <- read_object uploadState;;
  match truthy (st_contentId state) with
  | None => throw (Error "Upload state has no contentId")
  | Some contentId =>
      w <- get_world;;
      match activeUploads w !! contentId with
      | Some _ => ret tt
      | None =>
          controller <- newAbortController;;
          update_world (with_activeUploads (fun m =>
            <[contentId := {| au_state := uploadState;
                              au_controller := controller |}]> m));;
          uploadParts uploadState controller
      end
  end.

(** [for (const state of states) { await body(state) }] *)
Fixpoint for_of (body : nat -> M unit) (states : list nat) : M unit :=
  match states with
  | [] => ret tt
  | state :: rest => body state;; for_of body rest
  end.

Definition loadOngoingUploads : M unit :=
  allUploadStates <- databaseService.loadAllUploadStates;;
  for_of (fun state =>
            s <- read_object state;;
            if bool_decide (st_status s = in_progress)
            then resumeUpload state
            else ret tt)
    allUploadStates.

Definition resumeAllUploads : M unit :=
  allUploadStates <- databaseService.loadAllUploadStates;;
  for_of (fun state =>
            s <- read_object state;;
            if bool_decide (st_status s = paused)
               || bool_decide (st_status s = in_progress)
            then resumeUpload state
            else ret tt)
    allUploadStates.

(** The message is built from the object after [resumeUpload] has
    returned, so it carries the status the object has then;
    [resumeUpload] throws for an object without [contentId], hence the
    last branch is never taken. *)
Definition handleGetActiveUploads : M unit :=
  uploads <- databaseService.loadAllUploadStates;;
  for_of (fun upload =>
            s <- read_object upload;;
            if bool_decide (st_status s = in_progress)
               || bool_decide (st_status s = paused)
            then
              resumeUpload upload;;
              s' <- read_object upload;;
              match st_contentId s' with
              | Some contentId =>
                  broadcast (UPLOAD_STATUS contentId (st_status s'))
              | None => ret tt
              end
            else ret tt)
    uploads.

End UploadHandler.


(** ** Foreground store (uploadStore.ts)

    The state of the store and its synchronous actions. [new Date()] is the
    argument [now] of the actions that stamp a file; the stamps taken within
    one action are equal. *)

Module uploadStore.

Inductive FileStatus :=
  | idle | selected | validating | preparing | uploading | paused
  | retrying | processing | completed | failed | cancelled | expired.

Global Instance FileStatus_eq_dec : EqDecision FileStatus.
Proof. solve_decision. Defined.

Inductive ChunkStatus :=
  | chunk_pending | chunk_uploading | chunk_completed | chunk_failed.

Record UploadChunk := {
  uc_id : string;
  uc_index : Z;
  uc_start : Z;
  uc_end : Z;
  uc_size : Z;
  uc_status : ChunkStatus;
  uc_attempts : Z;
  uc_uploadedAt : option Z
}.

Record UploadFile := {
  uf_id : string;
  uf_file : File;
  uf_name : string;
  uf_size : Z;
  uf_type : string;
  uf_status : FileStatus;
  uf_progress : Z;
  uf_uploadedSize : Z;
  uf_chunks : list UploadChunk;
  uf_error : option string;
  uf_createdAt : Z;
  uf_updatedAt : Z;
  uf_uploadId : option string;
  uf_sessionId : string;
  uf_checksum : option string
}.

Record State := {
  files : gmap string UploadFile;
  activeUploads : list string;
  queuedUploads : list string
}.

(** [{ ...file, status, updatedAt: new Date() }] *)
Definition with_status (status : FileStatus) (now : Z) (file : UploadFile)
    : UploadFile :=
  {| uf_id := uf_id file; uf_file := uf_file file; uf_name := uf_name file;
     uf_size := uf_size file; uf_type := uf_type file; uf_status := status;
     uf_progress := uf_progress file;
     uf_uploadedSize := uf_uploadedSize file; uf_chunks := uf_chunks file;
     uf_error := uf_error file; uf_createdAt := uf_createdAt file;
     uf_updatedAt := now; uf_uploadId := uf_uploadId file;
     uf_sessionId := uf_sessionId file; uf_checksum := uf_checksum file |}.

Definition removeFile (fileId : string) (state : State) : State :=
  {| files := delete fileId (files state);
     activeUploads := filter (fun id => id <> fileId) (activeUploads state);
     queuedUploads := filter (fun id => id <> fileId) (queuedUploads state) |}.

Definition queueFile (fileId : string) (state : State) : State :=
  {| files := files state; activeUploads := activeUploads state;
     queuedUploads := queuedUploads state ++ [fileId] |}.

Definition dequeueFile (fileId : string) (state : State) : State :=
  {| files := files state; activeUploads := activeUploads state;
     queuedUploads := filter (fun id => id <> fileId) (queuedUploads state) |}.

(** [array.splice(start, 0, item)] for an integer [start]: a negative
    [start] counts from the end, and the position is clamped to the
    array. *)
Definition splice_insert (array : list string) (start : Z) (item : string)
    : list string :=
  let len := Z.of_nat (length array) in
  let actualStart :=
    if start <? 0 then Z.max (len + start) 0 else Z.min start len in
  take (Z.to_nat actualStart) array
  ++ item :: drop (Z.to_nat actualStart) array.

Definition reorderQueue (fileId : string) (newPosition : Z) (state : State)
    : State :=
  let newQueue := filter (fun id => id <> fileId) (queuedUploads state) in
  {| files := files state; activeUploads := activeUploads state;
     queuedUploads := splice_insert newQueue newPosition fileId |}.

Definition pauseAll (now : Z) (state : State) : State :=
  {| files :=
       (fun file => if decide (uf_status file = uploading)
                    then with_status paused now file else file)
       <$> files state;
     activeUploads := activeUploads state;
     queuedUploads := queuedUploads state |}.

Definition resumeAll (now : Z) (state : State) : State :=
  {| files :=
       (fun file => if decide (uf_status file = paused)
                    then with_status uploading now file else file)
       <$> files state;
     activeUploads := activeUploads state;
     queuedUploads := queuedUploads state |}.

Definition cancelAll (now : Z) (state : State) : State :=
  {| files :=
       (fun file =>
          if bool_decide (uf_status file
                          ∈ [uploading; paused; selected; preparing])
          then with_status cancelled now file else file)
       <$> files state;
     activeUploads := [];
     queuedUploads := [] |}.

Definition removeCompleted (state : State) : State :=
  {| files := filter (fun entry => uf_status (snd entry) <> completed)
                (files state);
     activeUploads := activeUploads state;
     queuedUploads := queuedUploads state |}.

End uploadStore.
(** ** Observations on traces *)

(** Events that carry no information for the properties below: every
    broadcast except the skip log, UPLOAD_PROGRESS, RETRYING_CHUNK and
    UPLOAD_COMPLETE, and the timer sleeps. *)
Definition routine_message (m : OutMsg) : bool :=
  match m with
  | LOG (LogSkipping _) _ _ => false
  | UPLOAD_PROGRESS _ _ _ _ => false
  | RETRYING_CHUNK _ _ _ _ _ _ => false
  | UPLOAD_COMPLETE _ _ _ _ => false
  | _ => true
  end.

Definition routine (e : Event) : bool :=
  match e with
  | Broadcast m => routine_message m
  | Sleep _ => true
  | FetchBegin _ | FetchEnd _ => false
  end.

(** Requests to the control plane other than the two of a part upload. *)
Definition plain_request (r : Request) : bool :=
  match r with
  | ReqSignedUrl _ _ _ _ | ReqPut _ _ => false
  | _ => true
  end.

(** Part numbers announced as skipped, in order. *)
Definition skipped_parts (evs : list Event) : list Z :=
  omap (fun e => match e with
                 | Broadcast (LOG (LogSkipping p) _ _) => Some p
                 | _ => None
                 end) evs.

(** Part numbers for which a signed URL was requested, in order. *)
Definition attempted_parts (evs : list Event) : list Z :=
  omap (fun e => match e with
                 | FetchBegin (ReqSignedUrl p _ _ _) => Some p
                 | _ => None
                 end) evs.

(** The [progress] fields of the UPLOAD_PROGRESS events of one upload. *)
Definition progress_values (contentId : string) (evs : list Event) : list Z :=
  omap (fun e => match e with
                 | Broadcast (UPLOAD_PROGRESS c p _ _) =>
                     if decide (c = contentId) then Some p else None
                 | _ => None
                 end) evs.

(** The [attempt] and [nextAttemptDelay] fields of the RETRYING_CHUNK
    events. *)
Definition retries_of (evs : list Event) : list (Z * Z) :=
  omap (fun e => match e with
                 | Broadcast (RETRYING_CHUNK _ _ attempt _ _ delay) =>
                     Some (attempt, delay)
                 | _ => None
                 end) evs.

(** The URLs of the part PUT requests. *)
Definition put_urls (evs : list Event) : list string :=
  omap (fun e => match e with
                 | FetchBegin (ReqPut url _) => Some url
                 | _ => None
                 end) evs.

(** Every RETRYING_CHUNK event is directly followed by a sleep of the
    announced delay. *)
Fixpoint sleeps_after_retry (evs : list Event) : Prop :=
  match evs with
  | [] => True
  | Broadcast (RETRYING_CHUNK _ _ _ _ _ delay) :: rest =>
      match rest with
      | Sleep d :: _ => d = delay
      | _ => False
      end /\ sleeps_after_retry rest
  | _ :: rest => sleeps_after_retry rest
  end.


(** Part PUTs in flight: requests begun and not yet settled. *)
Definition is_put (r : Request) : bool :=
  match r with ReqPut _ _ => true | _ => false end.

Definition in_flight_step (n : nat) (e : Event) : nat :=
  match e with
  | FetchBegin r => if is_put r then S n else n
  | FetchEnd r => if is_put r then Nat.pred n else n
  | _ => n
  end.

Definition in_flight (n : nat) (evs : list Event) : nat :=
  foldl in_flight_step n evs.

(** The largest number of PUTs in flight over all prefixes of the trace. *)
Fixpoint peak_in_flight (n : nat) (evs : list Event) : nat :=
  match evs with
  | [] => n
  | e :: rest => Nat.max n (peak_in_flight (in_flight_step n e) rest)
  end.


(** The computation [m] only produces traces satisfying [Q]. *)
Definition produces (Q : list Event -> Prop) {A} (m : M A) : Prop :=
  forall w, Q (events_of (m w)).

(** The computation [m] relates the world before to the world after by
    [R]. *)
Definition preserves (R : World -> World -> Prop) {A} (m : M A) : Prop :=
  forall w, R w (world_of (m w)).

(** The trace of a [handleResume] that finds no paused record. *)
Definition resume_refused (contentId : string) : list Event :=
  [Broadcast (LOG (LogLoading contentId) info None);
   Broadcast (LOG (LogLoaded contentId) info None);
   Broadcast (LOG (LogNoPausedUpload contentId) error_level None)].






(** What a trace property [Q] must satisfy to be established operation by
    operation: [okE] are the single events and [okR] the requests it
    admits. *)
Record trace_laws (Q : list Event -> Prop) (okE : Event -> Prop)
    (okR : Request -> Prop) : Prop := {
  law_nil : Q [];
  law_app : forall a b, Q a -> Q b -> Q (a ++ b);
  law_emit : forall e, okE e -> Q [e];
  law_fetch : forall req noise, okR req ->
    Forall (fun e => routine e = true) noise ->
    Q (FetchBegin req :: noise ++ [FetchEnd req]);
  law_routine : forall e, routine e = true -> okE e;
  law_plain : forall req, plain_request req = true -> okR req
}.

(** What a relation between worlds must satisfy to be preserved by the
    requests of the client. *)
Record world_laws (R : World -> World -> Prop) : Prop := {
  wl_refl : forall w, R w w;
  wl_trans : forall a b c, R a b -> R b c -> R a c;
  wl_clock : forall w c, R w (with_clock c w);
  wl_settle : forall abortSignal w,
    R w (world_of (settle abortSignal (network w) w))
}.

Definition not_retrying (e : Event) : Prop :=
  match e with
  | Broadcast (RETRYING_CHUNK _ _ _ _ _ _) => False
  | _ => True
  end.

(** The delay announced by the [k]-th retry. *)
Definition backoff (k : Z) : Z := Z.min (1000 * 2 ^ (k - 1)) 30000.

(** One attempt: the body of the [try] block of [uploadPart]. *)
Definition attempt (contentId key uploadId : string) (partNumber : Z)
    (chunk : Blob) (abortSignal : nat) : M UploadPart :=
  part <- ApiClient.uploadPart key uploadId partNumber chunk abortSignal;;
  broadcast (CHUNK_UPLOADED contentId partNumber (blob_size chunk));;
  ret {| p_partNumber := partNumber; p_eTag := p_eTag part;
         p_size := Some (blob_size chunk) |}.


(** The part numbers the driver takes from [listUploadedParts]: those of
    the server's answer, or none when the call fails. *)
Definition listed_parts (state : UploadState) (w : World) : list UploadPart :=
  match result_of (ApiClient.listUploadedParts (st_key state)
                     (st_uploadId state) w) with
  | Ok parts => parts
  | Throw _ => []
  end.

(** Skip logs only name parts in [S], signed URLs are only requested for
    parts in [T]. *)
Definition marks_within (S T : Z -> Prop) (e : Event) : Prop :=
  match e with
  | Broadcast (LOG (LogSkipping p) _ _) => S p
  | FetchBegin (ReqSignedUrl p _ _ _) => T p
  | _ => True
  end.

(** A trace along which no PUT is pending at the end and at most one at
    any time. *)
Definition one_at_a_time (evs : list Event) : Prop :=
  in_flight 0 evs = 0%nat /\ (peak_in_flight 0 evs <= 1)%nat.

(** Neither a progress report nor the completion message. *)
Definition plain_event (e : Event) : Prop :=
  match e with
  | Broadcast (UPLOAD_PROGRESS _ _ _ _) => False
  | Broadcast (UPLOAD_COMPLETE _ _ _ _) => False
  | _ => True
  end.

(** The trace contains an UPLOAD_COMPLETE message. *)
Definition completed_announced (evs : list Event) : Prop :=
  exists c url d n, Broadcast (UPLOAD_COMPLETE c url d n) ∈ evs.

(** The [try] block of the loop of [uploadParts] for an outstanding part,
    with its [catch] handler; it returns the updated [completedParts]. *)
Definition part_step (uploadState abortSignal : nat) (file : File)
    (key uploadId contentId : string) (partSize totalParts : Z)
    (partNumber completedParts : Z) : M Z :=
  let start := (partNumber - 1) * partSize in
  let end_ := Z.min (start + partSize) (file_size file) in
  let chunk := slice file start end_ in
  try_catch
    (part <- UploadHandler.uploadPart contentId key uploadId partNumber chunk
               abortSignal;;
     modify_object uploadState (push_part part);;
     let completedParts := completedParts + 1 in
     let progress := round_percent completedParts totalParts in
     modify_object uploadState (set_progress progress);;
     state <- read_object uploadState;;
     databaseService.saveUploadState state;;
     UploadHandler.broadcastProgress contentId progress completedParts state;;
     ret completedParts)
    (fun err =>
       UploadHandler.handleUploadError contentId err;;
       throw err).

(** The parts of a list the driver has to upload. *)
Definition outstanding (uploaded pns : list Z) : list Z :=
  filter (fun p => has uploaded p = false) pns.

(** The progress values of the loop started with counter [c]. *)
Definition progress_from (total c : Z) (m : nat) : list Z :=
  (fun i => round_percent (c + i) total) <$> seqZ 1 (Z.of_nat m).

Definition not_progress (e : Event) : Prop :=
  match e with
  | Broadcast (UPLOAD_PROGRESS _ _ _ _) => False
  | _ => True
  end.

(** The client keeps its acceleration endpoint. *)
Definition endpoint_kept (w w' : World) : Prop :=
  accelerationEndpoint w' = accelerationEndpoint w.

(** The broadcast messages of a trace, log records left out. *)
Definition messages_of (evs : list Event) : list OutMsg :=
  omap (fun e => match e with
                 | Broadcast (LOG _ _ _) => None
                 | Broadcast m => Some m
                 | _ => None
                 end) evs.

(** ** The percentage in the standard library's binary64

    The quotient and the product of [round_percent] in the specification
    of IEEE 754 binary64 of the standard library, to compare [fl] with. *)
Definition binary64_of_Z (n : Z) : spec_float :=
  binary_normalize 53 1024 n 0 false.

Definition binary64_percent (completedParts totalParts : Z) : spec_float :=
  SFmul 53 1024
    (SFdiv 53 1024 (binary64_of_Z completedParts) (binary64_of_Z totalParts))
    (binary64_of_Z 100).

(** The rational a finite non-negative double denotes. *)
Definition binary64_value (f : spec_float) : option Q :=
  match f with
  | S754_zero _ => Some 0%Q
  | S754_finite false m e => Some (inject_Z (Zpos m) * 2 ^ e)%Q
  | _ => None
  end.

Definition agrees_with_binary64 (completedParts totalParts : Z) : bool :=
  match binary64_value (binary64_percent completedParts totalParts) with
  | Some v =>
      Qeq_bool v
        (fl (fl (inject_Z completedParts / inject_Z totalParts) * 100))
  | None => false
  end.

(** ** Further observations *)

(** The events of a PAUSE_UPLOAD handled while a request is pending. *)
Definition pause_noise (e : Event) : bool :=
  match e with
  | Broadcast (LOG (LogSaving _) _ _) => true
  | Broadcast (LOG (LogSaved _) _ _) => true
  | Broadcast (UPLOAD_PAUSED _) => true
  | _ => false
  end.

(** The requests issued, in order. *)
Definition requests_begun (evs : list Event) : list Request :=
  omap (fun e => match e with FetchBegin r => Some r | _ => None end) evs.

(** The delays of the timer sleeps, in order. *)
Definition sleeps_of (evs : list Event) : list Z :=
  omap (fun e => match e with Sleep d => Some d | _ => None end) evs.

(** The part numbers and sizes of the CHUNK_UPLOADED messages, in order. *)
Definition uploaded_chunks (evs : list Event) : list (Z * Z) :=
  omap (fun e => match e with
                 | Broadcast (CHUNK_UPLOADED _ p n) => Some (p, n)
                 | _ => None
                 end) evs.

(** The size of the chunk the loop of [uploadParts] cuts for a part. *)
Definition chunk_size (file : File) (partSize partNumber : Z) : Z :=
  let start := (partNumber - 1) * partSize in
  let end_ := Z.min (start + partSize) (file_size file) in
  blob_size (slice file start end_).

Definition not_chunk (e : Event) : Prop :=
  match e with
  | Broadcast (CHUNK_UPLOADED _ _ _) => False
  | _ => True
  end.

(** What an event predicate must admit to hold of every event of the
    client's requests: the events of an interleaved PAUSE_UPLOAD, the timer
    sleeps and the brackets of the requests in [okR]. *)
Record event_laws (P : Event -> Prop) (okR : Request -> Prop) : Prop := {
  el_noise : forall e, pause_noise e = true -> P e;
  el_sleep : forall d, P (Sleep d);
  el_request : forall req, okR req -> P (FetchBegin req) /\ P (FetchEnd req)
}.

(** The worlds differ at most by state objects allocated in between. *)
Definition objects_added (w w' : World) : Prop :=
  uploadsStore w' = uploadsStore w /\ chunksStore w' = chunksStore w
  /\ activeUploads w' = activeUploads w /\ aborted w' = aborted w
  /\ nextController w' = nextController w
  /\ accelerationEndpoint w' = accelerationEndpoint w
  /\ network w' = network w /\ uuids w' = uuids w /\ clock w' = clock w
  /\ (nextObject w <= nextObject w')%nat
  /\ (forall r, (r < nextObject w)%nat -> heap w' r = heap w r).

(** The upload of the record is in the registry of active uploads. *)
Definition already_active (w : World) (s : UploadState) : Prop :=
  exists contentId,
    truthy (st_contentId s) = Some contentId
    /\ is_Some (activeUploads w !! contentId).

(** The answer of GET_ACTIVE_UPLOADS for one record. *)
Definition status_report (s : UploadState) : list Event :=
  if bool_decide (st_status s = in_progress)
     || bool_decide (st_status s = paused)
  then match st_contentId s with
       | Some contentId => [Broadcast (UPLOAD_STATUS contentId (st_status s))]
       | None => []
       end
  else [].

(** The characters of a string. *)
Definition chars (s : string) : list ascii := String.list_ascii_of_string s.

(** ** The retry schedule of a part *)

(** [retry_schedule k w evs r w' m]: the attempts of one part, numbered
    from [k] and started in [w], leave the trace [evs], the outcome [r] and
    the world [w'] after [m] retries. A retry follows an attempt that
    failed with a retryable error other than an abort: RETRYING_CHUNK
    announces the number [k] of the failed attempt, the message of its
    error and the delay [backoff k], the timer runs for that delay, and
    attempt [k + 1] starts. The outcome is that of the last attempt. *)
Inductive retry_schedule (contentId key uploadId : string) (partNumber : Z)
    (chunk : Blob) (abortSignal : nat)
    : Z -> World -> list Event -> Result UploadPart -> World -> nat -> Prop :=
  | schedule_last (k : Z) (w : World) :
      retry_schedule contentId key uploadId partNumber chunk abortSignal k w
        (events_of (attempt contentId key uploadId partNumber chunk
                      abortSignal w))
        (result_of (attempt contentId key uploadId partNumber chunk
                      abortSignal w))
        (world_of (attempt contentId key uploadId partNumber chunk
                     abortSignal w)) 0
  | schedule_retry (k : Z) (w : World) (e : Err) (evs : list Event)
      (r : Result UploadPart) (w' : World) (m : nat) :
      result_of (attempt contentId key uploadId partNumber chunk
                   abortSignal w) = Throw e ->
      isRetryableError e = true ->
      isAbortError e = false ->
      retry_schedule contentId key uploadId partNumber chunk abortSignal
        (k + 1)
        (with_clock
           (clock (world_of (attempt contentId key uploadId partNumber chunk
                               abortSignal w)) + backoff k)
           (world_of (attempt contentId key uploadId partNumber chunk
                        abortSignal w)))
        evs r w' m ->
      retry_schedule contentId key uploadId partNumber chunk abortSignal k w
        (events_of (attempt contentId key uploadId partNumber chunk
                      abortSignal w)
         ++ Broadcast (RETRYING_CHUNK contentId partNumber k
                         (Z.of_nat CONFIG.RETRY.ATTEMPTS) (errorMessage e)
                         (backoff k))
            :: Sleep (backoff k) :: evs)
        r w' (S m).

(** A sleep of the fixed delay of the client's own retries, or of the
    delay announced by one of the first [m] retries of the part. *)
Definition scheduled_sleep (m : nat) (d : Z) : Prop :=
  d = CONFIG.RETRY.DELAY
  \/ exists k : Z, 1 <= k <= Z.of_nat m /\ d = backoff k.

(** ** Runs of the part driver *)







(** ** Hosts in URLs *)

(** [s] starts with a host of the form [.s3.<region>.amazonaws.com], with
    a non-empty region without dots. *)
Definition host_at (s : string) : Prop :=
  exists region rest : string,
    s = ".s3." +:+ region +:+ ".amazonaws.com" +:+ rest
    /\ region <> "" /\ "."%char ∉ chars region.

(** No such host starts anywhere in [url]. *)
Definition host_free (url : string) : Prop :=
  forall before s : string, url = before +:+ s -> ~ host_at s.

(** In [before ++ s], no such host starts within [before]. *)
Definition no_host_before (before s : string) : Prop :=
  forall b1 b2 : string,
    before = b1 +:+ b2 -> b2 <> "" -> ~ host_at (b2 +:+ s).

(** ** Concrete environments *)

Module Examples.

Definition blank : UploadState :=
  {| st_id := ""; st_file := {| file_name := ""; file_size := 0 |};
     st_fileName := ""; st_fileSize := 0; st_uploadId := ""; st_key := "";
     st_progress := 0; st_status := pending; st_parts := [];
     st_startTime := 0; st_error := None; st_fileUrl := None;
     st_contentId := None; st_partSize := 0;
     st_maxConcurrentUploads := 0 |}.

(** A worker that has just started: empty stores, empty registry, no
    acceleration endpoint; [script] is what the network will do. *)
Definition fresh (script : list FetchOutcome) : World :=
  {| uploadsStore := ∅; chunksStore := ∅; activeUploads := ∅;
     heap := fun _ => blank; nextObject := 0%nat;
     aborted := fun _ => false; nextController := 0%nat;
     accelerationEndpoint := None; network := script;
     uuids := ["local-uuid"]; clock := 0 |}.

Definition json (j : Json) : FetchOutcome :=
  Responds {| resp_ok := true; resp_ETag := None; resp_json := j |}.

Definition put_ok (eTag : string) : FetchOutcome :=
  Responds {| resp_ok := true; resp_ETag := Some eTag; resp_json := JNone |}.

Definition status_503 : FetchOutcome :=
  Responds {| resp_ok := false; resp_ETag := None; resp_json := JNone |}.

Definition signed (partNumber : Z) : FetchOutcome :=
  json (JSignedUrl partNumber
          ("https://media.s3.eu-west-1.amazonaws.com/k1?partNumber="
           +:+ show partNumber)).

(** A 40-byte file cut into four parts of 10 bytes. *)
Definition tiny : File := {| file_name := "clip.mp4"; file_size := 40 |}.
Definition four_parts : option ChunkConfig :=
  Some {| cc_size := 10; cc_concurrent := 5 |}.

Definition start_tiny : UploadMessage :=
  START_UPLOAD tiny 7 "video/mp4" four_parts.

Definition initiated : FetchOutcome :=
  json (JInitiate "u1" "k1" "srv-1" None).

(** A persisted record of the upload of [tiny] with the given status and
    acknowledged parts. *)
Definition stored (status : UploadStatus) (parts : list UploadPart)
    : UploadState :=
  {| st_id := "srv-1"; st_file := tiny; st_fileName := "clip.mp4";
     st_fileSize := 40; st_uploadId := "u1"; st_key := "k1";
     st_progress := 0; st_status := status; st_parts := parts;
     st_startTime := 0; st_error := None; st_fileUrl := None;
     st_contentId := Some "srv-1"; st_partSize := 10;
     st_maxConcurrentUploads := 5 |}.

Definition part (n : Z) : UploadPart :=
  {| p_partNumber := n; p_eTag := "etag"; p_size := Some 10 |}.

(** The worker holding one persisted record and nothing in memory. *)
Definition at_rest (record : UploadState) (script : list FetchOutcome)
    : World :=
  with_uploadsStore (fun m => <["srv-1" := record]> m) (fresh script).

(** The worker while the upload of [tiny] is registered as active. *)
Definition active (record : UploadState) (script : list FetchOutcome)
    : World :=
  with_activeUploads
    (fun m => <["srv-1" := {| au_state := 0%nat; au_controller := 0%nat |}]> m)
    (with_heap (fun _ => record) 1%nat
       (with_aborted (fun _ => false) 1%nat (at_rest record script))).

Definition chunk1 : UploadChunk :=
  {| ch_id := "c1"; ch_uploadId := "u1"; ch_partNumber := 1;
     ch_size := 10; ch_attempts := 0 |}.

(** An initiate response that grants acceleration. *)
Definition accelerated (uploadId key contentId : string) : FetchOutcome :=
  json (JInitiate uploadId key contentId
          (Some CONFIG.S3_TRANSFER_ACCELERATION.DEFAULT_ENDPOINT)).

(** A file of 1 GiB cut into two parts of 512 MiB. *)
Definition big : File :=
  {| file_name := "film.mp4"; file_size := 1024 * 1024 * 1024 |}.

Definition start_big : UploadMessage :=
  START_UPLOAD big 7200 "video/mp4"
    (Some {| cc_size := 512 * 1024 * 1024; cc_concurrent := 5 |}).

(** A virtual-hosted URL of a bucket whose name ends in [.s3]. *)
Definition dotted_bucket_url : string :=
  "https://media.s3.s3.eu-west-1.amazonaws.com/k1?partNumber=1".

End Examples.

(** * Properties *)

(** ** Traces of the operations

    A trace property [Q] that holds of the empty trace, is closed under
    concatenation, and holds of the single events and request brackets an
    operation can produce, holds of the whole trace of the operation. *)

Lemma handlePause_routine cid w :
  Forall (fun e => routine e = true) (events_of (handlePause cid w)).
Proof.
  unfold handlePause, bind, get_world. simpl.
  destruct (activeUploads w !! cid); simpl; repeat constructor.
Qed.

Lemma settle_routine abortSignal script w :
  Forall (fun e => routine e = true) (events_of (settle abortSignal script w)).
Proof.
  revert w. induction script as [|o script IH]; intros w; simpl.
  - constructor.
  - destruct o as [r| | |cid]; simpl; try constructor.
    pose proof (handlePause_routine cid (with_network script w)) as Hp.
    destruct (handlePause cid (with_network script w)) as [[r1 w1] e1].
    simpl in Hp. destruct (signal_aborted abortSignal w1); simpl; [exact Hp|].
    specialize (IH w1). destruct (settle abortSignal script w1) as [[r2 w2] e2].
    simpl in *. apply Forall_app; split; assumption.
Qed.

Create HintDb produces.

Section Produces.
Context {Q : list Event -> Prop} {okE : Event -> Prop}
  {okR : Request -> Prop} (L : trace_laws Q okE okR).

Let Q_nil := law_nil _ _ _ L.
Let Q_app := law_app _ _ _ L.
Let Q_emit := law_emit _ _ _ L.
Let Q_fetch := law_fetch _ _ _ L.
Let okE_routine := law_routine _ _ _ L.
Let okR_plain := law_plain _ _ _ L.

Local Abbreviation produces := (produces Q).

Lemma produces_ret {A} (a : A) : produces (ret a).
Proof. intros w. exact Q_nil. Qed.

Lemma produces_throw {A} (e : Err) : produces (@throw A e).
Proof. intros w. exact Q_nil. Qed.

Lemma produces_bind {A B} (m : M A) (k : A -> M B) :
  produces m -> (forall a, produces (k a)) -> produces (bind m k).
Proof.
  intros Hm Hk w. unfold bind. specialize (Hm w).
  destruct (m w) as [[[a|e] w1] e1]; simpl in *; auto.
  specialize (Hk a w1). destruct (k a w1) as [[r w2] e2]; simpl in *. auto.
Qed.

Lemma produces_try_catch {A} (m : M A) (h : Err -> M A) :
  produces m -> (forall e, produces (h e)) -> produces (try_catch m h).
Proof.
  intros Hm Hh w. unfold try_catch. specialize (Hm w).
  destruct (m w) as [[[a|e] w1] e1]; simpl in *; auto.
  specialize (Hh e w1). destruct (h e w1) as [[r w2] e2]; simpl in *. auto.
Qed.

Lemma produces_get_world : produces get_world.
Proof. intros w. exact Q_nil. Qed.

Lemma produces_update_world f : produces (update_world f).
Proof. intros w. exact Q_nil. Qed.

Lemma produces_emit e : okE e -> produces (emit e).
Proof. intros He w. apply Q_emit, He. Qed.

Lemma produces_broadcast m : okE (Broadcast m) -> produces (broadcast m).
Proof. apply produces_emit. Qed.

Lemma produces_sleep d : produces (sleep d).
Proof.
  unfold sleep. apply produces_bind.
  - apply produces_emit, okE_routine. reflexivity.
  - intros _. apply produces_update_world.
Qed.

Lemma produces_now : produces now.
Proof.
  unfold now. apply produces_bind; [apply produces_get_world|].
  intros w. apply produces_ret.
Qed.

Lemma produces_randomUUID : produces randomUUID.
Proof. intros w. unfold randomUUID. destruct (uuids w); exact Q_nil. Qed.

Lemma produces_new_object u : produces (new_object u).
Proof. intros w. exact Q_nil. Qed.

Lemma produces_read_object r : produces (read_object r).
Proof. intros w. exact Q_nil. Qed.

Lemma produces_modify_object r f : produces (modify_object r f).
Proof. intros w. exact Q_nil. Qed.

Lemma produces_newAbortController : produces newAbortController.
Proof. intros w. exact Q_nil. Qed.

Lemma produces_abort c : produces (abort c).
Proof. intros w. exact Q_nil. Qed.

Hint Resolve produces_ret produces_throw produces_get_world
  produces_update_world produces_sleep produces_now produces_randomUUID
  produces_new_object produces_read_object produces_modify_object
  produces_newAbortController produces_abort : produces.

Ltac routine_event := apply produces_broadcast, okE_routine; reflexivity.

Ltac produces_auto :=
  repeat first
    [ progress eauto 2 with produces
    | apply produces_bind; [|intros ?]
    | apply produces_try_catch; [|intros ?]
    | routine_event
    | match goal with
      | |- produces (match ?x with _ => _ end) => destruct x
      | |- produces (if ?x then _ else _) => destruct x
      end ].

Lemma produces_broadcastLog t l c :
  okE (Broadcast (LOG t l c)) -> produces (broadcastLog t l c).
Proof. apply produces_broadcast. Qed.

Lemma produces_saveUploadState state :
  produces (databaseService.saveUploadState state).
Proof. unfold databaseService.saveUploadState, broadcastLog. produces_auto. Qed.

Lemma produces_loadUploadState id :
  produces (databaseService.loadUploadState id).
Proof. unfold databaseService.loadUploadState, broadcastLog. produces_auto. Qed.

Lemma produces_deleteUploadState id :
  produces (databaseService.deleteUploadState id).
Proof. unfold databaseService.deleteUploadState. produces_auto. Qed.

Lemma produces_deleteChunks id :
  produces (databaseService.deleteChunks id).
Proof. unfold databaseService.deleteChunks. produces_auto. Qed.

Hint Resolve produces_saveUploadState produces_loadUploadState
  produces_deleteUploadState produces_deleteChunks : produces.

Lemma produces_fetch req abortSignal :
  okR req -> produces (fetch req abortSignal).
Proof.
  intros Hr w. unfold fetch.
  destruct (signal_aborted abortSignal w); [exact Q_nil|].
  pose proof (settle_routine abortSignal (network w) w) as Hs.
  destruct (settle abortSignal (network w) w) as [[r w1] e1].
  simpl in *. apply Q_fetch; assumption.
Qed.

Lemma produces_fetchWithTimeout req abortSignal :
  okR req -> produces (ApiClient.fetchWithTimeout req abortSignal).
Proof.
  intros Hr. unfold ApiClient.fetchWithTimeout.
  apply produces_try_catch; [apply produces_fetch, Hr|].
  intros e. produces_auto.
Qed.

Lemma produces_fetchWithRetry req retries abortSignal :
  okR req -> produces (ApiClient.fetchWithRetry req retries abortSignal).
Proof.
  intros Hr. induction retries as [|n IH]; simpl;
    (apply produces_try_catch; [apply produces_fetchWithTimeout, Hr|]);
    intros e; produces_auto.
Qed.

Lemma produces_acceleration_on : produces ApiClient.acceleration_on.
Proof. unfold ApiClient.acceleration_on. produces_auto. Qed.

Hint Resolve produces_acceleration_on : produces.

Lemma produces_initiateMultipartUpload file d t :
  produces (ApiClient.initiateMultipartUpload file d t).
Proof.
  unfold ApiClient.initiateMultipartUpload.
  apply produces_bind; [apply produces_fetchWithRetry, okR_plain; reflexivity|].
  intros r. produces_auto.
Qed.

Lemma produces_completeMultipartUpload k u c ps :
  produces (ApiClient.completeMultipartUpload k u c ps).
Proof.
  unfold ApiClient.completeMultipartUpload.
  apply produces_bind; [produces_auto|]. intros a.
  apply produces_bind; [apply produces_fetchWithRetry, okR_plain; reflexivity|].
  intros r. produces_auto.
Qed.

Lemma produces_cancelUpload k u c :
  produces (ApiClient.cancelUpload k u c).
Proof.
  unfold ApiClient.cancelUpload.
  apply produces_bind; [produces_auto|]. intros a.
  apply produces_bind; [apply produces_fetchWithRetry, okR_plain; reflexivity|].
  intros r. produces_auto.
Qed.

Lemma produces_listUploadedParts k u :
  produces (ApiClient.listUploadedParts k u).
Proof.
  unfold ApiClient.listUploadedParts.
  apply produces_bind; [apply produces_fetchWithRetry, okR_plain; reflexivity|].
  intros r. produces_auto.
Qed.

Lemma produces_getSignedUrl pn u k :
  (forall a, okR (ReqSignedUrl pn u k a)) ->
  produces (ApiClient.getSignedUrl pn u k).
Proof.
  intros Hr. unfold ApiClient.getSignedUrl.
  apply produces_bind; [produces_auto|]. intros a.
  apply produces_bind; [apply produces_fetchWithRetry, Hr|].
  intros r. produces_auto.
Qed.

Lemma produces_api_uploadPart k u pn chunk sig :
  (forall a, okR (ReqSignedUrl pn u k a)) ->
  (forall url n, okR (ReqPut url n)) ->
  produces (ApiClient.uploadPart k u pn chunk sig).
Proof.
  intros Hr Hput. unfold ApiClient.uploadPart.
  apply produces_bind; [apply produces_getSignedUrl, Hr|]. intros url.
  apply produces_bind; [produces_auto|]. intros w.
  apply produces_bind; [produces_auto|]. intros uploadUrl.
  apply produces_bind; [apply produces_fetchWithRetry, Hput|].
  intros r. produces_auto.
Qed.

Hint Resolve produces_initiateMultipartUpload
  produces_completeMultipartUpload produces_cancelUpload
  produces_listUploadedParts : produces.

Lemma produces_handlePause cid : produces (handlePause cid).
Proof. unfold handlePause. produces_auto. Qed.

Lemma produces_handleUploadError cid e :
  produces (UploadHandler.handleUploadError cid e).
Proof. unfold UploadHandler.handleUploadError. produces_auto. Qed.

Lemma produces_getUploadedParts st :
  produces (UploadHandler.getUploadedParts st).
Proof. unfold UploadHandler.getUploadedParts, broadcastLog. produces_auto. Qed.

Lemma produces_completeUpload r :
  (forall c url d n, okE (Broadcast (UPLOAD_COMPLETE c url d n))) ->
  produces (UploadHandler.completeUpload r).
Proof.
  intros Hc. unfold UploadHandler.completeUpload, broadcastLog.
  produces_auto; apply produces_broadcast, Hc.
Qed.

Lemma produces_uploadPart_from remaining cid k u pn chunk sig :
  (forall a, okR (ReqSignedUrl pn u k a)) ->
  (forall url n, okR (ReqPut url n)) ->
  (forall n m msg d, okE (Broadcast (RETRYING_CHUNK cid pn n m msg d))) ->
  produces (UploadHandler.uploadPart_from remaining cid k u pn chunk sig).
Proof.
  intros Hr Hput He. induction remaining as [|n IH]; simpl.
  - apply produces_try_catch.
    + apply produces_bind; [apply produces_api_uploadPart; auto|].
      intros p. produces_auto.
    + intros e. produces_auto.
  - apply produces_try_catch.
    + apply produces_bind; [apply produces_api_uploadPart; auto|].
      intros p. produces_auto.
    + intros e. destruct (isRetryableError e && negb (isAbortError e)); [|produces_auto].
      apply produces_bind; [apply produces_broadcast, He|]. intros _.
      apply produces_bind; [apply produces_sleep|]. intros _. exact IH.
Qed.

Hint Resolve produces_handlePause produces_handleUploadError
  produces_getUploadedParts : produces.

Lemma produces_partsLoop r sig file k u cid partSize total uploaded pns c :
  (forall p a, p ∈ pns -> has uploaded p = false -> okR (ReqSignedUrl p u k a)) ->
  (forall url n, okR (ReqPut url n)) ->
  (forall p n m msg d, p ∈ pns -> has uploaded p = false ->
      okE (Broadcast (RETRYING_CHUNK cid p n m msg d))) ->
  (forall p, p ∈ pns -> has uploaded p = true ->
      okE (Broadcast (LOG (LogSkipping p) info None))) ->
  (forall x y z, okE (Broadcast (UPLOAD_PROGRESS cid x y z))) ->
  produces (UploadHandler.partsLoop r sig file k u cid partSize total uploaded pns c).
Proof.
  intros Hr Hput He Hs Hp. revert c.
  induction pns as [|p pns IH]; intros c; simpl; [apply produces_ret|].
  assert (IH' : forall c', produces
    (UploadHandler.partsLoop r sig file k u cid partSize total uploaded pns c')).
  { apply IH; intros; first [apply Hr | apply He | apply Hs]; auto;
      apply elem_of_cons; right; assumption. }
  destruct (has uploaded p) eqn:Hh.
  - apply produces_bind; [|intros _; apply IH'].
    apply produces_broadcastLog, Hs; [apply elem_of_cons; left; reflexivity|exact Hh].
  - apply produces_bind; [|intros c'; apply IH'].
    apply produces_try_catch.
    + apply produces_bind.
      * apply produces_uploadPart_from.
        -- intros a. apply Hr; [apply elem_of_cons; left; reflexivity|exact Hh].
        -- exact Hput.
        -- intros. apply He; [apply elem_of_cons; left; reflexivity|exact Hh].
      * intros part. unfold UploadHandler.broadcastProgress.
        apply produces_bind; [produces_auto|]. intros _.
        apply produces_bind; [produces_auto|]. intros _.
        apply produces_bind; [produces_auto|]. intros st.
        apply produces_bind; [produces_auto|]. intros _.
        apply produces_bind; [apply produces_broadcast, Hp|]. intros _.
        apply produces_ret.
    + intros e. produces_auto.
Qed.
End Produces.

(** ** PAUSE_UPLOAD and CANCEL_UPLOAD for an upload that is not active *)

(** C10. When [contentId] is absent from [activeUploads], [handlePause] and
    [handleCancel] return at once: the world (abort controllers, stores,
    registry, network script) is unchanged and nothing is broadcast or
    requested. *)
Theorem C10_inactive_pause_cancel_noop (contentId : string) (w : World) :
  activeUploads w !! contentId = None ->
  UploadHandler.handlePause contentId w = (Ok tt, w, [])
  /\ UploadHandler.handleCancel contentId w = (Ok tt, w, []).
Proof.
  intros Hnone.
  unfold UploadHandler.handlePause, handlePause, UploadHandler.handleCancel,
    bind, get_world, ret.
  rewrite Hnone. split; reflexivity.
Qed.

(** C10 on a worker that holds a paused record and no active upload. *)
Lemma C10_inactive_witness :
  activeUploads (Examples.at_rest (Examples.stored paused []) []) !! "srv-1"
  = None
  /\ UploadHandler.handlePause "srv-1"
    (Examples.at_rest (Examples.stored paused []) [])
  = (Ok tt, Examples.at_rest (Examples.stored paused []) [], [])
  /\ UploadHandler.handleCancel "srv-1"
    (Examples.at_rest (Examples.stored paused []) [])
  = (Ok tt, Examples.at_rest (Examples.stored paused []) [], []).
Proof.
  split; [reflexivity|].
  apply (C10_inactive_pause_cancel_noop "srv-1"
           (Examples.at_rest (Examples.stored paused []) [])).
  reflexivity.
Defined.

(** ** RESUME_UPLOAD *)

(** C5, where it fails. A persisted upload in status [error] is not
    recovered by RESUME_UPLOAD: the record keeps status [error], the
    upload is not registered as active, and no request is issued, although
    the server would have answered. *)
Lemma C5_error_not_resumed :
  let w := Examples.at_rest (Examples.stored error [Examples.part 1])
             [Examples.json (JParts [Examples.part 1])] in
  let run := UploadHandler.handleResume "srv-1" w in
  st_status <$> (uploadsStore (world_of run) !! "srv-1") = Some error
  /\ activeUploads (world_of run) !! "srv-1" = None
  /\ network (world_of run) = network w
  /\ attempted_parts (events_of run) = []
  /\ progress_values "srv-1" (events_of run) = [].
Proof. vm_compute. repeat split; reflexivity. Qed.

(** C5, as the code has it. RESUME_UPLOAD acts on paused records only. For a record
    whose status is [error], or any status other than [paused], and for an
    absent record, [handleResume] logs that no paused upload was found and
    leaves the stores, the registry and the network untouched. *)
Theorem C5_resume_only_from_paused (contentId : string) (w : World) :
  (forall state, uploadsStore w !! contentId = Some state ->
                 st_status state <> paused) ->
  UploadHandler.handleResume contentId w
  = (Ok tt, w, resume_refused contentId).
Proof.
  intros Hstatus.
  unfold UploadHandler.handleResume, try_catch, bind,
    databaseService.loadUploadState, broadcastLog, broadcast, emit,
    get_world, ret. simpl.
  destruct (uploadsStore w !! contentId) as [state|] eqn:Hlookup; simpl.
  - rewrite bool_decide_eq_false_2 by (apply Hstatus; reflexivity).
    reflexivity.
  - reflexivity.
Qed.

(** C5 on a worker that holds a record in status [error]. *)
Lemma C5_resume_witness :
  (forall state,
      uploadsStore (Examples.at_rest (Examples.stored error []) [])
        !! "srv-1" = Some state ->
      st_status state <> paused)
  /\ UploadHandler.handleResume "srv-1"
       (Examples.at_rest (Examples.stored error []) [])
     = (Ok tt, Examples.at_rest (Examples.stored error []) [],
        resume_refused "srv-1").
Proof.
  assert (H : forall state,
      uploadsStore (Examples.at_rest (Examples.stored error []) [])
        !! "srv-1" = Some state ->
      st_status state <> paused).
  { intros state Hs. vm_compute in Hs. injection Hs as <-. discriminate. }
  split; [exact H|].
  apply (C5_resume_only_from_paused "srv-1"
           (Examples.at_rest (Examples.stored error []) []) H).
Defined.

(** ** World relations preserved by the client *)

Section Preserves.
Context {R : World -> World -> Prop} (L : world_laws R).

Let R_refl := wl_refl _ L.
Let R_trans := wl_trans _ L.
Let R_clock := wl_clock _ L.
Let R_settle := wl_settle _ L.

Local Abbreviation preserves := (preserves R).

Lemma preserves_ret {A} (a : A) : preserves (ret a).
Proof. intros w. apply R_refl. Qed.

Lemma preserves_throw {A} (e : Err) : preserves (@throw A e).
Proof. intros w. apply R_refl. Qed.

Lemma preserves_bind {A B} (m : M A) (k : A -> M B) :
  preserves m -> (forall a, preserves (k a)) -> preserves (bind m k).
Proof.
  intros Hm Hk w. unfold bind. specialize (Hm w).
  destruct (m w) as [[[a|e] w1] e1]; simpl in *; auto.
  specialize (Hk a w1). destruct (k a w1) as [[r w2] e2]; simpl in *.
  eapply R_trans; eassumption.
Qed.

Lemma preserves_try_catch {A} (m : M A) (h : Err -> M A) :
  preserves m -> (forall e, preserves (h e)) -> preserves (try_catch m h).
Proof.
  intros Hm Hh w. unfold try_catch. specialize (Hm w).
  destruct (m w) as [[[a|e] w1] e1]; simpl in *; auto.
  specialize (Hh e w1). destruct (h e w1) as [[r w2] e2]; simpl in *.
  eapply R_trans; eassumption.
Qed.

Lemma preserves_sleep d : preserves (sleep d).
Proof. intros w. apply R_clock. Qed.

Lemma preserves_fetch req abortSignal : preserves (fetch req abortSignal).
Proof.
  intros w. unfold fetch.
  destruct (signal_aborted abortSignal w); [apply R_refl|].
  pose proof (R_settle abortSignal w) as Hs.
  destruct (settle abortSignal (network w) w) as [[r w1] e1]. exact Hs.
Qed.

Lemma preserves_fetchWithTimeout req abortSignal :
  preserves (ApiClient.fetchWithTimeout req abortSignal).
Proof.
  apply preserves_try_catch; [apply preserves_fetch|].
  intros e. destruct (isAbortError e); apply preserves_throw.
Qed.

Lemma preserves_fetchWithRetry req retries abortSignal :
  preserves (ApiClient.fetchWithRetry req retries abortSignal).
Proof.
  induction retries as [|n IH]; simpl;
    (apply preserves_try_catch; [apply preserves_fetchWithTimeout|]);
    intros e; [apply preserves_throw|].
  destruct (isRetryableError e); [|apply preserves_throw].
  apply preserves_bind; [apply preserves_sleep|]. intros _. exact IH.
Qed.

Lemma preserves_acceleration_on : preserves ApiClient.acceleration_on.
Proof. intros w. apply R_refl. Qed.


Lemma preserves_getSignedUrl partNumber uploadId key :
  preserves (ApiClient.getSignedUrl partNumber uploadId key).
Proof.
  unfold ApiClient.getSignedUrl.
  apply preserves_bind; [apply preserves_acceleration_on|]. intros a.
  apply preserves_bind; [apply preserves_fetchWithRetry|]. intros r.
  destruct (negb (resp_ok r)); [apply preserves_throw|].
  destruct (resp_json r); first [apply preserves_throw|apply preserves_ret].
Qed.
End Preserves.







Lemma lookup_foldl_delete {V} (ks : list string) (m : gmap string V) k :
  foldl (fun store primaryKey => delete primaryKey store) m ks !! k
  = if decide (k ∈ ks) then None else m !! k.
Proof.
  revert m. induction ks as [|k0 ks IH]; intros m; simpl.
  - reflexivity.
  - rewrite IH.
    destruct (decide (k ∈ ks)) as [Hin|Hnin],
             (decide (k ∈ k0 :: ks)) as [Hin'|Hnin']; try reflexivity.
    + exfalso. apply Hnin', elem_of_cons. right. exact Hin.
    + apply elem_of_cons in Hin' as [->|Hin']; [|contradiction].
      apply lookup_delete_eq.
    + apply lookup_delete_ne. intros ->. apply Hnin', elem_of_cons.
      left. reflexivity.
Qed.

Lemma elem_of_entries {V} (m : gmap string V) k v :
  (k, v) ∈ databaseService.entries m <-> m !! k = Some v.
Proof.
  unfold databaseService.entries. rewrite merge_sort_Permutation.
  apply elem_of_map_to_list.
Qed.

Lemma deleteChunks_purges uploadId (m : gmap string UploadChunk) :
  databaseService.index_getAll uploadId
    (foldl (fun store primaryKey => delete primaryKey store) m
       (databaseService.cursor_keys uploadId m)) = [].
Proof.
  unfold databaseService.index_getAll.
  set (m' := foldl _ m _).
  destruct (filter _ (snd <$> databaseService.entries m')) as [|c l] eqn:Hf;
    [reflexivity|].
  exfalso.
  assert (Hc : c ∈ filter (fun c => ch_uploadId c = uploadId)
                     (snd <$> databaseService.entries m')).
  { rewrite Hf. apply elem_of_cons; left; reflexivity. }
  apply list_elem_of_filter in Hc as [Hid Hc].
  apply list_elem_of_fmap in Hc as ([k c'] & -> & Hkc).
  apply elem_of_entries in Hkc. simpl in Hid.
  unfold m' in Hkc. rewrite lookup_foldl_delete in Hkc.
  destruct (decide (k ∈ databaseService.cursor_keys uploadId m)) as [|Hnin];
    [discriminate|].
  apply Hnin. unfold databaseService.cursor_keys.
  apply list_elem_of_fmap. exists (k, c'). split; [reflexivity|].
  apply list_elem_of_filter. split; [exact Hid|].
  apply elem_of_entries. exact Hkc.
Qed.



(** ** CANCEL_UPLOAD *)




(** ** Trace properties of the form "every event satisfies [P]" *)

Lemma forall_laws (P : Event -> Prop) :
  (forall e, routine e = true -> P e) ->
  (forall req, plain_request req = true ->
     P (FetchBegin req) /\ P (FetchEnd req)) ->
  trace_laws (Forall P) P (fun req => P (FetchBegin req) /\ P (FetchEnd req)).
Proof.
  intros Hroutine Hplain. constructor.
  - constructor.
  - intros a b Ha Hb. apply Forall_app. split; assumption.
  - intros e He. constructor; [exact He|constructor].
  - intros req noise [Hb He] Hn. constructor; [exact Hb|].
    apply Forall_app. split.
    + eapply Forall_impl; [exact Hn|]. exact Hroutine.
    + constructor; [exact He|constructor].
  - exact Hroutine.
  - exact Hplain.
Qed.

(** *** Retries of one part *)

Lemma not_retrying_laws :
  trace_laws (Forall not_retrying) not_retrying
    (fun req => not_retrying (FetchBegin req) /\ not_retrying (FetchEnd req)).
Proof.
  apply forall_laws.
  - intros [[]| | |]; simpl; try discriminate; auto.
  - intros req _. split; exact I.
Qed.

Lemma retries_of_quiet evs : Forall not_retrying evs -> retries_of evs = [].
Proof.
  induction 1 as [|e evs He _ IH]; [reflexivity|].
  destruct e as [[]| | |]; simpl in He; try exact IH. destruct He.
Qed.

Lemma sleeps_after_retry_quiet_app a b :
  Forall not_retrying a -> sleeps_after_retry b -> sleeps_after_retry (a ++ b).
Proof.
  induction 1 as [|e a He _ IH]; intros Hb; [exact Hb|].
  simpl. destruct e as [[]| | |]; simpl in *; auto. destruct He.
Qed.

Lemma retries_of_app a b : retries_of (a ++ b) = retries_of a ++ retries_of b.
Proof. apply omap_app. Qed.

Lemma retries_of_retrying c p a m msg d evs :
  retries_of (Broadcast (RETRYING_CHUNK c p a m msg d) :: evs)
  = (a, d) :: retries_of evs.
Proof. reflexivity. Qed.

Lemma uploadPart_from_unfold remaining cid key uid pn chunk sig :
  UploadHandler.uploadPart_from remaining cid key uid pn chunk sig =
  try_catch (attempt cid key uid pn chunk sig)
    (fun err =>
       match remaining with
       | S remaining' =>
           if isRetryableError err && negb (isAbortError err) then
             broadcast (RETRYING_CHUNK cid pn
                          (Z.of_nat (CONFIG.RETRY.ATTEMPTS - remaining) + 1)
                          (Z.of_nat CONFIG.RETRY.ATTEMPTS) (errorMessage err)
                          (Z.min (1000 * 2 ^ Z.of_nat (CONFIG.RETRY.ATTEMPTS - remaining)) 30000));;
             sleep (Z.min (1000 * 2 ^ Z.of_nat (CONFIG.RETRY.ATTEMPTS - remaining)) 30000);;
             UploadHandler.uploadPart_from remaining' cid key uid pn chunk sig
           else throw err
       | O => throw err
       end).
Proof. destruct remaining; reflexivity. Qed.

Lemma attempt_not_retrying cid key uid pn chunk sig :
  produces (Forall not_retrying) (attempt cid key uid pn chunk sig).
Proof.
  unfold attempt. apply (produces_bind not_retrying_laws).
  - apply (produces_api_uploadPart not_retrying_laws); intros; split; exact I.
  - intros p. apply (produces_bind not_retrying_laws).
    + apply (produces_broadcast not_retrying_laws). exact I.
    + intros _. apply (produces_ret not_retrying_laws).
Qed.

Lemma quiet_trace_retries evs :
  Forall not_retrying evs ->
  retries_of evs = [] /\ sleeps_after_retry evs.
Proof.
  intros H. split; [apply retries_of_quiet, H|].
  rewrite <- (app_nil_r evs).
  apply sleeps_after_retry_quiet_app; [exact H|exact I].
Qed.

Lemma announce_then_sleep {A} (m : OutMsg) (d : Z) (k : M A) w :
  (broadcast m;; sleep d;; k) w =
  match k (with_clock (clock w + d) w) with
  | (r, w', evs) => (r, w', Broadcast m :: Sleep d :: evs)
  end.
Proof.
  unfold bind, broadcast, sleep, emit, update_world, bind. simpl.
  destruct (k _) as [[r w'] evs]. reflexivity.
Qed.

(** ** Pointwise rules for runs *)

Lemma bind_run {A B} (m : M A) (k : A -> M B) w :
  bind m k w =
  match m w with
  | (Ok a, w1, e1) => match k a w1 with (r, w2, e2) => (r, w2, e1 ++ e2) end
  | (Throw e, w1, e1) => (Throw e, w1, e1)
  end.
Proof. reflexivity. Qed.

Lemma bind_events {A B} (m : M A) (k : A -> M B) w :
  events_of (bind m k w) =
  events_of (m w) ++
  match result_of (m w) with
  | Ok a => events_of (k a (world_of (m w)))
  | Throw _ => []
  end.
Proof.
  unfold bind, events_of, result_of, world_of.
  destruct (m w) as [[[a|e] w1] e1]; simpl.
  - destruct (k a w1) as [[r w2] e2]. reflexivity.
  - rewrite app_nil_r. reflexivity.
Qed.

Lemma bind_result {A B} (m : M A) (k : A -> M B) w :
  result_of (bind m k w) =
  match result_of (m w) with
  | Ok a => result_of (k a (world_of (m w)))
  | Throw e => Throw e
  end.
Proof.
  unfold bind, events_of, result_of, world_of.
  destruct (m w) as [[[a|e] w1] e1]; simpl; [|reflexivity].
  destruct (k a w1) as [[r w2] e2]. reflexivity.
Qed.

Lemma bind_world {A B} (m : M A) (k : A -> M B) w :
  world_of (bind m k w) =
  match result_of (m w) with
  | Ok a => world_of (k a (world_of (m w)))
  | Throw e => world_of (m w)
  end.
Proof.
  unfold bind, events_of, result_of, world_of.
  destruct (m w) as [[[a|e] w1] e1]; simpl; [|reflexivity].
  destruct (k a w1) as [[r w2] e2]. reflexivity.
Qed.

Lemma try_catch_events {A} (m : M A) (h : Err -> M A) w :
  events_of (try_catch m h w) =
  events_of (m w) ++
  match result_of (m w) with
  | Ok _ => []
  | Throw e => events_of (h e (world_of (m w)))
  end.
Proof.
  unfold try_catch, events_of, result_of, world_of.
  destruct (m w) as [[[a|e] w1] e1]; simpl.
  - rewrite app_nil_r. reflexivity.
  - destruct (h e w1) as [[r w2] e2]. reflexivity.
Qed.

Lemma try_catch_result {A} (m : M A) (h : Err -> M A) w :
  result_of (try_catch m h w) =
  match result_of (m w) with
  | Ok a => Ok a
  | Throw e => result_of (h e (world_of (m w)))
  end.
Proof.
  unfold try_catch, events_of, result_of, world_of.
  destruct (m w) as [[[a|e] w1] e1]; simpl; [reflexivity|].
  destruct (h e w1) as [[r w2] e2]. reflexivity.
Qed.

Lemma try_catch_world {A} (m : M A) (h : Err -> M A) w :
  world_of (try_catch m h w) =
  match result_of (m w) with
  | Ok a => world_of (m w)
  | Throw e => world_of (h e (world_of (m w)))
  end.
Proof.
  unfold try_catch, events_of, result_of, world_of.
  destruct (m w) as [[[a|e] w1] e1]; simpl; [reflexivity|].
  destruct (h e w1) as [[r w2] e2]. reflexivity.
Qed.

Lemma read_object_run r w : read_object r w = (Ok (heap w r), w, []).
Proof. reflexivity. Qed.

Lemma broadcastLog_run t l c w :
  broadcastLog t l c w = (Ok tt, w, [Broadcast (LOG t l c)]).
Proof. reflexivity. Qed.

(** *** The server's list as seen by the driver *)

Lemma getUploadedParts_result state w :
  result_of (UploadHandler.getUploadedParts state w)
  = Ok (listed_parts state w).
Proof.
  unfold UploadHandler.getUploadedParts, listed_parts.
  rewrite try_catch_result, bind_result.
  destruct (result_of (ApiClient.listUploadedParts _ _ w)); reflexivity.
Qed.

(** *** Skipped and attempted parts *)

Lemma marks_within_laws S T :
  trace_laws (Forall (marks_within S T)) (marks_within S T)
    (fun req => marks_within S T (FetchBegin req)
                /\ marks_within S T (FetchEnd req)).
Proof.
  apply forall_laws.
  - intros [[]| | |]; simpl; try discriminate; auto.
    destruct message; try discriminate; auto.
  - intros [] Hreq; try discriminate; split; exact I.
Qed.

Lemma skipped_parts_within S T evs p :
  Forall (marks_within S T) evs -> p ∈ skipped_parts evs -> S p.
Proof.
  intros Hall Hin. apply list_elem_of_omap in Hin as (e & He & Hp).
  rewrite Forall_forall in Hall. specialize (Hall e He).
  destruct e as [[]| | |]; try discriminate.
  destruct message; try discriminate. injection Hp as ->. exact Hall.
Qed.

Lemma attempted_parts_within S T evs p :
  Forall (marks_within S T) evs -> p ∈ attempted_parts evs -> T p.
Proof.
  intros Hall Hin. apply list_elem_of_omap in Hin as (e & He & Hp).
  rewrite Forall_forall in Hall. specialize (Hall e He).
  destruct e as [| |[]|]; try discriminate. injection Hp as ->. exact Hall.
Qed.

Lemma uploadParts_marks r sig w :
  let state := heap w r in
  let listed := p_partNumber <$> listed_parts state w in
  let total := ceil_div (file_size (st_file state)) (st_partSize state) in
  Forall (marks_within (fun p => (p ∈ listed) /\ 1 <= p <= total)
                       (fun p => (p ∉ listed) /\ 1 <= p <= total))
    (events_of (UploadHandler.uploadParts r sig w)).
Proof.
  intros state listed total.
  set (P := marks_within _ _).
  assert (L : trace_laws (Forall P) P
                (fun req => P (FetchBegin req) /\ P (FetchEnd req)))
    by apply marks_within_laws.
  unfold UploadHandler.uploadParts.
  rewrite bind_events. change (events_of (read_object r w)) with (@nil Event).
  change (result_of (read_object r w)) with (Ok state).
  change (world_of (read_object r w)) with w. rewrite app_nil_l.
  destruct (truthy (st_contentId state)) as [cid|]; [|constructor].
  rewrite bind_events. apply Forall_app. split.
  { repeat constructor. }
  change (result_of (broadcastLog _ _ _ w)) with (Ok tt).
  change (world_of (broadcastLog _ _ _ w)) with w.
  cbv iota.
  rewrite bind_events. apply Forall_app. split.
  { apply (produces_getUploadedParts L). }
  rewrite getUploadedParts_result.
  set (w1 := world_of (UploadHandler.getUploadedParts state w)).
  apply (produces_bind L).
  - apply (produces_partsLoop L).
    + intros p a Hin Hhas. split; [|exact I].
      apply elem_of_seqZ in Hin. split; [|lia].
      unfold has in Hhas. apply bool_decide_eq_false in Hhas. exact Hhas.
    + intros. split; exact I.
    + intros. exact I.
    + intros p Hin Hhas. apply elem_of_seqZ in Hin. split; [|lia].
      unfold has in Hhas. apply bool_decide_eq_true in Hhas. exact Hhas.
    + intros. exact I.
  - intros _. apply (produces_completeUpload L). intros. exact I.
Qed.

Lemma attempted_parts_app a b :
  attempted_parts (a ++ b) = attempted_parts a ++ attempted_parts b.
Proof. apply omap_app. Qed.

Lemma skipped_parts_app a b :
  skipped_parts (a ++ b) = skipped_parts a ++ skipped_parts b.
Proof. apply omap_app. Qed.

Lemma fetchWithRetry_begins req retries w :
  exists rest,
    events_of (ApiClient.fetchWithRetry req retries None w)
    = FetchBegin req :: rest.
Proof.
  assert (H : exists rest,
    events_of (ApiClient.fetchWithTimeout req None w) = FetchBegin req :: rest).
  { unfold ApiClient.fetchWithTimeout. rewrite try_catch_events.
    unfold fetch. cbn [signal_aborted].
    destruct (settle None (network w) w) as [[r w1] e1].
    eexists. reflexivity. }
  destruct H as [rest Hrest].
  destruct retries; simpl; rewrite try_catch_events, Hrest;
    eexists; reflexivity.
Qed.

Lemma getSignedUrl_attempts pn u k w :
  pn ∈ attempted_parts (events_of (ApiClient.getSignedUrl pn u k w)).
Proof.
  unfold ApiClient.getSignedUrl. rewrite bind_events.
  destruct (ApiClient.acceleration_on w) as [[[a|e] w1] e1] eqn:Hacc;
    [|discriminate].
  injection Hacc as _ <- <-.
  cbn [events_of result_of world_of fst snd]. rewrite app_nil_l.
  rewrite bind_events.
  destruct (fetchWithRetry_begins (ReqSignedUrl pn u k a)
              CONFIG.RETRY.ATTEMPTS w) as [rest ->].
  apply elem_of_cons. left. reflexivity.
Qed.

Lemma uploadPart_from_attempts remaining cid k u pn chunk sig w :
  pn ∈ attempted_parts
         (events_of (UploadHandler.uploadPart_from remaining cid k u pn chunk
                       sig w)).
Proof.
  rewrite uploadPart_from_unfold, try_catch_events, attempted_parts_app.
  apply elem_of_app. left.
  unfold attempt. rewrite bind_events, attempted_parts_app.
  apply elem_of_app. left.
  unfold ApiClient.uploadPart. rewrite bind_events, attempted_parts_app.
  apply elem_of_app. left. apply getSignedUrl_attempts.
Qed.

Lemma partsLoop_covers r sig file k u cid partSize total uploaded pns c w :
  result_of (UploadHandler.partsLoop r sig file k u cid partSize total
               uploaded pns c w) = Ok tt ->
  forall p, p ∈ pns ->
    (has uploaded p = true ->
       p ∈ skipped_parts (events_of
             (UploadHandler.partsLoop r sig file k u cid partSize total
                uploaded pns c w)))
    /\ (has uploaded p = false ->
       p ∈ attempted_parts (events_of
             (UploadHandler.partsLoop r sig file k u cid partSize total
                uploaded pns c w))).
Proof.
  revert c w. induction pns as [|q pns IH]; intros c w Hok p Hin.
  { apply elem_of_nil in Hin. destruct Hin. }
  cbn [UploadHandler.partsLoop] in *.
  destruct (has uploaded q) eqn:Hq.
  - rewrite bind_result in Hok. rewrite bind_events.
    cbn [result_of world_of broadcastLog broadcast emit fst snd] in *.
    rewrite skipped_parts_app, attempted_parts_app.
    apply elem_of_cons in Hin as [->|Hin].
    + split; [|congruence]. intros _. apply elem_of_app. left.
      apply elem_of_cons. left. reflexivity.
    + destruct (IH c w Hok p Hin) as [Hs Ha].
      split; intros Hh; apply elem_of_app; right; auto.
  - rewrite bind_result in Hok. rewrite bind_events.
    rewrite skipped_parts_app, attempted_parts_app.
    set (body := try_catch _ _) in *.
    destruct (result_of (body w)) as [c'|e] eqn:Hbody; [|discriminate].
    apply elem_of_cons in Hin as [->|Hin].
    + split; [congruence|]. intros _. apply elem_of_app. left.
      unfold body. rewrite try_catch_events, attempted_parts_app.
      apply elem_of_app. left.
      rewrite bind_events, attempted_parts_app. apply elem_of_app. left.
      apply uploadPart_from_attempts.
    + destruct (IH c' _ Hok p Hin) as [Hs Ha].
      split; intros Hh; apply elem_of_app; right; auto.
Qed.

(** C1, where it fails. The record of the upload lists parts 1 and 2 as
    acknowledged. When the server lists part 1 only, part 2 is uploaded
    again; when [listUploadedParts] fails, nothing is skipped and every
    part, 1 and 2 included, is uploaded again. *)
Lemma C1_local_parts_not_consulted :
  let record := Examples.stored in_progress [Examples.part 1; Examples.part 2] in
  let answered :=
    UploadHandler.uploadParts 0 0
      (Examples.active record
         [Examples.json (JParts [Examples.part 1]);
          Examples.signed 2; Examples.put_ok "e2";
          Examples.signed 3; Examples.put_ok "e3";
          Examples.signed 4; Examples.put_ok "e4";
          Examples.json (JComplete "https://media/k1")]) in
  let failed :=
    UploadHandler.uploadParts 0 0
      (Examples.active record
         [Examples.status_503;
          Examples.signed 1; Examples.put_ok "e1";
          Examples.signed 2; Examples.put_ok "e2";
          Examples.signed 3; Examples.put_ok "e3";
          Examples.signed 4; Examples.put_ok "e4";
          Examples.json (JComplete "https://media/k1")]) in
  p_partNumber <$> st_parts record = [1; 2]
  /\ skipped_parts (events_of answered) = [1]
  /\ attempted_parts (events_of answered) = [2; 3; 4]
  /\ skipped_parts (events_of failed) = []
  /\ attempted_parts (events_of failed) = [1; 2; 3; 4].
Proof. vm_compute. repeat split; reflexivity. Qed.

(** C1, as the code has it. The parts the driver skips are exactly the parts listed
    by the server: a skip log names a part only if the answer of
    [listUploadedParts] contains it, a signed URL is requested only for
    parts in [1, totalParts] the answer does not contain, and a run that
    returns normally has skipped every listed part and attempted every
    other part of [1, totalParts]. The [parts] of the local record are not
    consulted. When [listUploadedParts] fails, no part is skipped. *)
Theorem C1_skip_set_is_server_list (uploadState abortSignal : nat)
    (w : World) :
  0 < st_partSize (heap w uploadState) ->
  let state := heap w uploadState in
  let answer :=
    result_of (ApiClient.listUploadedParts (st_key state) (st_uploadId state) w) in
  let listed :=
    match answer with Ok parts => p_partNumber <$> parts | Throw _ => [] end in
  let total := ceil_div (file_size (st_file state)) (st_partSize state) in
  let run := UploadHandler.uploadParts uploadState abortSignal w in
  (forall p, p ∈ skipped_parts (events_of run) ->
             (p ∈ listed) /\ 1 <= p <= total)
  /\ (forall p, p ∈ attempted_parts (events_of run) ->
                (p ∉ listed) /\ 1 <= p <= total)
  /\ (result_of run = Ok tt ->
      forall p, 1 <= p <= total ->
        (p ∈ listed -> p ∈ skipped_parts (events_of run))
        /\ (p ∉ listed -> p ∈ attempted_parts (events_of run)))
  /\ (forall e, answer = Throw e -> skipped_parts (events_of run) = []).
Proof.
  intros _ state answer listed total run.
  assert (Hlisted : listed = p_partNumber <$> listed_parts state w).
  { unfold listed, listed_parts. fold answer. destruct answer; reflexivity. }
  pose proof (uploadParts_marks uploadState abortSignal w) as Hmarks.
  cbv zeta in Hmarks. fold state total run in Hmarks.
  rewrite <- Hlisted in Hmarks.
  assert (Hskip : forall p, p ∈ skipped_parts (events_of run) ->
                            (p ∈ listed) /\ 1 <= p <= total).
  { intros p. apply (skipped_parts_within _ _ _ _ Hmarks). }
  split; [exact Hskip|]. split.
  { intros p. apply (attempted_parts_within _ _ _ _ Hmarks). }
  split.
  - intros Hok p Hp. subst run. unfold UploadHandler.uploadParts in *.
    rewrite bind_result in Hok. rewrite bind_events.
    rewrite read_object_run in Hok |- *.
    cbn [events_of result_of world_of fst snd] in Hok |- *.
    rewrite app_nil_l. fold state in Hok |- *.
    destruct (truthy (st_contentId state)) as [cid|]; [|discriminate].
    rewrite bind_result in Hok. rewrite bind_events.
    rewrite broadcastLog_run in Hok |- *.
    cbn [events_of result_of world_of fst snd] in Hok |- *.
    rewrite bind_result in Hok. rewrite bind_events.
    rewrite getUploadedParts_result in Hok |- *.
    rewrite <- Hlisted in Hok |- *.
    set (w1 := world_of (UploadHandler.getUploadedParts state w)) in *.
    rewrite bind_result in Hok. rewrite bind_events.
    set (loop := UploadHandler.partsLoop _ _ _ _ _ _ _ _ _ _ _) in *.
    destruct (result_of (loop w1)) as [[]|e] eqn:Hloop; [|discriminate].
    assert (Hin : p ∈ seqZ 1 total) by (apply elem_of_seqZ; lia).
    destruct (partsLoop_covers _ _ _ _ _ _ _ _ _ _ _ _ Hloop p Hin)
      as [Hs Ha].
    rewrite !skipped_parts_app, !attempted_parts_app.
    split; intros Hmem.
    + apply elem_of_app. right. apply elem_of_app. right.
      apply elem_of_app. left. apply Hs. unfold has.
      apply bool_decide_eq_true. exact Hmem.
    + apply elem_of_app. right. apply elem_of_app. right.
      apply elem_of_app. left. apply Ha. unfold has.
      apply bool_decide_eq_false. exact Hmem.
  - intros e He.
    destruct (skipped_parts (events_of run)) as [|p l] eqn:Hsk; [reflexivity|].
    exfalso. destruct (Hskip p) as [Hin _].
    { apply elem_of_cons. left. reflexivity. }
    unfold listed in Hin. rewrite He in Hin. apply elem_of_nil in Hin.
    exact Hin.
Qed.

(** C1 on an active upload of which the server lists part 1. *)
Lemma C1_skip_set_witness :
  let w := Examples.active (Examples.stored in_progress [])
             [Examples.json (JParts [Examples.part 1])] in
  0 < st_partSize (heap w 0%nat)
  /\ (forall p, p ∈ skipped_parts
                     (events_of (UploadHandler.uploadParts 0 0 w)) ->
                (p ∈ [1]) /\ 1 <= p <= 4).
Proof.
  assert (H : 0 < st_partSize
                    (heap (Examples.active (Examples.stored in_progress [])
                             [Examples.json (JParts [Examples.part 1])])
                       0%nat)) by reflexivity.
  split; [exact H|].
  pose proof (C1_skip_set_is_server_list 0 0 _ H) as Hc.
  destruct Hc as [Hs _]. exact Hs.
Defined.


(** ** The requests of one part *)

Lemma uploadPart_requests_own_part cid key uid pn chunk sig :
  produces (Forall (marks_within (fun _ => True) (fun p => p = pn)))
    (UploadHandler.uploadPart cid key uid pn chunk sig).
Proof.
  apply (produces_uploadPart_from (marks_within_laws _ _)).
  - intros a. split; [reflexivity|exact I].
  - intros. split; exact I.
  - intros. exact I.
Qed.

(** ** Part PUTs in flight *)

Lemma in_flight_app n a b :
  in_flight n (a ++ b) = in_flight (in_flight n a) b.
Proof. apply foldl_app. Qed.

Lemma peak_in_flight_app n a b :
  peak_in_flight n (a ++ b)
  = Nat.max (peak_in_flight n a) (peak_in_flight (in_flight n a) b).
Proof.
  revert n. induction a as [|e a IH]; intros n; simpl.
  - assert (H : (n <= peak_in_flight n b)%nat).
    { destruct b; simpl; lia. }
    lia.
  - rewrite IH. unfold in_flight. simpl. lia.
Qed.

Lemma routine_in_flight n noise :
  Forall (fun e => routine e = true) noise ->
  in_flight n noise = n /\ peak_in_flight n noise = n.
Proof.
  induction 1 as [|e noise He _ IH]; [split; reflexivity|].
  destruct e; try discriminate; unfold in_flight in *; simpl;
    destruct IH as [-> ->]; split; lia.
Qed.

Lemma one_at_a_time_laws :
  trace_laws one_at_a_time
    (fun e => match e with FetchBegin _ | FetchEnd _ => False | _ => True end)
    (fun _ => True).
Proof.
  constructor.
  - split; [reflexivity|simpl; lia].
  - intros a b [Ha Hpa] [Hb Hpb]. split.
    + rewrite in_flight_app, Ha. exact Hb.
    + rewrite peak_in_flight_app, Ha. lia.
  - intros [| | |] He; try destruct He; split; simpl; try reflexivity; lia.
  - intros req noise _ Hn. unfold one_at_a_time.
    change (FetchBegin req :: noise ++ [FetchEnd req])
      with ([FetchBegin req] ++ noise ++ [FetchEnd req]).
    rewrite !in_flight_app, !peak_in_flight_app.
    destruct (routine_in_flight (in_flight 0 [FetchBegin req]) noise Hn)
      as [-> ->].
    unfold in_flight. simpl. destruct (is_put req); simpl; split; lia.
  - intros [| | |]; simpl; try discriminate; auto.
  - intros. exact I.
Qed.

Lemma uploadParts_one_at_a_time r sig :
  produces one_at_a_time (UploadHandler.uploadParts r sig).
Proof.
  pose proof one_at_a_time_laws as L.
  unfold UploadHandler.uploadParts.
  apply (produces_bind L); [apply (produces_read_object L)|]. intros state.
  destruct (truthy (st_contentId state)) as [cid|];
    [|apply (produces_throw L)].
  apply (produces_bind L); [apply (produces_broadcastLog L); exact I|].
  intros _.
  apply (produces_bind L); [apply (produces_getUploadedParts L)|].
  intros parts.
  apply (produces_bind L).
  - apply (produces_partsLoop L); intros; exact I.
  - intros _. apply (produces_completeUpload L). intros. exact I.
Qed.

(** C3, where it fails. Four parts are outstanding, the upload allows
    five concurrent part uploads and every request succeeds; still no two
    PUTs are ever in flight together: the largest number of pending PUTs
    over the whole run is 1, not 4. *)
Lemma C3_parts_are_not_uploaded_concurrently :
  let record := Examples.stored in_progress [] in
  let run :=
    UploadHandler.uploadParts 0 0
      (Examples.active record
         [Examples.json (JParts []);
          Examples.signed 1; Examples.put_ok "e1";
          Examples.signed 2; Examples.put_ok "e2";
          Examples.signed 3; Examples.put_ok "e3";
          Examples.signed 4; Examples.put_ok "e4";
          Examples.json (JComplete "https://media/k1")]) in
  st_maxConcurrentUploads record = 5
  /\ attempted_parts (events_of run) = [1; 2; 3; 4]
  /\ result_of run = Ok tt
  /\ peak_in_flight 0 (events_of run) = 1%nat
  /\ peak_in_flight 0 (events_of run)
     <> Z.to_nat (Z.min (st_maxConcurrentUploads record) 4).
Proof. vm_compute. repeat split; try reflexivity. discriminate. Qed.

(** C3, as the code has it. Within one run of the part driver, that is
    one call of [uploadParts], the parts are driven strictly one after the
    other: whatever [maxConcurrentUploads] is, at most one part PUT of the
    run is in flight at any point of the run, and none is pending when the
    run ends. The statement is about each run taken alone, not about the
    PUTs of different runs. *)
Theorem C3_one_put_in_flight (uploadState abortSignal : nat) (w : World) :
  0 < st_partSize (heap w uploadState) ->
  (peak_in_flight 0
     (events_of (UploadHandler.uploadParts uploadState abortSignal w)) <= 1)%nat
  /\ in_flight 0
       (events_of (UploadHandler.uploadParts uploadState abortSignal w))
     = 0%nat.
Proof.
  intros _.
  destruct (uploadParts_one_at_a_time uploadState abortSignal w) as [H0 H1].
  split; assumption.
Qed.

(** C3 on an active upload with one part answered by the network. *)
Lemma C3_one_put_witness :
  let w := Examples.active (Examples.stored in_progress [])
             [Examples.json (JParts []); Examples.signed 1;
              Examples.put_ok "e1"] in
  0 < st_partSize (heap w 0%nat)
  /\ (peak_in_flight 0 (events_of (UploadHandler.uploadParts 0 0 w)) <= 1)%nat.
Proof.
  assert (H : 0 < st_partSize
                    (heap (Examples.active (Examples.stored in_progress [])
                             [Examples.json (JParts []); Examples.signed 1;
                              Examples.put_ok "e1"]) 0%nat)) by reflexivity.
  split; [exact H|].
  exact (proj1 (C3_one_put_in_flight 0 0 _ H)).
Defined.


(** ** Progress within one run of the part driver *)

Lemma partsLoop_cons r sig file k u cid partSize total uploaded p pns c :
  UploadHandler.partsLoop r sig file k u cid partSize total uploaded
    (p :: pns) c =
  if has uploaded p then
    broadcastLog (LogSkipping p) info None;;
    UploadHandler.partsLoop r sig file k u cid partSize total uploaded pns c
  else
    c' <- part_step r sig file k u cid partSize total p c;;
    UploadHandler.partsLoop r sig file k u cid partSize total uploaded pns c'.
Proof. reflexivity. Qed.

Lemma plain_event_laws :
  trace_laws (Forall plain_event) plain_event
    (fun req => plain_event (FetchBegin req) /\ plain_event (FetchEnd req)).
Proof.
  apply forall_laws.
  - intros [[]| | |]; simpl; try discriminate; auto.
  - intros req _. split; exact I.
Qed.

Lemma progress_values_app cid a b :
  progress_values cid (a ++ b) = progress_values cid a ++ progress_values cid b.
Proof. apply omap_app. Qed.

Lemma plain_no_progress cid evs :
  Forall plain_event evs -> progress_values cid evs = [].
Proof.
  induction 1 as [|e evs He _ IH]; [reflexivity|].
  destruct e as [[]| | |]; simpl in He; try exact IH. destruct He.
Qed.

Lemma plain_not_completed evs :
  Forall plain_event evs -> ~ completed_announced evs.
Proof.
  intros Hall (c & url & d & n & Hin).
  rewrite Forall_forall in Hall. exact (Hall _ Hin).
Qed.

Lemma completed_announced_app a b :
  completed_announced (a ++ b) ->
  completed_announced a \/ completed_announced b.
Proof.
  intros (c & url & d & n & Hin). apply elem_of_app in Hin as [Hin|Hin];
    [left|right]; exists c, url, d, n; exact Hin.
Qed.

(** One step of the loop either reports the next progress value and
    returns the incremented counter, or throws without reporting. *)
Lemma part_step_reports r sig file k u cid partSize total p c w :
  (result_of (part_step r sig file k u cid partSize total p c w) = Ok (c + 1)
   /\ exists pre bytes size,
        Forall plain_event pre
        /\ events_of (part_step r sig file k u cid partSize total p c w)
           = pre ++ [Broadcast (UPLOAD_PROGRESS cid
                                  (round_percent (c + 1) total) bytes size)])
  \/ ((exists e, result_of (part_step r sig file k u cid partSize total p c w)
                 = Throw e)
      /\ Forall plain_event
           (events_of (part_step r sig file k u cid partSize total p c w))).
Proof.
  unfold part_step.
  set (chunk := slice _ _ _).
  rewrite try_catch_result, try_catch_events, bind_result, bind_events,
    bind_world.
  pose proof (produces_uploadPart_from plain_event_laws CONFIG.RETRY.ATTEMPTS
                cid k u p chunk sig) as Hup.
  specialize (Hup ltac:(intros; split; exact I) ltac:(intros; split; exact I)
                  ltac:(intros; exact I) w).
  fold (UploadHandler.uploadPart cid k u p chunk sig) in Hup.
  destruct (UploadHandler.uploadPart cid k u p chunk sig w)
    as [[[part|e] w1] e1]; cbn [result_of events_of world_of fst snd] in *.
  - left. split; [reflexivity|].
    eexists (e1 ++ [_; _]), _, _. split; cycle 1.
    + rewrite app_nil_r, <- app_assoc. reflexivity.
    + apply Forall_app. split; [exact Hup|]. repeat constructor.
  - right. rewrite bind_result, bind_events.
    pose proof (produces_handleUploadError plain_event_laws cid e w1) as Hh.
    destruct (UploadHandler.handleUploadError cid e w1) as [[[[]|e'] w2] e2];
      cbn [result_of events_of world_of fst snd throw] in *.
    + split; [eexists; reflexivity|].
      rewrite !app_nil_r. apply Forall_app. split; assumption.
    + split; [eexists; reflexivity|].
      rewrite !app_nil_r. apply Forall_app. split; assumption.
Qed.

Lemma progress_from_S total c m :
  progress_from total c (S m)
  = round_percent (c + 1) total :: progress_from total (c + 1) m.
Proof.
  unfold progress_from at 1. rewrite (seqZ_cons 1) by lia. rewrite fmap_cons.
  f_equal. unfold progress_from.
  replace (Z.pred (Z.of_nat (S m))) with (Z.of_nat m) by lia.
  change (Z.succ 1) with (1 + 1).
  rewrite <- (fmap_add_seqZ 1 1 (Z.of_nat m)), <- list_fmap_compose.
  apply list_fmap_ext. intros _ i _. simpl. f_equal. lia.
Qed.

Lemma partsLoop_progress r sig file k u cid partSize total uploaded cid' pns :
  forall c w,
  exists m : nat,
    progress_values cid'
      (events_of (UploadHandler.partsLoop r sig file k u cid partSize total
                    uploaded pns c w))
    = (if decide (cid = cid') then progress_from total c m else [])
    /\ (m <= length (outstanding uploaded pns))%nat
    /\ (result_of (UploadHandler.partsLoop r sig file k u cid partSize total
                     uploaded pns c w) = Ok tt ->
        m = length (outstanding uploaded pns))
    /\ ~ completed_announced
           (events_of (UploadHandler.partsLoop r sig file k u cid partSize
                         total uploaded pns c w)).
Proof.
  induction pns as [|p pns IH]; intros c w.
  { exists 0%nat. cbn. split; [destruct (decide (cid = cid')); reflexivity|].
    split; [lia|]. split; [reflexivity|].
    intros (?&?&?&?&Hin). apply elem_of_nil in Hin. exact Hin. }
  rewrite partsLoop_cons. unfold outstanding. rewrite filter_cons.
  fold (outstanding uploaded pns).
  destruct (has uploaded p) eqn:Hp.
  - rewrite decide_False by discriminate.
    rewrite bind_events, bind_result, broadcastLog_run.
    cbn [result_of events_of world_of fst snd].
    destruct (IH c w) as (m & Hpv & Hle & Hok & Hnc).
    exists m. rewrite progress_values_app, Hpv. split; [reflexivity|].
    split; [exact Hle|]. split; [exact Hok|].
    intros [Hc|Hc]%completed_announced_app; [|exact (Hnc Hc)].
    revert Hc. apply plain_not_completed. repeat constructor.
  - rewrite decide_True by reflexivity.
    rewrite bind_events, bind_result.
    destruct (part_step_reports r sig file k u cid partSize total p c w)
      as [[Hres (pre & bytes & size & Hpre & Hev)]|[[e Hres] Hev]].
    + rewrite Hres, Hev.
      destruct (IH (c + 1) (world_of (part_step r sig file k u cid partSize
                                        total p c w)))
        as (m & Hpv & Hle & Hok & Hnc).
      exists (S m). rewrite !progress_values_app, Hpv.
      rewrite (plain_no_progress _ _ Hpre), app_nil_l.
      split.
      { cbn. destruct (decide (cid = cid')) as [->|Hne].
        - rewrite progress_from_S. reflexivity.
        - reflexivity. }
      split; [simpl; lia|]. split; [intros Hr; simpl; f_equal; auto|].
      intros [Hc|Hc]%completed_announced_app; [|exact (Hnc Hc)].
      apply completed_announced_app in Hc as [Hc|Hc].
      * exact (plain_not_completed _ Hpre Hc).
      * destruct Hc as (?&?&?&?&Hin).
        apply list_elem_of_singleton in Hin. discriminate.
    + rewrite Hres, app_nil_r. exists 0%nat.
      rewrite (plain_no_progress _ _ Hev).
      split; [destruct (decide (cid = cid')); reflexivity|].
      split; [lia|]. split; [discriminate|].
      apply plain_not_completed, Hev.
Qed.

Lemma not_progress_laws :
  trace_laws (Forall not_progress) not_progress
    (fun req => not_progress (FetchBegin req) /\ not_progress (FetchEnd req)).
Proof.
  apply forall_laws.
  - intros [[]| | |]; simpl; try discriminate; auto.
  - intros req _. split; exact I.
Qed.

Lemma not_progress_values cid evs :
  Forall not_progress evs -> progress_values cid evs = [].
Proof.
  induction 1 as [|e evs He _ IH]; [reflexivity|].
  destruct e as [[]| | |]; simpl in He; try exact IH. destruct He.
Qed.

Lemma uploadParts_progress r sig w cid' :
  let state := heap w r in
  let total := ceil_div (file_size (st_file state)) (st_partSize state) in
  let parts := listed_parts state w in
  exists (m : nat) (cid : string),
    progress_values cid' (events_of (UploadHandler.uploadParts r sig w))
    = (if decide (cid = cid')
       then progress_from total (Z.of_nat (length parts)) m else [])
    /\ (m <= length (outstanding (p_partNumber <$> parts) (seqZ 1 total)))%nat
    /\ (completed_announced (events_of (UploadHandler.uploadParts r sig w)) ->
        m = length (outstanding (p_partNumber <$> parts) (seqZ 1 total)))
    /\ (forall own, truthy (st_contentId state) = Some own -> cid = own).
Proof.
  intros state total parts.
  unfold UploadHandler.uploadParts.
  rewrite bind_events, read_object_run.
  cbn [events_of result_of world_of fst snd]. rewrite app_nil_l.
  fold state.
  destruct (truthy (st_contentId state)) as [cid|].
  2:{ exists 0%nat, EmptyString. cbn.
      split; [destruct (decide _); reflexivity|]. split; [lia|].
      split; [|discriminate].
      intros (?&?&?&?&Hin). apply elem_of_nil in Hin. destruct Hin. }
  rewrite bind_events, broadcastLog_run.
  cbn [events_of result_of world_of fst snd].
  rewrite bind_events, getUploadedParts_result. fold parts total.
  pose proof (produces_getUploadedParts plain_event_laws state w) as Hget.
  set (e1 := events_of (UploadHandler.getUploadedParts state w)) in *.
  set (w1 := world_of (UploadHandler.getUploadedParts state w)).
  rewrite bind_events.
  destruct (partsLoop_progress r sig (st_file state) (st_key state)
              (st_uploadId state) cid (st_partSize state) total
              (p_partNumber <$> parts) cid' (seqZ 1 total)
              (Z.of_nat (length parts)) w1) as (m & Hpv & Hle & Hok & Hnc).
  set (loop := UploadHandler.partsLoop _ _ _ _ _ _ _ _ _ _ _) in *.
  exists m, cid.
  assert (Hc : progress_values cid'
                 match result_of (loop w1) with
                 | Ok _ => events_of (UploadHandler.completeUpload r
                                        (world_of (loop w1)))
                 | Throw _ => []
                 end = []).
  { destruct (result_of (loop w1)); [|reflexivity].
    apply not_progress_values.
    apply (produces_completeUpload not_progress_laws). intros. exact I. }
  rewrite !progress_values_app, Hpv, Hc, app_nil_r.
  rewrite (plain_no_progress _ e1 Hget).
  split; [reflexivity|]. split; [exact Hle|].
  split; [|intros own [= ->]; reflexivity].
  intros Hdone. apply Hok.
  destruct (result_of (loop w1)) as [[]|e] eqn:Hres; [reflexivity|].
  exfalso.
  apply completed_announced_app in Hdone as [Hdone|Hdone].
  { revert Hdone. apply plain_not_completed. repeat constructor. }
  apply completed_announced_app in Hdone as [Hdone|Hdone].
  { exact (plain_not_completed _ Hget Hdone). }
  rewrite app_nil_r in Hdone. exact (Hnc Hdone).
Qed.

(** ** Rounding to doubles is monotone *)

Lemma pow2_pos (e : Z) : (0 < 2 ^ e)%Q.
Proof. apply Qpower_0_lt. reflexivity. Qed.

Lemma pow2_succ (e : Z) : (2 ^ (e + 1) == 2 * 2 ^ e)%Q.
Proof. rewrite Qpower_plus by discriminate. ring. Qed.

Lemma pow2_le (a b : Z) : a <= b -> (2 ^ a <= 2 ^ b)%Q.
Proof. intros H. apply Qpower_le_compat_l; [exact H|discriminate]. Qed.

Lemma pow2_lt (a b : Z) : a < b -> (2 ^ a < 2 ^ b)%Q.
Proof. intros H. apply Qpower_lt_compat_l; [exact H|reflexivity]. Qed.

Lemma pow2_inject (a : Z) : 0 <= a -> (inject_Z (2 ^ a) == 2 ^ a)%Q.
Proof. intros H. apply (Zpower_Qpower 2 a H). Qed.

Lemma log2_bracket (n : Z) :
  0 < n ->
  (2 ^ Z.log2 n <= inject_Z n)%Q /\ (inject_Z n < 2 ^ (Z.log2 n + 1))%Q.
Proof.
  intros Hn. destruct (Z.log2_spec n Hn) as [Hlo Hhi].
  pose proof (Z.log2_nonneg n) as H0.
  rewrite <- !pow2_inject by lia. rewrite <- Zle_Qle, <- Zlt_Qlt.
  split; [exact Hlo|]. replace (Z.log2 n + 1) with (Z.succ (Z.log2 n)) by lia.
  exact Hhi.
Qed.

Lemma binade_spec (x : Q) :
  (0 < x)%Q -> (2 ^ binade x <= x)%Q /\ (x < 2 ^ (binade x + 1))%Q.
Proof.
  intros Hx. unfold binade.
  destruct x as [n d]. cbn [Qnum Qden].
  assert (0 < n) as Hn.
  { unfold Qlt in Hx. cbn in Hx. lia. }
  destruct (log2_bracket n Hn) as [Hn1 Hn2].
  destruct (log2_bracket (Zpos d) ltac:(lia)) as [Hd1 Hd2].
  set (a := Z.log2 n) in *. set (b := Z.log2 (Zpos d)) in *.
  pose proof (Qmake_Qdiv n d) as Hq.
  assert (0 < inject_Z (Zpos d))%Q as Hd by reflexivity.
  set (N := inject_Z n) in *. set (D := inject_Z (Zpos d)) in *.
  set (x := n # d) in *.
  assert (x * D == N)%Q as Hmul.
  { rewrite Hq. field. intros H0. rewrite H0 in Hd. discriminate. }
  clear Hq.
  pose proof (pow2_pos a) as Pa. pose proof (pow2_pos b) as Pb.
  pose proof (pow2_pos (a - b)) as Pk.
  assert (2 ^ (a - b) * 2 ^ b == 2 ^ a)%Q as Hk.
  { rewrite <- Qpower_plus by discriminate. replace (a - b + b) with a by lia.
    reflexivity. }
  rewrite pow2_succ in Hn2, Hd2.
  destruct (Qle_bool (2 ^ (a - b)) x) eqn:Hle.
  - apply Qle_bool_iff in Hle. split; [exact Hle|].
    rewrite pow2_succ.
    set (P := (2 ^ (a - b))%Q) in *. set (A := (2 ^ a)%Q) in *.
    set (B := (2 ^ b)%Q) in *.
    apply Qnot_le_lt. intros Hc.
    assert (2 * P * D <= x * D)%Q by (apply Qmult_le_compat_r; lra).
    assert (2 * P * B <= 2 * P * D)%Q by (apply Qmult_le_l; lra).
    lra.
  - assert (x < 2 ^ (a - b))%Q as Hlt.
    { apply Qnot_le_lt. intros Hc. apply Qle_bool_iff in Hc. congruence. }
    replace (a - b - 1 + 1) with (a - b) by lia. split; [|exact Hlt].
    assert (2 * 2 ^ (a - b - 1) == 2 ^ (a - b))%Q as Hhalf.
    { rewrite <- pow2_succ. replace (a - b - 1 + 1) with (a - b) by lia.
      reflexivity. }
    pose proof (pow2_pos (a - b - 1)) as Ph.
    set (P := (2 ^ (a - b))%Q) in *. set (A := (2 ^ a)%Q) in *.
    set (B := (2 ^ b)%Q) in *. set (H := (2 ^ (a - b - 1))%Q) in *.
    apply Qnot_lt_le. intros Hc.
    assert (x * D <= H * D)%Q by (apply Qmult_le_compat_r; lra).
    assert (H * D < H * (2 * B))%Q by (apply Qmult_lt_l; lra).
    assert (2 * H * B == A)%Q by (rewrite Hhalf; exact Hk).
    lra.
Qed.

Lemma binade_unique (x : Q) (k : Z) :
  (2 ^ k <= x)%Q -> (x < 2 ^ (k + 1))%Q -> binade x = k.
Proof.
  intros Hlo Hhi.
  assert (0 < x)%Q as Hx by (pose proof (pow2_pos k); lra).
  destruct (binade_spec x Hx) as [Blo Bhi].
  destruct (Z.lt_trichotomy (binade x) k) as [Hlt|[Heq|Hgt]]; [|exact Heq|].
  - pose proof (pow2_le (binade x + 1) k ltac:(lia)). lra.
  - pose proof (pow2_le (k + 1) (binade x) ltac:(lia)). lra.
Qed.

Lemma binade_mono (x y : Q) :
  (0 < x)%Q -> (x <= y)%Q -> binade x <= binade y.
Proof.
  intros Hx Hxy.
  destruct (binade_spec x Hx) as [Xlo Xhi].
  destruct (binade_spec y ltac:(lra)) as [Ylo Yhi].
  destruct (Z.le_gt_cases (binade x) (binade y)) as [H|H]; [exact H|].
  pose proof (pow2_le (binade y + 1) (binade x) ltac:(lia)). lra.
Qed.

Lemma nearest_even_bounds (x : Q) :
  Qfloor x <= nearest_even x <= Qfloor x + 1.
Proof.
  unfold nearest_even.
  destruct (x - inject_Z (Qfloor x) ?= 1 # 2)%Q; [|lia|lia].
  destruct (Z.even (Qfloor x)); lia.
Qed.

Lemma nearest_even_mono (x y : Q) :
  (x <= y)%Q -> nearest_even x <= nearest_even y.
Proof.
  intros Hxy. pose proof (Qfloor_resp_le x y Hxy) as Hf.
  destruct (Z.eq_dec (Qfloor x) (Qfloor y)) as [Heq|Hne].
  - unfold nearest_even. rewrite <- Heq.
    destruct (Qcompare_spec (x - inject_Z (Qfloor x)) (1 # 2)) as [Hx|Hx|Hx];
      destruct (Qcompare_spec (y - inject_Z (Qfloor x)) (1 # 2))
        as [Hy|Hy|Hy];
      try lia; try (exfalso; lra);
      destruct (Z.even (Qfloor x)); lia.
  - pose proof (nearest_even_bounds x). pose proof (nearest_even_bounds y).
    lia.
Qed.

Lemma nearest_even_Z (z : Z) : nearest_even (inject_Z z) = z.
Proof.
  unfold nearest_even. rewrite Qfloor_Z.
  destruct (Qcompare_spec (inject_Z z - inject_Z z) (1 # 2)) as [H|H|H];
    [exfalso; lra|reflexivity|exfalso; lra].
Qed.

Lemma fl_nonneg (x : Q) : (0 <= fl x)%Q.
Proof.
  unfold fl. destruct (Qle_bool x 0) eqn:Hx; [discriminate|].
  assert (0 < x)%Q as Hpos.
  { apply Qnot_le_lt. intros Hc. apply Qle_bool_iff in Hc. congruence. }
  set (e := binade x - 52). pose proof (pow2_pos e) as He.
  apply Qmult_le_0_compat; [|lra].
  change 0%Q with (inject_Z 0). rewrite <- Zle_Qle.
  rewrite <- (nearest_even_Z 0). apply nearest_even_mono.
  change (inject_Z 0) with 0%Q. apply Qle_shift_div_l; lra.
Qed.

(** The mantissa of a positive [x] lies between [2^52] and [2^53]. *)
Lemma mantissa_bounds (x : Q) :
  (0 < x)%Q ->
  2 ^ 52 <= nearest_even (x / 2 ^ (binade x - 52)) <= 2 ^ 53.
Proof.
  intros Hx. destruct (binade_spec x Hx) as [Hlo Hhi].
  set (e := binade x - 52). pose proof (pow2_pos e) as He.
  assert (2 ^ binade x == 2 ^ 52 * 2 ^ e)%Q as E1.
  { rewrite <- Qpower_plus by discriminate. unfold e.
    replace (52 + (binade x - 52)) with (binade x) by lia. reflexivity. }
  assert (2 ^ (binade x + 1) == 2 ^ 53 * 2 ^ e)%Q as E2.
  { rewrite <- Qpower_plus by discriminate. unfold e.
    replace (53 + (binade x - 52)) with (binade x + 1) by lia. reflexivity. }
  split.
  - rewrite <- (nearest_even_Z (2 ^ 52)). apply nearest_even_mono.
    apply Qle_shift_div_l; [exact He|].
    rewrite pow2_inject by lia. lra.
  - rewrite <- (nearest_even_Z (2 ^ 53)). apply nearest_even_mono.
    apply Qle_shift_div_r; [exact He|].
    rewrite pow2_inject by lia. lra.
Qed.

Lemma fl_mono (x y : Q) : (x <= y)%Q -> (fl x <= fl y)%Q.
Proof.
  intros Hxy. unfold fl at 1.
  destruct (Qle_bool x 0) eqn:Hx; [apply fl_nonneg|].
  assert (0 < x)%Q as Hpos.
  { apply Qnot_le_lt. intros Hc. apply Qle_bool_iff in Hc. congruence. }
  unfold fl. destruct (Qle_bool y 0) eqn:Hy.
  { apply Qle_bool_iff in Hy. lra. }
  pose proof (binade_mono x y Hpos Hxy) as Hb.
  destruct (Z.eq_dec (binade x) (binade y)) as [Heq|Hne].
  - rewrite <- Heq. set (e := binade x - 52). pose proof (pow2_pos e) as He.
    apply Qmult_le_compat_r; [|lra].
    rewrite <- Zle_Qle. apply nearest_even_mono.
    apply Qmult_le_compat_r; [exact Hxy|].
    apply Qlt_le_weak, Qinv_lt_0_compat, He.
  - destruct (mantissa_bounds x Hpos) as [_ Hmx].
    destruct (mantissa_bounds y ltac:(lra)) as [Hmy _].
    set (ex := binade x - 52) in *. set (ey := binade y - 52) in *.
    set (mx := nearest_even (x / 2 ^ ex)) in *.
    set (my := nearest_even (y / 2 ^ ey)) in *.
    pose proof (pow2_pos ex) as Hex. pose proof (pow2_pos ey) as Hey.
    rewrite Zle_Qle in Hmx, Hmy. rewrite pow2_inject in Hmx, Hmy by lia.
    assert (2 ^ 53 * 2 ^ ex <= 2 ^ 52 * 2 ^ ey)%Q as Hstep.
    { rewrite <- !Qpower_plus by discriminate. apply pow2_le.
      unfold ex, ey. lia. }
    assert (inject_Z mx * 2 ^ ex <= 2 ^ 53 * 2 ^ ex)%Q
      by (apply Qmult_le_compat_r; lra).
    assert (2 ^ 52 * 2 ^ ey <= inject_Z my * 2 ^ ey)%Q
      by (apply Qmult_le_compat_r; lra).
    lra.
Qed.

Lemma fl_proper (x y : Q) : (x == y)%Q -> (fl x == fl y)%Q.
Proof.
  intros Hxy. apply Qle_antisym; apply fl_mono; rewrite Hxy; apply Qle_refl.
Qed.

Lemma Math_round_mono (x y : Q) : (x <= y)%Q -> Math_round x <= Math_round y.
Proof. intros H. apply Qfloor_resp_le. lra. Qed.

Lemma round_percent_proper (x y : Q) :
  (x == y)%Q ->
  Math_round (fl (fl x * 100)) = Math_round (fl (fl y * 100)).
Proof.
  intros Hxy. unfold Math_round. apply Qfloor_comp.
  rewrite (fl_proper (fl x * 100) (fl y * 100)); [reflexivity|].
  rewrite (fl_proper x y Hxy). reflexivity.
Qed.

Lemma round_percent_mono total a b :
  0 < total -> a <= b -> round_percent a total <= round_percent b total.
Proof.
  intros Ht Hab. unfold round_percent.
  apply Math_round_mono, fl_mono.
  apply Qmult_le_compat_r; [|discriminate].
  apply fl_mono. apply Qmult_le_compat_r.
  - rewrite <- Zle_Qle. exact Hab.
  - apply Qlt_le_weak, Qinv_lt_0_compat.
    change 0%Q with (inject_Z 0). rewrite <- Zlt_Qlt. exact Ht.
Qed.

Lemma round_percent_full total : 0 < total -> round_percent total total = 100.
Proof.
  intros Ht. unfold round_percent.
  rewrite (round_percent_proper _ 1); [vm_compute; reflexivity|].
  apply Qmult_inv_r. intros H0.
  assert (inject_Z 0 < inject_Z total)%Q as Hlt
      by (rewrite <- Zlt_Qlt; exact Ht).
  rewrite H0 in Hlt. discriminate.
Qed.

Lemma round_percent_zero total : round_percent 0 total = 0.
Proof.
  unfold round_percent.
  rewrite (round_percent_proper _ 0); [vm_compute; reflexivity|].
  unfold Qdiv. apply Qmult_0_l.
Qed.

(** On every pair of counts up to 100, and on some large ones, the double
    that [round_percent] rounds is the one the standard library's
    specification of binary64 computes. *)
Lemma round_percent_binary64 :
  forallb (fun t => forallb (fun c => agrees_with_binary64 c t)
                      (seqZ 0 (t + 1))) (seqZ 1 100)
  && forallb (fun '(c, t) => agrees_with_binary64 c t)
       [(1, 9007199254740991); (9007199254740990, 9007199254740991);
        (4503599627370497, 9007199254740991); (3, 1000000007);
        (123456789, 987654321); (10, 3); (1000, 7)]
  = true.
Proof. vm_compute. reflexivity. Qed.

(** 23 parts of 40 are reported as 57 percent: the product is the double
    just below 57.5. *)
Lemma round_percent_23_of_40 : round_percent 23 40 = 57.
Proof. vm_compute. reflexivity. Qed.


Lemma progress_from_lookup total c m i :
  progress_from total c m !! i
  = if decide (i < m)%nat then Some (round_percent (c + (1 + Z.of_nat i)) total)
    else None.
Proof.
  unfold progress_from. rewrite list_lookup_fmap.
  destruct (decide (i < m)%nat).
  - rewrite lookup_seqZ_lt by lia. reflexivity.
  - rewrite lookup_seqZ_ge by lia. reflexivity.
Qed.



(** With distinct listed part numbers, all within range, the listed and
    the outstanding parts together are the parts of the file. *)
Lemma outstanding_count (listed : list Z) total :
  NoDup listed -> (forall p, p ∈ listed -> 1 <= p <= total) ->
  (length listed + length (outstanding listed (seqZ 1 total)))%nat
  = Z.to_nat total.
Proof.
  intros Hnd Hrange.
  pose proof (filter_app_complement (fun p => has listed p = false)
                (seqZ 1 total)) as Hperm.
  apply Permutation_length in Hperm.
  rewrite length_app, length_seqZ in Hperm.
  fold (outstanding listed (seqZ 1 total)) in Hperm.
  assert (Hl : filter (fun p => ~ has listed p = false) (seqZ 1 total)
               ≡ₚ listed).
  { apply NoDup_Permutation.
    - apply NoDup_filter, NoDup_seqZ.
    - exact Hnd.
    - intros p. rewrite list_elem_of_filter, elem_of_seqZ. unfold has.
      rewrite bool_decide_eq_false. split.
      + intros [Hin _]. destruct (decide (p ∈ listed)); [assumption|].
        exfalso. apply Hin. assumption.
      + intros Hin. split; [intros Hn; exact (Hn Hin)|].
        specialize (Hrange p Hin). lia. }
  apply Permutation_length in Hl. lia.
Qed.



(** ** Acceleration *)

Lemma handlePause_endpoint_kept cid w :
  endpoint_kept w (world_of (handlePause cid w)).
Proof.
  unfold handlePause, endpoint_kept, bind, get_world. simpl.
  destruct (activeUploads w !! cid); reflexivity.
Qed.

Lemma settle_endpoint_kept abortSignal script w :
  endpoint_kept w (world_of (settle abortSignal script w)).
Proof.
  revert w. induction script as [|o script IH]; intros w; simpl.
  - reflexivity.
  - destruct o as [r| | |cid]; simpl; try reflexivity.
    pose proof (handlePause_endpoint_kept cid (with_network script w)) as Hp.
    destruct (handlePause cid (with_network script w)) as [[r1 w1] e1].
    unfold world_of in Hp. simpl in Hp.
    destruct (signal_aborted abortSignal w1); simpl; [exact Hp|].
    specialize (IH w1). destruct (settle abortSignal script w1) as [[r2 w2] e2].
    unfold endpoint_kept, world_of in *. simpl in *. congruence.
Qed.

Lemma endpoint_kept_laws : world_laws endpoint_kept.
Proof.
  constructor.
  - intros w. reflexivity.
  - intros a b c Hab Hbc. unfold endpoint_kept in *. congruence.
  - intros w c. reflexivity.
  - intros abortSignal w. apply settle_endpoint_kept.
Qed.

Lemma put_urls_app a b : put_urls (a ++ b) = put_urls a ++ put_urls b.
Proof. apply omap_app. Qed.

(** C8, where it fails. With the default endpoint, rewriting the URL of
    a bucket whose name ends in [.s3] twice differs from rewriting it
    once. A 40-byte file, far below [MIN_SIZE], has every part PUT
    rewritten when the initiate response carries an endpoint; and after an
    accelerated upload of a large file, the parts of a small file are
    rewritten too, although its own initiate response carried no
    endpoint. *)
Lemma C8_rewrite_neither_idempotent_nor_size_gated :
  let rewrite_ :=
    ApiClient.transformToAcceleratedUrl
      (Some CONFIG.S3_TRANSFER_ACCELERATION.DEFAULT_ENDPOINT) in
  let small_granted :=
    UploadHandler.handleUpload Examples.start_tiny
      (Examples.fresh
         [Examples.accelerated "u1" "k1" "srv-1"; Examples.json (JParts []);
          Examples.signed 1; Examples.put_ok "e1";
          Examples.signed 2; Examples.put_ok "e2";
          Examples.signed 3; Examples.put_ok "e3";
          Examples.signed 4; Examples.put_ok "e4";
          Examples.json (JComplete "https://media/k1")]) in
  let large :=
    UploadHandler.handleUpload Examples.start_big
      (Examples.fresh
         [Examples.accelerated "u9" "k9" "srv-9"; Examples.json (JParts []);
          Examples.signed 1; Examples.put_ok "e1";
          Examples.signed 2; Examples.put_ok "e2";
          Examples.json (JComplete "https://media/k9")]) in
  let small_after_large :=
    UploadHandler.handleUpload Examples.start_tiny
      (with_network
         [Examples.initiated; Examples.json (JParts []);
          Examples.signed 1; Examples.put_ok "e1";
          Examples.signed 2; Examples.put_ok "e2";
          Examples.signed 3; Examples.put_ok "e3";
          Examples.signed 4; Examples.put_ok "e4";
          Examples.json (JComplete "https://media/k1")]
         (world_of large)) in
  rewrite_ Examples.dotted_bucket_url
  = "https://media.s3.s3-accelerate.amazonaws.com/k1?partNumber=1"
  /\ rewrite_ (rewrite_ Examples.dotted_bucket_url)
     = "https://media.s3-accelerate.amazonaws.com/k1?partNumber=1"
  /\ rewrite_ (rewrite_ Examples.dotted_bucket_url)
     <> rewrite_ Examples.dotted_bucket_url
  /\ ApiClient.shouldUseAcceleration (file_size Examples.tiny) = false
  /\ put_urls (events_of small_granted)
     = ["https://media.s3-accelerate.amazonaws.com/k1?partNumber=1";
        "https://media.s3-accelerate.amazonaws.com/k1?partNumber=2";
        "https://media.s3-accelerate.amazonaws.com/k1?partNumber=3";
        "https://media.s3-accelerate.amazonaws.com/k1?partNumber=4"]
  /\ result_of large = Ok tt
  /\ put_urls (events_of small_after_large)
     = ["https://media.s3-accelerate.amazonaws.com/k1?partNumber=1";
        "https://media.s3-accelerate.amazonaws.com/k1?partNumber=2";
        "https://media.s3-accelerate.amazonaws.com/k1?partNumber=3";
        "https://media.s3-accelerate.amazonaws.com/k1?partNumber=4"].
Proof. vm_compute. repeat split; try reflexivity. discriminate. Qed.

(** ** Cancellation by the upload's token *)

(** A request whose timer fires is reported as a retryable error. *)
Lemma timeout_is_retryable req abortSignal w rest :
  signal_aborted abortSignal w = false ->
  network w = TimesOut :: rest ->
  result_of (ApiClient.fetchWithTimeout req abortSignal w)
  = Throw (RetryableError "Request timed out").
Proof.
  intros Hlive Hnet. unfold ApiClient.fetchWithTimeout, try_catch, fetch.
  rewrite Hlive, Hnet. reflexivity.
Qed.

(** A request made with a token that has fired is reported in the very
    same way. *)
Lemma fired_token_is_retryable req controller w :
  aborted w controller = true ->
  ApiClient.fetchWithTimeout req (Some controller) w
  = (Throw (RetryableError "Request timed out"), w, []).
Proof.
  intros Hfired. unfold ApiClient.fetchWithTimeout, try_catch, fetch.
  cbn [signal_aborted]. rewrite Hfired. reflexivity.
Qed.

(** C2, what the code does. PAUSE_UPLOAD arrives while the
    PUT of part 1 is in flight. The abort of the request is reported by
    [fetchWithTimeout] as the retryable error "Request timed out", exactly
    as a timeout would be; the request is retried by [fetchWithRetry], and
    the part driver announces three RETRYING_CHUNK retries after
    UPLOAD_PAUSED, requests a signed URL for part 1 three more times, and
    finally broadcasts UPLOAD_ERROR. *)
Theorem C2_cancel_token_is_retried :
  let run :=
    UploadHandler.handleUpload Examples.start_tiny
      (Examples.fresh
         [Examples.initiated; Examples.json (JParts []);
          Examples.signed 1; PauseArrives "srv-1";
          Examples.signed 1; Examples.signed 1; Examples.signed 1]) in
  result_of run = Throw (RetryableError "Request timed out")
  /\ messages_of (events_of run)
     = [INITIATE_UPLOAD_RESPONSE "local-uuid" (Some "u1") (Some "k1");
        UPLOAD_PAUSED "srv-1";
        RETRYING_CHUNK "srv-1" 1 1 3 "Request timed out" 1000;
        RETRYING_CHUNK "srv-1" 1 2 3 "Request timed out" 2000;
        RETRYING_CHUNK "srv-1" 1 3 3 "Request timed out" 4000;
        UPLOAD_ERROR "srv-1" "Request timed out" true]
  /\ attempted_parts (events_of run) = [1; 1; 1; 1].
Proof. vm_compute. repeat split; reflexivity. Qed.

(** ** The identity announced by START_UPLOAD *)

(** C4, what the code does. The server assigns the identity
    "srv-1"; [crypto.randomUUID] yields "local-uuid". The
    INITIATE_UPLOAD_RESPONSE message carries the local UUID, while the
    record is stored and registered under the server's identity, which is
    also the one carried by every later message of the upload. *)
Theorem C4_initiate_response_carries_local_uuid :
  let run :=
    UploadHandler.handleUpload Examples.start_tiny
      (Examples.fresh
         [Examples.initiated; Examples.json (JParts []);
          Examples.signed 1; Examples.put_ok "e1";
          Examples.signed 2; Examples.put_ok "e2";
          Examples.signed 3; Examples.put_ok "e3";
          Examples.signed 4; Examples.put_ok "e4";
          Examples.json (JComplete "https://media/k1")]) in
  messages_of (events_of run)
  = [INITIATE_UPLOAD_RESPONSE "local-uuid" (Some "u1") (Some "k1");
     CHUNK_UPLOADED "srv-1" 1 10; UPLOAD_PROGRESS "srv-1" 25 10 40;
     CHUNK_UPLOADED "srv-1" 2 10; UPLOAD_PROGRESS "srv-1" 50 20 40;
     CHUNK_UPLOADED "srv-1" 3 10; UPLOAD_PROGRESS "srv-1" 75 30 40;
     CHUNK_UPLOADED "srv-1" 4 10; UPLOAD_PROGRESS "srv-1" 100 40 40;
     UPLOAD_COMPLETE "srv-1" (Some "https://media/k1") 0 40]
  /\ (st_contentId <$> uploadsStore (world_of run) !! "srv-1")
     = Some (Some "srv-1")
  /\ uploadsStore (world_of run) !! "local-uuid" = None.
Proof. vm_compute. repeat split; reflexivity. Qed.


(** * Further properties of the code *)

(** ** The persistence store *)

Lemma map_to_list_filter_perm {V} (P : string * V -> Prop)
    `{forall kv, Decision (P kv)} (m : gmap string V) :
  map_to_list (filter P m) ≡ₚ filter P (map_to_list m).
Proof.
  apply NoDup_Permutation.
  - apply NoDup_map_to_list.
  - apply NoDup_filter, NoDup_map_to_list.
  - intros [k v]. rewrite elem_of_map_to_list, list_elem_of_filter,
      elem_of_map_to_list, map_lookup_filter_Some. tauto.
Qed.

Lemma foldl_delete_filter uploadId (m : gmap string UploadChunk) :
  foldl (fun store primaryKey => delete primaryKey store) m
    (databaseService.cursor_keys uploadId m)
  = filter (fun kv => ch_uploadId (snd kv) <> uploadId) m.
Proof.
  apply map_eq. intros k. rewrite lookup_foldl_delete.
  unfold databaseService.cursor_keys.
  destruct (decide (k ∈ _)) as [Hin|Hout].
  - symmetry. apply map_lookup_filter_None. right. intros v Hv Hne.
    apply list_elem_of_fmap in Hin as ([k' v'] & -> & Hin).
    apply list_elem_of_filter in Hin as [Hu Hin].
    apply elem_of_entries in Hin. simpl in *.
    rewrite Hv in Hin. injection Hin as <-. contradiction.
  - destruct (m !! k) as [v|] eqn:Hk.
    + symmetry. apply map_lookup_filter_Some. split; [exact Hk|].
      simpl. intros Hu. apply Hout. apply list_elem_of_fmap.
      exists (k, v). split; [reflexivity|].
      apply list_elem_of_filter. split; [exact Hu|].
      apply elem_of_entries, Hk.
    + symmetry. apply map_lookup_filter_None. left. exact Hk.
Qed.

Lemma filter_values_of_kept {V} (P : V -> Prop) (Q : string * V -> Prop)
    `{forall v, Decision (P v)} `{forall kv, Decision (Q kv)}
    (l : list (string * V)) :
  (forall kv, P (snd kv) -> Q kv) ->
  filter P (snd <$> filter Q l) = filter P (snd <$> l).
Proof.
  intros Himp. induction l as [|kv l IH]; [reflexivity|].
  rewrite filter_cons. destruct (decide (Q kv)) as [Hq|Hq].
  - rewrite !fmap_cons, !filter_cons. destruct (decide (P kv.2)); congruence.
  - rewrite fmap_cons, filter_cons. destruct (decide (P kv.2)) as [Hp|Hp].
    + destruct (Hq (Himp _ Hp)).
    + exact IH.
Qed.

(** X1. The [uploads] store is a map keyed on the [id] of the record:
    after [saveUploadState state] a load of [st_id state] returns exactly
    [state] and a load of any other key returns what it returned before;
    after [deleteUploadState key] a load of [key] finds nothing and every
    other key is unaffected. Neither operation touches the chunks or the
    registry of active uploads. *)
Theorem uploads_store_round_trip (state : UploadState) (key id : string)
    (w : World) :
  let saved := world_of (databaseService.saveUploadState state w) in
  let deleted := world_of (databaseService.deleteUploadState key w) in
  result_of (databaseService.loadUploadState id saved)
  = Ok (if decide (id = st_id state) then Some state
        else uploadsStore w !! id)
  /\ result_of (databaseService.loadUploadState id deleted)
     = Ok (if decide (id = key) then None else uploadsStore w !! id)
  /\ chunksStore saved = chunksStore w
  /\ activeUploads saved = activeUploads w
  /\ chunksStore deleted = chunksStore w
  /\ activeUploads deleted = activeUploads w.
Proof.
  cbn. repeat split.
  - destruct (decide (id = st_id state)) as [->|Hne].
    + rewrite lookup_insert_eq. reflexivity.
    + rewrite lookup_insert_ne by congruence. reflexivity.
  - destruct (decide (id = key)) as [->|Hne].
    + rewrite lookup_delete_eq. reflexivity.
    + rewrite lookup_delete_ne by congruence. reflexivity.
Qed.

(** X2. [deleteChunks uploadId] removes the chunks of that upload and
    no others: afterwards [loadChunks uploadId] is empty, while for every
    other upload [loadChunks] returns the same chunks as before. The
    upload records are not touched. *)
Theorem deleteChunks_only_of_that_upload (uploadId other : string)
    (w : World) :
  other <> uploadId ->
  let w' := world_of (databaseService.deleteChunks uploadId w) in
  result_of (databaseService.loadChunks uploadId w') = Ok []
  /\ (exists before after,
        result_of (databaseService.loadChunks other w) = Ok before
        /\ result_of (databaseService.loadChunks other w') = Ok after
        /\ after ≡ₚ before)
  /\ uploadsStore w' = uploadsStore w.
Proof.
  intros Hne. cbn. repeat split.
  - f_equal. apply deleteChunks_purges.
  - eexists _, _. split; [reflexivity|]. split; [reflexivity|].
    rewrite foldl_delete_filter. unfold databaseService.index_getAll,
      databaseService.entries.
    rewrite !merge_sort_Permutation, map_to_list_filter_perm.
    rewrite (filter_values_of_kept (fun c => ch_uploadId c = other)
               (fun kv => ch_uploadId (snd kv) <> uploadId)).
    + reflexivity.
    + intros kv Hk. congruence.
Qed.

Lemma deleteChunks_only_of_that_upload_witness :
  "u2" <> "u1"
  /\ result_of (databaseService.loadChunks "u1"
       (world_of (databaseService.deleteChunks "u1"
          (with_chunksStore (fun m => <["c1" := Examples.chunk1]> m)
             (Examples.fresh []))))) = Ok [].
Proof.
  split; [discriminate|].
  apply (deleteChunks_only_of_that_upload "u1" "u2"
           (with_chunksStore (fun m => <["c1" := Examples.chunk1]> m)
              (Examples.fresh []))).
  discriminate.
Defined.

(** X3. [saveChunk] is an upsert on the chunk's [id]: afterwards the
    chunks [loadChunks] returns for an upload are the saved chunk, if it
    belongs to that upload, together with the chunks of that upload stored
    before under any other [id]. A chunk stored earlier under the same [id]
    is replaced. *)
Theorem saveChunk_upsert (chunk x : UploadChunk) (uploadId : string)
    (w : World) :
  exists after,
    result_of (databaseService.loadChunks uploadId
                 (world_of (databaseService.saveChunk chunk w))) = Ok after
    /\ (x ∈ after <->
        (x = chunk /\ ch_uploadId chunk = uploadId)
        \/ (exists k, k <> ch_id chunk /\ chunksStore w !! k = Some x
                      /\ ch_uploadId x = uploadId)).
Proof.
  eexists. split; [reflexivity|]. cbn.
  unfold databaseService.index_getAll.
  rewrite list_elem_of_filter, list_elem_of_fmap. split.
  - intros (Hu & [k v] & -> & Hin). apply elem_of_entries in Hin.
    simpl in *. destruct (decide (k = ch_id chunk)) as [->|Hne].
    + rewrite lookup_insert_eq in Hin. injection Hin as <-. left. auto.
    + rewrite lookup_insert_ne in Hin by congruence. right. eauto.
  - intros [[-> Hu]|(k & Hne & Hk & Hu)].
    + split; [exact Hu|]. exists (ch_id chunk, chunk). split; [reflexivity|].
      apply elem_of_entries. apply lookup_insert_eq.
    + split; [exact Hu|]. exists (k, x). split; [reflexivity|].
      apply elem_of_entries. rewrite lookup_insert_ne by congruence.
      exact Hk.
Qed.

(** ** Outcomes of the handlers *)

(** X4. PAUSE_UPLOAD for an active upload fires the upload's abort
    token, marks the shared state object as paused, persists that state
    under its [id], announces UPLOAD_PAUSED and drops the upload from the
    registry of active uploads; it issues no request and leaves the chunks
    alone. *)
Theorem handlePause_active_outcome (contentId : string)
    (upload : ActiveUpload) (w : World) :
  activeUploads w !! contentId = Some upload ->
  let state := heap w (au_state upload) in
  let run := UploadHandler.handlePause contentId w in
  let w' := world_of run in
  result_of run = Ok tt
  /\ aborted w' (au_controller upload) = true
  /\ heap w' (au_state upload) = set_status paused state
  /\ uploadsStore w'
     = <[st_id state := set_status paused state]> (uploadsStore w)
  /\ activeUploads w' = delete contentId (activeUploads w)
  /\ chunksStore w' = chunksStore w
  /\ network w' = network w
  /\ messages_of (events_of run) = [UPLOAD_PAUSED contentId].
Proof.
  intros Hactive. unfold UploadHandler.handlePause, handlePause.
  cbn. rewrite Hactive. cbn.
  unfold fn_update. rewrite !Nat.eqb_refl. repeat split.
Qed.

Lemma handlePause_active_witness :
  let w := Examples.active (Examples.stored in_progress []) [] in
  activeUploads w !! "srv-1"
  = Some {| au_state := 0%nat; au_controller := 0%nat |}
  /\ result_of (UploadHandler.handlePause "srv-1" w) = Ok tt
  /\ aborted (world_of (UploadHandler.handlePause "srv-1" w)) 0%nat = true.
Proof.
  split; [reflexivity|].
  pose proof (handlePause_active_outcome "srv-1"
                {| au_state := 0%nat; au_controller := 0%nat |}
                (Examples.active (Examples.stored in_progress []) [])
                eq_refl) as H.
  split; [apply H|apply H].
Defined.

(** X5. [handleUploadError] always answers with exactly one UPLOAD_ERROR
    message whose [retryable] flag tells whether the error is a
    [RetryableError]. For an upload in the registry it records status
    [error] and the error message on the shared state object, persists
    that state and drops the upload from the registry; for an upload that
    is not registered nothing is stored or changed. It never fires the
    abort token and issues no request. *)
Theorem handleUploadError_outcome (contentId : string) (err : Err)
    (w : World) :
  let run := UploadHandler.handleUploadError contentId err w in
  let w' := world_of run in
  result_of run = Ok tt
  /\ messages_of (events_of run)
     = [UPLOAD_ERROR contentId (errorMessage err) (isRetryableError err)]
  /\ aborted w' = aborted w
  /\ network w' = network w
  /\ chunksStore w' = chunksStore w
  /\ activeUploads w' !! contentId = None
  /\ match activeUploads w !! contentId with
     | Some upload =>
         let failed :=
           set_error (errorMessage err)
             (set_status error (heap w (au_state upload))) in
         heap w' (au_state upload) = failed
         /\ uploadsStore w' = <[st_id failed := failed]> (uploadsStore w)
     | None => w' = w
     end.
Proof.
  unfold UploadHandler.handleUploadError. cbn.
  destruct (activeUploads w !! contentId) as [upload|] eqn:Hactive; cbn.
  - unfold fn_update. rewrite !Nat.eqb_refl.
    repeat split. apply lookup_delete_eq.
  - repeat split. exact Hactive.
Qed.

(** A request that is answered is answered once: whatever the status of
    the response, it is returned to the caller. *)
Lemma fetchWithRetry_responds req retries abortSignal w response rest :
  signal_aborted abortSignal w = false ->
  network w = Responds response :: rest ->
  ApiClient.fetchWithRetry req retries abortSignal w
  = (Ok response, with_network rest w, [FetchBegin req; FetchEnd req]).
Proof.
  intros Hlive Hnet.
  destruct retries; cbn; unfold ApiClient.fetchWithTimeout, try_catch, fetch;
    rewrite Hlive, Hnet; reflexivity.
Qed.

Lemma completeMultipartUpload_run key uploadId contentId parts w response
    rest :
  network w = Responds response :: rest ->
  ApiClient.completeMultipartUpload key uploadId contentId parts w
  = (if resp_ok response then Ok (resp_json response)
     else Throw (FatalError "Failed to complete multipart upload"),
     with_network rest w,
     [FetchBegin (ReqComplete key uploadId contentId parts
                    (match truthy (accelerationEndpoint w) with
                     | Some _ => true | None => false end));
      FetchEnd (ReqComplete key uploadId contentId parts
                  (match truthy (accelerationEndpoint w) with
                   | Some _ => true | None => false end))]).
Proof.
  intros Hnet. unfold ApiClient.completeMultipartUpload.
  rewrite bind_run. unfold ApiClient.acceleration_on at 1.
  cbn [bind get_world ret]. rewrite bind_run.
  rewrite (fetchWithRetry_responds _ _ None w response rest eq_refl Hnet).
  destruct (resp_ok response); reflexivity.
Qed.


(** X6. When the completion request is answered with a success status
    and a location, [completeUpload] marks the shared state object as
    completed with that location, persists it under its [id], announces
    UPLOAD_COMPLETE with the elapsed time since [startTime] and the file
    size, and drops the upload from the registry. *)
Theorem completeUpload_success (uploadState : nat) (contentId : string)
    (response : Response) (location : string) (rest : list FetchOutcome)
    (w : World) :
  truthy (st_contentId (heap w uploadState)) = Some contentId ->
  network w = Responds response :: rest ->
  resp_ok response = true ->
  resp_json response = JComplete location ->
  let state := heap w uploadState in
  let done := set_fileUrl (Some location) (set_status completed state) in
  let run := UploadHandler.completeUpload uploadState w in
  let w' := world_of run in
  result_of run = Ok tt
  /\ heap w' uploadState = done
  /\ uploadsStore w' = <[st_id state := done]> (uploadsStore w)
  /\ activeUploads w' = delete contentId (activeUploads w)
  /\ network w' = rest
  /\ messages_of (events_of run)
     = [UPLOAD_COMPLETE contentId (Some location)
          (clock w - st_startTime state) (st_fileSize state)].
Proof.
  intros Hid Hnet Hok Hjson.
  unfold UploadHandler.completeUpload.
  rewrite bind_run, read_object_run, Hid, bind_run, broadcastLog_run,
    bind_run, (completeMultipartUpload_run _ _ _ _ _ _ _ Hnet), Hok, Hjson.
  cbn. unfold fn_update. rewrite !Nat.eqb_refl. repeat split.
Qed.

Lemma completeUpload_success_witness :
  let w := Examples.active (Examples.stored in_progress [])
             [Examples.json (JComplete "https://media/k1")] in
  truthy (st_contentId (heap w 0%nat)) = Some "srv-1"
  /\ result_of (UploadHandler.completeUpload 0 w) = Ok tt.
Proof.
  split; [reflexivity|].
  apply (completeUpload_success 0 "srv-1"
           {| resp_ok := true; resp_ETag := None;
              resp_json := JComplete "https://media/k1" |}
           "https://media/k1" []
           (Examples.active (Examples.stored in_progress [])
              [Examples.json (JComplete "https://media/k1")]));
    reflexivity.
Defined.

(** X7. When the completion request is answered with an error status,
    [completeUpload] throws a [FatalError] and nothing else happens: the
    state object keeps its status, nothing is persisted, no UPLOAD_COMPLETE
    and no UPLOAD_ERROR is sent, the request is not repeated, and the
    upload stays in the registry of active uploads. *)
Theorem completeUpload_rejected (uploadState : nat) (contentId : string)
    (response : Response) (rest : list FetchOutcome) (w : World) :
  truthy (st_contentId (heap w uploadState)) = Some contentId ->
  network w = Responds response :: rest ->
  resp_ok response = false ->
  let run := UploadHandler.completeUpload uploadState w in
  let w' := world_of run in
  result_of run = Throw (FatalError "Failed to complete multipart upload")
  /\ heap w' = heap w
  /\ uploadsStore w' = uploadsStore w
  /\ activeUploads w' = activeUploads w
  /\ network w' = rest
  /\ messages_of (events_of run) = [].
Proof.
  intros Hid Hnet Hok.
  unfold UploadHandler.completeUpload.
  rewrite bind_run, read_object_run, Hid, bind_run, broadcastLog_run,
    bind_run, (completeMultipartUpload_run _ _ _ _ _ _ _ Hnet), Hok.
  cbn. repeat split.
Qed.

Lemma completeUpload_rejected_witness :
  let w := Examples.active (Examples.stored in_progress [])
             [Examples.status_503] in
  truthy (st_contentId (heap w 0%nat)) = Some "srv-1"
  /\ activeUploads (world_of (UploadHandler.completeUpload 0 w))
     = activeUploads w.
Proof.
  split; [reflexivity|].
  apply (completeUpload_rejected 0 "srv-1"
           {| resp_ok := false; resp_ETag := None; resp_json := JNone |} []
           (Examples.active (Examples.stored in_progress [])
              [Examples.status_503]));
    reflexivity.
Defined.

Lemma randomUUID_run w :
  exists u w1,
    randomUUID w = (Ok u, w1, [])
    /\ network w1 = network w /\ uploadsStore w1 = uploadsStore w
    /\ activeUploads w1 = activeUploads w.
Proof.
  unfold randomUUID. destruct (uuids w); eexists _, _; repeat split.
Qed.

Lemma initiateMultipartUpload_rejected file duration fileType w response
    rest :
  network w = Responds response :: rest ->
  resp_ok response = false ->
  ApiClient.initiateMultipartUpload file duration fileType w
  = (Throw (FatalError "Failed to initiate multipart upload"),
     with_network rest w,
     [FetchBegin (ReqInitiate (file_name file) fileType (file_size file)
                    duration
                    (ApiClient.shouldUseAcceleration (file_size file)));
      FetchEnd (ReqInitiate (file_name file) fileType (file_size file)
                  duration
                  (ApiClient.shouldUseAcceleration (file_size file)))]).
Proof.
  intros Hnet Hok. unfold ApiClient.initiateMultipartUpload.
  rewrite bind_run.
  rewrite (fetchWithRetry_responds _ _ None w response rest eq_refl Hnet).
  rewrite Hok. reflexivity.
Qed.


(** X8. A START_UPLOAD whose initiate request is answered with an error
    status fails with a [FatalError] before any state exists: nothing is
    persisted or registered, no INITIATE_UPLOAD_RESPONSE and no
    UPLOAD_ERROR is sent, and the request is not repeated. *)
Theorem start_upload_initiate_rejected (file : File) (duration : Z)
    (fileType : string) (chunkConfig : option ChunkConfig)
    (response : Response) (rest : list FetchOutcome) (w : World) :
  network w = Responds response :: rest ->
  resp_ok response = false ->
  let run :=
    UploadHandler.handleUpload
      (START_UPLOAD file duration fileType chunkConfig) w in
  let w' := world_of run in
  result_of run = Throw (FatalError "Failed to initiate multipart upload")
  /\ uploadsStore w' = uploadsStore w
  /\ activeUploads w' = activeUploads w
  /\ network w' = rest
  /\ messages_of (events_of run) = [].
Proof.
  intros Hnet Hok.
  unfold UploadHandler.handleUpload, UploadHandler.initializeNewUpload.
  destruct (randomUUID_run w) as (u & w1 & Hu & Hn & Hs & Ha).
  rewrite bind_run, bind_run, Hu, bind_run, broadcastLog_run, bind_run.
  rewrite (initiateMultipartUpload_rejected _ _ _ w1 response rest)
    by congruence.
  cbn. rewrite Hs, Ha. repeat split.
Qed.

Lemma start_upload_initiate_rejected_witness :
  network (Examples.fresh [Examples.status_503])
  = [Examples.status_503]
  /\ result_of (UploadHandler.handleUpload Examples.start_tiny
                  (Examples.fresh [Examples.status_503]))
     = Throw (FatalError "Failed to initiate multipart upload").
Proof.
  split; [reflexivity|].
  apply (start_upload_initiate_rejected Examples.tiny 7 "video/mp4"
           Examples.four_parts
           {| resp_ok := false; resp_ETag := None; resp_json := JNone |} []
           (Examples.fresh [Examples.status_503])); reflexivity.
Defined.

(** ** Requests and retries of the client *)

Lemma handlePause_noise cid w :
  Forall (fun e => pause_noise e = true) (events_of (handlePause cid w)).
Proof.
  unfold handlePause, bind, get_world. simpl.
  destruct (activeUploads w !! cid); simpl; repeat constructor.
Qed.

Lemma settle_noise abortSignal script w :
  Forall (fun e => pause_noise e = true)
    (events_of (settle abortSignal script w)).
Proof.
  revert w. induction script as [|o script IH]; intros w; simpl.
  - constructor.
  - destruct o as [r| | |cid]; simpl; try constructor.
    pose proof (handlePause_noise cid (with_network script w)) as Hp.
    destruct (handlePause cid (with_network script w)) as [[r1 w1] e1].
    simpl in Hp. destruct (signal_aborted abortSignal w1); simpl; [exact Hp|].
    specialize (IH w1). destruct (settle abortSignal script w1) as [[r2 w2] e2].
    simpl in *. apply Forall_app; split; assumption.
Qed.

Lemma noise_requests_sleeps evs :
  Forall (fun e => pause_noise e = true) evs ->
  requests_begun evs = [] /\ sleeps_of evs = [].
Proof.
  induction 1 as [|e evs He _ [IH1 IH2]]; [split; reflexivity|].
  destruct e as [[]| | |]; try discriminate; cbn; auto.
Qed.

Lemma requests_begun_app a b :
  requests_begun (a ++ b) = requests_begun a ++ requests_begun b.
Proof. apply omap_app. Qed.

Lemma sleeps_of_app a b : sleeps_of (a ++ b) = sleeps_of a ++ sleeps_of b.
Proof. apply omap_app. Qed.

Lemma requests_begun_sleep d evs :
  requests_begun (Sleep d :: evs) = requests_begun evs.
Proof. reflexivity. Qed.

Lemma sleeps_of_sleep d evs : sleeps_of (Sleep d :: evs) = d :: sleeps_of evs.
Proof. reflexivity. Qed.

(** One call of [fetchWithTimeout] issues the request once, or not at all
    when the caller's token has fired, and never sleeps. *)
Lemma fetchWithTimeout_once req abortSignal w :
  sleeps_of (events_of (ApiClient.fetchWithTimeout req abortSignal w)) = []
  /\ (requests_begun (events_of (ApiClient.fetchWithTimeout req abortSignal w))
      = if signal_aborted abortSignal w then [] else [req]).
Proof.
  unfold ApiClient.fetchWithTimeout. rewrite try_catch_events.
  assert (forall e w',
    events_of ((if isAbortError e
                then throw (RetryableError "Request timed out")
                else @throw Response e) w') = []) as Hh.
  { intros e w'. destruct (isAbortError e); reflexivity. }
  destruct (result_of (fetch req abortSignal w));
    [rewrite app_nil_r|rewrite Hh, app_nil_r];
    unfold fetch; destruct (signal_aborted abortSignal w);
    try (split; reflexivity);
    pose proof (settle_noise abortSignal (network w) w) as Hn;
    destruct (settle abortSignal (network w) w) as [[r1 w1] e1];
    cbn in *; apply noise_requests_sleeps in Hn as [Hr Hs];
    rewrite sleeps_of_app, requests_begun_app, Hr, Hs; split; reflexivity.
Qed.

(** The requests and sleeps of [fetchWithRetry]; the request is issued
    at least once unless the caller's signal has fired before the call. *)
Lemma fetchWithRetry_counts (req : Request) (retries : nat)
    (abortSignal : option nat) (w : World) :
  let run := ApiClient.fetchWithRetry req retries abortSignal w in
  exists n k : nat,
    requests_begun (events_of run) = replicate n req
    /\ sleeps_of (events_of run) = replicate k CONFIG.RETRY.DELAY
    /\ (k <= retries)%nat
    /\ (n <= S k)%nat
    /\ (forall message, result_of run = Throw (RetryableError message) ->
        k = retries)
    /\ (signal_aborted abortSignal w = false -> (1 <= n)%nat).
Proof.
  revert w. induction retries as [|retries IH]; intros w; cbn zeta.
  - cbn [ApiClient.fetchWithRetry].
    rewrite try_catch_events, try_catch_result.
    destruct (fetchWithTimeout_once req abortSignal w) as [Hs Hr].
    exists (if signal_aborted abortSignal w then 0%nat else 1%nat), 0%nat.
    destruct (result_of (ApiClient.fetchWithTimeout req abortSignal w));
      cbn [throw events_of result_of fst snd]; rewrite app_nil_r, Hs, Hr;
      destruct (signal_aborted abortSignal w); repeat split; auto;
      discriminate.
  - cbn [ApiClient.fetchWithRetry].
    rewrite try_catch_events, try_catch_result.
    destruct (fetchWithTimeout_once req abortSignal w) as [Hs Hr].
    destruct (result_of (ApiClient.fetchWithTimeout req abortSignal w))
      as [response|e].
    + exists (if signal_aborted abortSignal w then 0%nat else 1%nat), 0%nat.
      rewrite app_nil_r, Hs, Hr.
      destruct (signal_aborted abortSignal w); repeat split;
        try lia; discriminate.
    + destruct (isRetryableError e) eqn:He.
      * set (w1 := world_of (ApiClient.fetchWithTimeout req abortSignal w)).
        rewrite bind_events, bind_result.
        cbn [sleep bind emit update_world events_of result_of world_of
               fst snd app].
        destruct (IH (with_clock (clock w1 + CONFIG.RETRY.DELAY) w1))
          as (n & k & Hn & Hk & Hle & Hnk & Hthrow & _).
        exists ((if signal_aborted abortSignal w then 0 else 1) + n)%nat,
          (S k).
        rewrite requests_begun_app, sleeps_of_app, Hs, Hr.
        rewrite requests_begun_sleep, sleeps_of_sleep, Hn, Hk.
        split; [destruct (signal_aborted abortSignal w); reflexivity|].
        split; [reflexivity|]. split; [lia|].
        split; [destruct (signal_aborted abortSignal w); lia|].
        split; [intros message Hm; f_equal; eapply Hthrow, Hm|].
        intros ->. lia.
      * exists (if signal_aborted abortSignal w then 0%nat else 1%nat), 0%nat.
        cbn [throw events_of result_of fst snd].
        rewrite app_nil_r, Hs, Hr.
        destruct (signal_aborted abortSignal w); repeat split; try lia;
          try discriminate; intros message [= ->]; discriminate.
Qed.

(** X9. Whatever the network does, [fetchWithRetry] issues only the
    request it was given, at most [retries + 1] times, sleeps exactly
    [CONFIG.RETRY.DELAY] before every repetition and at most [retries]
    times, and gives up with a [RetryableError] only when that budget is
    used up. *)
Theorem fetchWithRetry_bounded (req : Request) (retries : nat)
    (abortSignal : option nat) (w : World) :
  let run := ApiClient.fetchWithRetry req retries abortSignal w in
  exists n k : nat,
    requests_begun (events_of run) = replicate n req
    /\ sleeps_of (events_of run) = replicate k CONFIG.RETRY.DELAY
    /\ (k <= retries)%nat
    /\ (n <= S k)%nat
    /\ (forall message, result_of run = Throw (RetryableError message) ->
        k = retries).
Proof.
  destruct (fetchWithRetry_counts req retries abortSignal w)
    as (n & k & Hn & Hk & Hle & Hnk & Hthrow & _).
  exists n, k. auto.
Qed.

(** X10. A request that is answered, with whatever status, or that fails
    in transport is issued exactly once by [fetchWithRetry]: the response
    is returned, or the transport error is thrown, without a sleep and
    without a repetition. *)
Theorem fetchWithRetry_answer_not_retried (req : Request) (retries : nat)
    (abortSignal : option nat) (w : World) (outcome : FetchOutcome)
    (rest : list FetchOutcome) :
  signal_aborted abortSignal w = false ->
  network w = outcome :: rest ->
  match outcome with Responds _ | NetworkFails => True | _ => False end ->
  ApiClient.fetchWithRetry req retries abortSignal w
  = (match outcome with
     | Responds response => Ok response
     | _ => Throw (TypeError "Failed to fetch")
     end, with_network rest w, [FetchBegin req; FetchEnd req]).
Proof.
  intros Hlive Hnet Hout. destruct outcome as [response| | |cid];
    try destruct Hout.
  - apply fetchWithRetry_responds; assumption.
  - destruct retries; cbn;
      unfold ApiClient.fetchWithTimeout, try_catch, fetch;
      rewrite Hlive, Hnet; reflexivity.
Qed.

Lemma fetchWithRetry_answer_not_retried_witness :
  ApiClient.fetchWithRetry (ReqListParts "k1" "u1") CONFIG.RETRY.ATTEMPTS
    None (Examples.fresh [Examples.status_503])
  = (Ok {| resp_ok := false; resp_ETag := None; resp_json := JNone |},
     with_network [] (Examples.fresh [Examples.status_503]),
     [FetchBegin (ReqListParts "k1" "u1"); FetchEnd (ReqListParts "k1" "u1")]).
Proof.
  apply (fetchWithRetry_answer_not_retried (ReqListParts "k1" "u1")
           CONFIG.RETRY.ATTEMPTS None (Examples.fresh [Examples.status_503])
           Examples.status_503 []); [reflexivity|reflexivity|exact I].
Defined.

Lemma fetchWithTimeout_timesout req abortSignal w rest :
  signal_aborted abortSignal w = false ->
  network w = TimesOut :: rest ->
  ApiClient.fetchWithTimeout req abortSignal w
  = (Throw (RetryableError "Request timed out"), with_network rest w,
     [FetchBegin req; FetchEnd req]).
Proof.
  intros Hlive Hnet. unfold ApiClient.fetchWithTimeout, try_catch, fetch.
  rewrite Hlive, Hnet. reflexivity.
Qed.

Lemma fetchWithRetry_after_timeout req retries abortSignal w rest :
  signal_aborted abortSignal w = false ->
  network w = TimesOut :: rest ->
  ApiClient.fetchWithRetry req (S retries) abortSignal w
  = match ApiClient.fetchWithRetry req retries abortSignal
            (with_clock (clock w + CONFIG.RETRY.DELAY) (with_network rest w))
    with
    | (r, w', evs) =>
        (r, w', FetchBegin req :: FetchEnd req
                  :: Sleep CONFIG.RETRY.DELAY :: evs)
    end.
Proof.
  intros Hlive Hnet. cbn [ApiClient.fetchWithRetry]. unfold try_catch at 1.
  rewrite (fetchWithTimeout_timesout _ _ _ _ Hlive Hnet).
  cbn [isRetryableError]. unfold bind at 1, sleep, bind at 1.
  cbn [emit update_world].
  destruct (ApiClient.fetchWithRetry req retries abortSignal _)
    as [[r w'] evs]. reflexivity.
Qed.

Lemma signal_aborted_later abortSignal w c rest :
  signal_aborted abortSignal (with_clock c (with_network rest w))
  = signal_aborted abortSignal w.
Proof. destruct abortSignal; reflexivity. Qed.



(** X12. When the timer fires [retries + 1] times in a row,
    [fetchWithRetry] gives up with the error "Request timed out" after
    [retries + 1] requests and [retries] sleeps, leaving the rest of the
    network script unconsumed. *)
Theorem fetchWithRetry_exhausted_by_timeouts (req : Request) (retries : nat)
    (abortSignal : option nat) (w : World) (rest : list FetchOutcome) :
  signal_aborted abortSignal w = false ->
  network w = replicate (S retries) TimesOut ++ rest ->
  let run := ApiClient.fetchWithRetry req retries abortSignal w in
  result_of run = Throw (RetryableError "Request timed out")
  /\ network (world_of run) = rest
  /\ requests_begun (events_of run) = replicate (S retries) req
  /\ sleeps_of (events_of run) = replicate retries CONFIG.RETRY.DELAY.
Proof.
  revert w. induction retries as [|retries IH]; intros w Hlive Hnet.
  - cbn zeta. cbn [ApiClient.fetchWithRetry]. unfold try_catch.
    rewrite (fetchWithTimeout_timesout _ _ _ _ Hlive Hnet). cbn.
    repeat split.
  - cbn zeta. rewrite (fetchWithRetry_after_timeout _ _ _ _ _ Hlive Hnet).
    specialize (IH (with_clock (clock w + CONFIG.RETRY.DELAY)
                      (with_network (replicate (S retries) TimesOut ++ rest)
                         w))).
    cbn zeta in IH.
    destruct (ApiClient.fetchWithRetry req retries abortSignal _)
      as [[r w'] evs].
    destruct IH as (Hr & Hn & Hb & Hs);
      [rewrite signal_aborted_later; exact Hlive|reflexivity|].
    cbn in *. repeat split; try assumption.
    + f_equal. exact Hb.
    + f_equal. exact Hs.
Qed.

Lemma fetchWithRetry_exhausted_witness :
  let w := Examples.fresh [TimesOut; TimesOut; TimesOut; TimesOut;
                           Examples.initiated] in
  network w = replicate (S CONFIG.RETRY.ATTEMPTS) TimesOut
              ++ [Examples.initiated]
  /\ result_of (ApiClient.fetchWithRetry (ReqListParts "k1" "u1")
                  CONFIG.RETRY.ATTEMPTS None w)
     = Throw (RetryableError "Request timed out").
Proof.
  split; [reflexivity|].
  apply (fetchWithRetry_exhausted_by_timeouts (ReqListParts "k1" "u1")
           CONFIG.RETRY.ATTEMPTS None
           (Examples.fresh [TimesOut; TimesOut; TimesOut; TimesOut;
                            Examples.initiated])
           [Examples.initiated]); reflexivity.
Defined.

(** ** Uploading one part *)

Lemma getSignedUrl_answered partNumber uploadId key w response rest :
  network w = Responds response :: rest ->
  resp_ok response = true ->
  ApiClient.getSignedUrl partNumber uploadId key w
  = (Ok (json_signedUrl (resp_json response)), with_network rest w,
     [FetchBegin (ReqSignedUrl partNumber uploadId key
                    (match truthy (accelerationEndpoint w) with
                     | Some _ => true | None => false end));
      FetchEnd (ReqSignedUrl partNumber uploadId key
                  (match truthy (accelerationEndpoint w) with
                   | Some _ => true | None => false end))]).
Proof.
  intros Hnet Hok. unfold ApiClient.getSignedUrl.
  rewrite bind_run. unfold ApiClient.acceleration_on at 1.
  cbn [bind get_world ret]. rewrite bind_run.
  rewrite (fetchWithRetry_responds _ _ None w response rest eq_refl Hnet).
  rewrite Hok. reflexivity.
Qed.

(** X13. A part PUT that is answered with a success status but without
    an [ETag] header (or with an empty one) fails the part at once: the
    part driver throws a plain [Error] naming the part, announces no
    retry, does not sleep and issues no further request. *)
Theorem uploadPart_missing_etag_not_retried (contentId key uploadId : string)
    (partNumber : Z) (chunk : Blob) (abortSignal : nat) (w : World)
    (signedResponse putResponse : Response) (n : Z) (url : string)
    (rest : list FetchOutcome) :
  aborted w abortSignal = false ->
  network w = Responds signedResponse :: Responds putResponse :: rest ->
  resp_ok signedResponse = true ->
  resp_json signedResponse = JSignedUrl n url ->
  resp_ok putResponse = true ->
  truthy (resp_ETag putResponse) = None ->
  let run :=
    UploadHandler.uploadPart contentId key uploadId partNumber chunk
      abortSignal w in
  result_of run
  = Throw (Error ("No ETag received for part " +:+ show partNumber))
  /\ network (world_of run) = rest
  /\ retries_of (events_of run) = []
  /\ sleeps_of (events_of run) = []
  /\ requests_begun (events_of run)
     = [ReqSignedUrl partNumber uploadId key
          (match truthy (accelerationEndpoint w) with
           | Some _ => true | None => false end);
        ReqPut (ApiClient.transformToAcceleratedUrl (accelerationEndpoint w)
                  url) (blob_size chunk)].
Proof.
  intros Hlive Hnet Hok1 Hjson Hok2 Hetag. cbn zeta.
  unfold UploadHandler.uploadPart. rewrite uploadPart_from_unfold.
  unfold try_catch, attempt. rewrite bind_run.
  unfold ApiClient.uploadPart. rewrite bind_run.
  rewrite (getSignedUrl_answered _ _ _ _ _ _ Hnet Hok1), Hjson.
  rewrite bind_run. cbn [get_world json_signedUrl]. rewrite bind_run.
  cbn [ret url_string]. rewrite bind_run.
  rewrite (fetchWithRetry_responds _ _ (Some abortSignal)
             (with_network (Responds putResponse :: rest) w) putResponse rest
             Hlive eq_refl).
  rewrite Hok2. cbn [negb]. rewrite Hetag.
  cbn. repeat split.
Qed.

Lemma uploadPart_missing_etag_witness :
  let w := Examples.active (Examples.stored in_progress [])
             [Examples.signed 1; Examples.json JNone] in
  aborted w 0%nat = false
  /\ result_of (UploadHandler.uploadPart "srv-1" "k1" "u1" 1
                  {| blob_size := 10 |} 0 w)
     = Throw (Error ("No ETag received for part " +:+ show 1)).
Proof.
  split; [reflexivity|].
  apply (uploadPart_missing_etag_not_retried "srv-1" "k1" "u1" 1
           {| blob_size := 10 |} 0
           (Examples.active (Examples.stored in_progress [])
              [Examples.signed 1; Examples.json JNone])
           {| resp_ok := true; resp_ETag := None;
              resp_json := JSignedUrl 1
                ("https://media.s3.eu-west-1.amazonaws.com/k1?partNumber="
                 +:+ show 1) |}
           {| resp_ok := true; resp_ETag := None; resp_json := JNone |}
           1 ("https://media.s3.eu-west-1.amazonaws.com/k1?partNumber="
              +:+ show 1) []); reflexivity.
Defined.

Lemma strip_quotes_clean s :
  "034"%char ∉ String.list_ascii_of_string (strip_quotes s).
Proof.
  induction s as [|c s IH]; cbn.
  - apply not_elem_of_nil.
  - destruct (Ascii.eqb c "034"%char) eqn:Hc; [exact IH|].
    cbn. apply not_elem_of_cons. split; [|exact IH].
    intros <-. rewrite Ascii.eqb_refl in Hc. discriminate.
Qed.

(** X14. The part record a successful [ApiClient.uploadPart] returns
    carries the part number it was asked for and the size of the chunk it
    sent, and its [eTag] contains no double-quote character. *)
Theorem api_uploadPart_record (key uploadId : string) (partNumber : Z)
    (chunk : Blob) (abortSignal : nat) (w : World) (part : UploadPart) :
  result_of (ApiClient.uploadPart key uploadId partNumber chunk abortSignal w)
  = Ok part ->
  p_partNumber part = partNumber
  /\ p_size part = Some (blob_size chunk)
  /\ "034"%char ∉ String.list_ascii_of_string (p_eTag part).
Proof.
  unfold ApiClient.uploadPart. rewrite bind_result.
  destruct (result_of (ApiClient.getSignedUrl partNumber uploadId key w))
    as [signedUrl|e]; [|discriminate].
  rewrite bind_result. cbn [get_world result_of world_of fst snd].
  rewrite bind_result.
  set (w1 := world_of (ApiClient.getSignedUrl partNumber uploadId key w)).
  assert (forall uploadUrl,
    result_of
      ((response <- ApiClient.fetchWithRetry
                      (ReqPut (url_string uploadUrl) (blob_size chunk))
                      CONFIG.RETRY.ATTEMPTS (Some abortSignal);;
        if negb (resp_ok response)
        then throw (RetryableError
                      ("Failed to upload part " +:+ show partNumber))
        else
          match truthy (resp_ETag response) with
          | None => throw (Error ("No ETag received for part "
                                  +:+ show partNumber))
          | Some eTag =>
              ret {| p_partNumber := partNumber;
                     p_eTag := strip_quotes eTag;
                     p_size := Some (blob_size chunk) |}
          end) w1) = Ok part ->
    p_partNumber part = partNumber
    /\ p_size part = Some (blob_size chunk)
    /\ "034"%char ∉ String.list_ascii_of_string (p_eTag part)) as Hput.
  { intros uploadUrl. rewrite bind_result.
    destruct (result_of (ApiClient.fetchWithRetry _ _ _ _)) as [response|e];
      [|discriminate].
    destruct (negb (resp_ok response)); [discriminate|].
    destruct (truthy (resp_ETag response)) as [eTag|]; [|discriminate].
    cbn. intros [= <-]. cbn. repeat split. apply strip_quotes_clean. }
  destruct signedUrl as [url|];
    [|destruct (truthy (accelerationEndpoint w1)); [discriminate|]];
    cbn [ret result_of world_of fst snd]; apply Hput.
Qed.

Lemma api_uploadPart_record_witness :
  let run :=
    ApiClient.uploadPart "k1" "u1" 1 {| blob_size := 10 |} 0
      (Examples.active (Examples.stored in_progress [])
         [Examples.signed 1; Examples.put_ok "e1"]) in
  result_of run
  = Ok {| p_partNumber := 1; p_eTag := "e1"; p_size := Some 10 |}
  /\ p_partNumber {| p_partNumber := 1; p_eTag := "e1"; p_size := Some 10 |}
     = 1.
Proof.
  split; [reflexivity|].
  apply (api_uploadPart_record "k1" "u1" 1 {| blob_size := 10 |} 0
           (Examples.active (Examples.stored in_progress [])
              [Examples.signed 1; Examples.put_ok "e1"])
           {| p_partNumber := 1; p_eTag := "e1"; p_size := Some 10 |}).
  reflexivity.
Defined.

(** ** Events of the operations, one by one *)

Section Every.
Context {P : Event -> Prop} {okR : Request -> Prop} (L : event_laws P okR).

Local Abbreviation every := (produces (Forall P)).

Lemma every_silent {A} (m : M A) :
  (forall w, events_of (m w) = []) -> every m.
Proof. intros H w. rewrite H. constructor. Qed.

Lemma every_bind {A B} (m : M A) (k : A -> M B) :
  every m -> (forall a, every (k a)) -> every (bind m k).
Proof.
  intros Hm Hk w. rewrite bind_events. apply Forall_app. split; [apply Hm|].
  destruct (result_of (m w)); [apply Hk|constructor].
Qed.

Lemma every_try_catch {A} (m : M A) (h : Err -> M A) :
  every m -> (forall e, every (h e)) -> every (try_catch m h).
Proof.
  intros Hm Hh w. rewrite try_catch_events. apply Forall_app.
  split; [apply Hm|]. destruct (result_of (m w)); [constructor|apply Hh].
Qed.

Lemma every_emit e : P e -> every (emit e).
Proof. intros He w. repeat constructor. exact He. Qed.

Lemma every_sleep d : every (sleep d).
Proof. intros w. repeat constructor. apply (el_sleep _ _ L). Qed.

Lemma every_fetch req abortSignal : okR req -> every (fetch req abortSignal).
Proof.
  intros Hreq w. unfold fetch. destruct (signal_aborted abortSignal w);
    [constructor|].
  pose proof (settle_noise abortSignal (network w) w) as Hn.
  destruct (settle abortSignal (network w) w) as [[r w1] e1]. cbn in *.
  destruct (el_request _ _ L req Hreq) as [Hb He].
  constructor; [exact Hb|]. apply Forall_app. split.
  - eapply Forall_impl; [exact Hn|]. apply (el_noise _ _ L).
  - repeat constructor. exact He.
Qed.

Lemma every_fetchWithTimeout req abortSignal :
  okR req -> every (ApiClient.fetchWithTimeout req abortSignal).
Proof.
  intros Hreq. apply every_try_catch; [apply every_fetch, Hreq|].
  intros e. apply every_silent. intros w.
  destruct (isAbortError e); reflexivity.
Qed.

Lemma every_fetchWithRetry req retries abortSignal :
  okR req -> every (ApiClient.fetchWithRetry req retries abortSignal).
Proof.
  intros Hreq. induction retries as [|retries IH]; cbn.
  - apply every_try_catch; [apply every_fetchWithTimeout, Hreq|].
    intros e. apply every_silent. reflexivity.
  - apply every_try_catch; [apply every_fetchWithTimeout, Hreq|].
    intros e. destruct (isRetryableError e).
    + apply every_bind; [apply every_sleep|intros _; exact IH].
    + apply every_silent. reflexivity.
Qed.

Lemma every_getSignedUrl partNumber uploadId key :
  (forall a, okR (ReqSignedUrl partNumber uploadId key a)) ->
  every (ApiClient.getSignedUrl partNumber uploadId key).
Proof.
  intros Hreq. unfold ApiClient.getSignedUrl.
  apply every_bind; [apply every_silent; reflexivity|]. intros a.
  apply every_bind; [apply every_fetchWithRetry, Hreq|]. intros r.
  apply every_silent. intros w.
  destruct (negb (resp_ok r)); [reflexivity|].
  destruct (resp_json r); reflexivity.
Qed.

Lemma every_api_uploadPart key uploadId partNumber chunk abortSignal :
  (forall a, okR (ReqSignedUrl partNumber uploadId key a)) ->
  (forall url, okR (ReqPut url (blob_size chunk))) ->
  every (ApiClient.uploadPart key uploadId partNumber chunk abortSignal).
Proof.
  intros Hsigned Hput. unfold ApiClient.uploadPart.
  apply every_bind; [apply every_getSignedUrl, Hsigned|]. intros url.
  apply every_bind; [apply every_silent; reflexivity|]. intros w0.
  apply every_bind.
  { apply every_silent. intros w.
    destruct url; [|destruct (truthy (accelerationEndpoint w0))];
      reflexivity. }
  intros uploadUrl.
  apply every_bind; [apply every_fetchWithRetry, Hput|]. intros r.
  apply every_silent. intros w.
  destruct (negb (resp_ok r)); [reflexivity|].
  destruct (truthy (resp_ETag r)); reflexivity.
Qed.

Lemma every_listUploadedParts key uploadId :
  okR (ReqListParts key uploadId) ->
  every (ApiClient.listUploadedParts key uploadId).
Proof.
  intros Hreq. unfold ApiClient.listUploadedParts.
  apply every_bind; [apply every_fetchWithRetry, Hreq|]. intros r.
  apply every_silent. intros w.
  destruct (negb (resp_ok r)); [reflexivity|].
  destruct (resp_json r); reflexivity.
Qed.

Lemma every_completeMultipartUpload key uploadId contentId parts :
  (forall a, okR (ReqComplete key uploadId contentId parts a)) ->
  every (ApiClient.completeMultipartUpload key uploadId contentId parts).
Proof.
  intros Hreq. unfold ApiClient.completeMultipartUpload.
  apply every_bind; [apply every_silent; reflexivity|]. intros a.
  apply every_bind; [apply every_fetchWithRetry, Hreq|]. intros r.
  apply every_silent. intros w.
  destruct (negb (resp_ok r)); [reflexivity|].
  destruct (resp_json r); reflexivity.
Qed.

Lemma every_saveUploadState state :
  every (databaseService.saveUploadState state).
Proof.
  intros w. cbn. repeat constructor; apply (el_noise _ _ L); reflexivity.
Qed.

Lemma every_handleUploadError contentId err :
  P (Broadcast (UPLOAD_ERROR contentId (errorMessage err)
                  (isRetryableError err))) ->
  every (UploadHandler.handleUploadError contentId err).
Proof.
  intros He. unfold UploadHandler.handleUploadError.
  apply every_bind; [apply every_emit, He|]. intros _.
  apply every_bind; [apply every_silent; reflexivity|]. intros w0.
  destruct (activeUploads w0 !! contentId); [|apply every_silent; reflexivity].
  apply every_bind; [apply every_silent; reflexivity|]. intros _.
  apply every_bind; [apply every_silent; reflexivity|]. intros _.
  apply every_bind; [apply every_silent; reflexivity|]. intros s.
  apply every_bind; [apply every_saveUploadState|]. intros _.
  apply every_silent; reflexivity.
Qed.

Lemma every_getUploadedParts state :
  okR (ReqListParts (st_key state) (st_uploadId state)) ->
  (forall t l, P (Broadcast (LOG t l None))) ->
  every (UploadHandler.getUploadedParts state).
Proof.
  intros Hreq Hlog. unfold UploadHandler.getUploadedParts.
  apply every_try_catch.
  - apply every_bind; [apply every_listUploadedParts, Hreq|]. intros parts.
    apply every_bind; [apply every_emit, Hlog|]. intros _.
    apply every_silent; reflexivity.
  - intros e. apply every_bind; [apply every_emit, Hlog|]. intros _.
    apply every_silent; reflexivity.
Qed.

Lemma every_completeUpload uploadState :
  (forall k u c ps a, okR (ReqComplete k u c ps a)) ->
  (forall t l, P (Broadcast (LOG t l None))) ->
  (forall c url d n, P (Broadcast (UPLOAD_COMPLETE c url d n))) ->
  every (UploadHandler.completeUpload uploadState).
Proof.
  intros Hreq Hlog Hdone. unfold UploadHandler.completeUpload.
  apply every_bind; [apply every_silent; reflexivity|]. intros state.
  destruct (truthy (st_contentId state)) as [contentId|];
    [|apply every_silent; reflexivity].
  apply every_bind; [apply every_emit, Hlog|]. intros _.
  apply every_bind; [apply every_completeMultipartUpload; intros; apply Hreq|].
  intros location.
  apply every_bind; [apply every_silent; reflexivity|]. intros _.
  apply every_bind; [apply every_silent; reflexivity|]. intros _.
  apply every_bind; [apply every_silent; reflexivity|]. intros saved.
  apply every_bind; [apply every_saveUploadState|]. intros _.
  apply every_bind; [apply every_silent; reflexivity|]. intros t.
  apply every_bind; [apply every_emit, Hdone|]. intros _.
  apply every_bind; [apply every_silent; reflexivity|]. intros _.
  apply every_emit, Hlog.
Qed.

End Every.

(** ** The parts sent by one run of the driver *)

Lemma not_chunk_laws : event_laws not_chunk (fun _ => True).
Proof.
  constructor.
  - intros [[]| | |]; try discriminate; intros _; exact I.
  - intros d. exact I.
  - intros req _. split; exact I.
Qed.

Lemma uploaded_chunks_app a b :
  uploaded_chunks (a ++ b) = uploaded_chunks a ++ uploaded_chunks b.
Proof. apply omap_app. Qed.

Lemma uploaded_chunks_quiet evs :
  Forall not_chunk evs -> uploaded_chunks evs = [].
Proof.
  induction 1 as [|e evs He _ IH]; [reflexivity|].
  destruct e as [[]| | |]; try destruct He; exact IH.
Qed.

(** An attempt announces its chunk exactly when it succeeds. *)
Lemma attempt_chunks cid key uid pn chunk sig w :
  uploaded_chunks (events_of (attempt cid key uid pn chunk sig w))
  = match result_of (attempt cid key uid pn chunk sig w) with
    | Ok _ => [(pn, blob_size chunk)]
    | Throw _ => []
    end.
Proof.
  unfold attempt. rewrite bind_events, bind_result, uploaded_chunks_app.
  rewrite (uploaded_chunks_quiet
             (events_of (ApiClient.uploadPart key uid pn chunk sig w))).
  2:{ apply (every_api_uploadPart not_chunk_laws); intros; exact I. }
  destruct (result_of (ApiClient.uploadPart key uid pn chunk sig w));
    reflexivity.
Qed.

Lemma uploadPart_from_chunks remaining cid key uid pn chunk sig w :
  uploaded_chunks
    (events_of (UploadHandler.uploadPart_from remaining cid key uid pn chunk
                  sig w))
  = match result_of (UploadHandler.uploadPart_from remaining cid key uid pn
                       chunk sig w) with
    | Ok _ => [(pn, blob_size chunk)]
    | Throw _ => []
    end.
Proof.
  revert w. induction remaining as [|remaining IH]; intros w;
    rewrite uploadPart_from_unfold, try_catch_events, try_catch_result,
      uploaded_chunks_app, attempt_chunks;
    destruct (result_of (attempt cid key uid pn chunk sig w)) as [part|e];
    try reflexivity.
  destruct (isRetryableError e && negb (isAbortError e)); [|reflexivity].
  rewrite announce_then_sleep.
  specialize (IH (with_clock
                    (clock (world_of (attempt cid key uid pn chunk sig w))
                     + Z.min (1000 * 2 ^ Z.of_nat (CONFIG.RETRY.ATTEMPTS
                                                   - S remaining)) 30000)
                    (world_of (attempt cid key uid pn chunk sig w)))).
  destruct (UploadHandler.uploadPart_from remaining cid key uid pn chunk sig _)
    as [[r w'] evs]. exact IH.
Qed.

(** A step of the loop announces the chunk of its part exactly when it
    succeeds, and then returns the incremented counter. *)
Lemma part_step_chunks r sig file k u cid partSize total p c w :
  uploaded_chunks
    (events_of (part_step r sig file k u cid partSize total p c w))
  = match result_of (part_step r sig file k u cid partSize total p c w) with
    | Ok _ => [(p, chunk_size file partSize p)]
    | Throw _ => []
    end.
Proof.
  unfold part_step, chunk_size. cbn zeta.
  set (chunk := slice _ _ _).
  rewrite try_catch_events, try_catch_result, bind_events, bind_result,
    !uploaded_chunks_app.
  pose proof (uploadPart_from_chunks CONFIG.RETRY.ATTEMPTS cid k u p chunk
                sig w) as Hup.
  fold (UploadHandler.uploadPart cid k u p chunk sig) in Hup.
  rewrite Hup.
  destruct (result_of (UploadHandler.uploadPart cid k u p chunk sig w))
    as [part|e].
  - cbn. reflexivity.
  - cbn [app]. rewrite bind_events, bind_result, uploaded_chunks_app.
    rewrite (uploaded_chunks_quiet
               (events_of (UploadHandler.handleUploadError cid e _))).
    2:{ apply (every_handleUploadError not_chunk_laws). exact I. }
    destruct (result_of (UploadHandler.handleUploadError cid e _));
      reflexivity.
Qed.

Lemma partsLoop_chunks r sig file k u cid partSize total uploaded pns :
  forall c w,
  exists m : nat,
    (m <= length (outstanding uploaded pns))%nat
    /\ uploaded_chunks
         (events_of (UploadHandler.partsLoop r sig file k u cid partSize total
                       uploaded pns c w))
       = (fun p => (p, chunk_size file partSize p))
           <$> take m (outstanding uploaded pns)
    /\ (result_of (UploadHandler.partsLoop r sig file k u cid partSize total
                     uploaded pns c w) = Ok tt ->
        m = length (outstanding uploaded pns)).
Proof.
  induction pns as [|p pns IH]; intros c w.
  { exists 0%nat. cbn. split; [lia|]. split; [reflexivity|]. intros _; reflexivity. }
  rewrite partsLoop_cons. unfold outstanding. rewrite filter_cons.
  fold (outstanding uploaded pns).
  destruct (has uploaded p) eqn:Hp.
  - rewrite decide_False by discriminate.
    rewrite bind_events, bind_result, broadcastLog_run.
    cbn [result_of events_of world_of fst snd].
    destruct (IH c w) as (m & Hle & Hch & Hok).
    exists m. rewrite uploaded_chunks_app, Hch. repeat split; assumption.
  - rewrite decide_True by reflexivity.
    rewrite bind_events, bind_result, uploaded_chunks_app, part_step_chunks.
    destruct (result_of (part_step r sig file k u cid partSize total p c w))
      as [c'|e].
    + destruct (IH c' (world_of (part_step r sig file k u cid partSize total
                                   p c w))) as (m & Hle & Hch & Hok).
      exists (S m). rewrite Hch. cbn. repeat split; [lia|].
      intros Hr. f_equal. apply Hok, Hr.
    + exists 0%nat. cbn. repeat split; [lia|discriminate].
Qed.

Lemma uploadParts_chunks (uploadState abortSignal : nat) (w : World) :
  let state := heap w uploadState in
  let listed := p_partNumber <$> listed_parts state w in
  let total := ceil_div (file_size (st_file state)) (st_partSize state) in
  let todo := outstanding listed (seqZ 1 total) in
  let run := UploadHandler.uploadParts uploadState abortSignal w in
  exists m : nat,
    (m <= length todo)%nat
    /\ uploaded_chunks (events_of run)
       = (fun p => (p, chunk_size (st_file state) (st_partSize state) p))
           <$> take m todo
    /\ (result_of run = Ok tt -> m = length todo).
Proof.
  cbn zeta. unfold UploadHandler.uploadParts.
  rewrite bind_events, bind_result, read_object_run.
  cbn [result_of events_of world_of fst snd app].
  set (state := heap w uploadState).
  destruct (truthy (st_contentId state)) as [cid|].
  2:{ exists 0%nat. cbn. repeat split; [lia|discriminate]. }
  rewrite bind_events, bind_result, broadcastLog_run.
  cbn [result_of events_of world_of fst snd].
  rewrite bind_events, bind_result, getUploadedParts_result.
  set (w1 := world_of (UploadHandler.getUploadedParts state w)).
  set (listed := listed_parts state w).
  rewrite bind_events, bind_result.
  destruct (partsLoop_chunks uploadState abortSignal (st_file state)
              (st_key state) (st_uploadId state) cid (st_partSize state)
              (ceil_div (file_size (st_file state)) (st_partSize state))
              (p_partNumber <$> listed)
              (seqZ 1 (ceil_div (file_size (st_file state))
                         (st_partSize state)))
              (Z.of_nat (length listed)) w1) as (m & Hle & Hch & Hok).
  exists m. split; [exact Hle|]. split.
  - change (?a :: ?l) with ([a] ++ l). rewrite !uploaded_chunks_app, Hch.
    rewrite (uploaded_chunks_quiet
               (events_of (UploadHandler.getUploadedParts state w))).
    2:{ apply (every_getUploadedParts not_chunk_laws); intros; exact I. }
    cbn [uploaded_chunks omap app].
    destruct (result_of (UploadHandler.partsLoop _ _ _ _ _ _ _ _ _ _ _ w1));
      [|cbn; rewrite app_nil_r; reflexivity].
    rewrite (uploaded_chunks_quiet (events_of (UploadHandler.completeUpload _ _))).
    + cbn. rewrite app_nil_r. reflexivity.
    + apply (every_completeUpload not_chunk_laws); intros; exact I.
  - destruct (result_of (UploadHandler.partsLoop _ _ _ _ _ _ _ _ _ _ _ w1))
      as [[]|e]; [|discriminate].
    intros _. apply Hok. reflexivity.
Qed.

(** X15. One run of [uploadParts] announces CHUNK_UPLOADED for the parts
    that the server did not list, in ascending order of part number and
    each at most once, with the size of the part's slice of the file; a run
    that returns normally has announced every one of them. *)
Theorem uploadParts_chunks_in_order (uploadState abortSignal : nat)
    (w : World) :
  0 < st_partSize (heap w uploadState) ->
  let state := heap w uploadState in
  let listed := p_partNumber <$> listed_parts state w in
  let total := ceil_div (file_size (st_file state)) (st_partSize state) in
  let todo := outstanding listed (seqZ 1 total) in
  let run := UploadHandler.uploadParts uploadState abortSignal w in
  exists m : nat,
    (m <= length todo)%nat
    /\ uploaded_chunks (events_of run)
       = (fun p => (p, chunk_size (st_file state) (st_partSize state) p))
           <$> take m todo
    /\ (result_of run = Ok tt -> m = length todo).
Proof. intros _. apply uploadParts_chunks. Qed.

Lemma uploadParts_chunks_in_order_witness :
  let w := Examples.active (Examples.stored in_progress [])
             [Examples.json (JParts [Examples.part 1]);
              Examples.signed 2; Examples.put_ok "e2"] in
  0 < st_partSize (heap w 0%nat)
  /\ exists m : nat,
       (m <= 3)%nat
       /\ uploaded_chunks (events_of (UploadHandler.uploadParts 0 0 w))
          = (fun p => (p, chunk_size Examples.tiny 10 p)) <$> take m [2; 3; 4]
       /\ (result_of (UploadHandler.uploadParts 0 0 w) = Ok tt -> m = 3%nat).
Proof.
  split; [reflexivity|].
  apply (uploadParts_chunks_in_order 0 0
           (Examples.active (Examples.stored in_progress [])
              [Examples.json (JParts [Examples.part 1]);
               Examples.signed 2; Examples.put_ok "e2"])).
  reflexivity.
Defined.

(** ** The slices of the file *)

Lemma ceil_div_bounds a b :
  0 < b -> (ceil_div a b - 1) * b < a <= ceil_div a b * b.
Proof.
  intros Hb. unfold ceil_div.
  pose proof (Z.mul_div_le (- a) b Hb).
  pose proof (Z.mul_succ_div_gt (- a) b Hb). nia.
Qed.

(** Within the parts of the file, the chunk of part [p] runs from
    [(p - 1) * partSize] to the end of the part or of the file. *)
Lemma chunk_size_within file partSize p :
  0 < partSize -> 1 <= p <= ceil_div (file_size file) partSize ->
  chunk_size file partSize p
  = Z.min (p * partSize) (file_size file) - (p - 1) * partSize
  /\ 0 < chunk_size file partSize p <= partSize.
Proof.
  intros Hps Hp.
  pose proof (ceil_div_bounds (file_size file) partSize Hps) as Hb.
  assert ((p - 1) * partSize < file_size file) by nia.
  unfold chunk_size, slice. cbn [blob_size].
  assert (0 <= (p - 1) * partSize) by nia.
  repeat match goal with
         | |- context [?x <? 0] =>
             destruct (Z.ltb_spec x 0); try lia
         end.
Qed.

Lemma chunk_sizes_sum file partSize (n : nat) :
  0 < partSize -> 0 <= file_size file ->
  Z.of_nat n <= ceil_div (file_size file) partSize ->
  foldr Z.add 0 (chunk_size file partSize <$> seqZ 1 (Z.of_nat n))
  = Z.min (Z.of_nat n * partSize) (file_size file).
Proof.
  intros Hps Hsize. induction n as [|n IH]; intros Hn.
  - change (Z.of_nat 0) with 0. rewrite seqZ_nil by lia.
    cbn [fmap list_fmap foldr]. lia.
  - rewrite seqZ_S, fmap_app, foldr_app. cbn [fmap list_fmap foldr].
    rewrite Nat2Z.inj_succ in *.
    assert (forall l x, foldr Z.add x l = foldr Z.add 0 l + x) as Hshift.
    { intros l. induction l as [|y l IHl]; intros x; cbn; [lia|].
      rewrite IHl. lia. }
    rewrite Hshift, IH by lia.
    destruct (chunk_size_within file partSize (1 + Z.of_nat n) Hps) as [-> _];
      [lia|].
    pose proof (ceil_div_bounds (file_size file) partSize Hps). nia.
Qed.

Lemma outstanding_nil pns : outstanding [] pns = pns.
Proof.
  unfold outstanding. induction pns as [|p pns IH]; [reflexivity|].
  rewrite filter_cons. cbn. unfold has.
  rewrite bool_decide_eq_false_2 by apply not_elem_of_nil.
  rewrite decide_True by reflexivity. f_equal. exact IH.
Qed.

(** X16. When the server lists no part and the run returns normally,
    CHUNK_UPLOADED is announced for the parts [1 .. totalParts] in this
    order, every chunk is non-empty and no larger than the part size, and
    the sizes add up to the size of the file. *)
Theorem uploadParts_sends_whole_file (uploadState abortSignal : nat)
    (w : World) :
  let state := heap w uploadState in
  let total := ceil_div (file_size (st_file state)) (st_partSize state) in
  let run := UploadHandler.uploadParts uploadState abortSignal w in
  0 < st_partSize state ->
  0 <= file_size (st_file state) ->
  listed_parts state w = [] ->
  result_of run = Ok tt ->
  fst <$> uploaded_chunks (events_of run) = seqZ 1 total
  /\ Forall (fun size => 0 < size <= st_partSize state)
       (snd <$> uploaded_chunks (events_of run))
  /\ foldr Z.add 0 (snd <$> uploaded_chunks (events_of run))
     = file_size (st_file state).
Proof.
  cbn zeta. intros Hps Hsize Hlisted Hok.
  destruct (uploadParts_chunks uploadState abortSignal w)
    as (m & _ & Hch & Hm).
  specialize (Hm Hok). rewrite Hlisted in *. cbn [fmap list_fmap] in *.
  rewrite outstanding_nil in *. subst m. rewrite firstn_all in Hch.
  rewrite Hch, <- !list_fmap_compose.
  set (file := st_file (heap w uploadState)) in *.
  set (ps := st_partSize (heap w uploadState)) in *.
  split; [apply list_fmap_id|]. split.
  - apply Forall_fmap, Forall_forall. intros p Hp.
    apply elem_of_seqZ in Hp. cbn.
    apply (chunk_size_within file ps p Hps). lia.
  - change (snd ∘ _) with (chunk_size file ps).
    pose proof (ceil_div_bounds (file_size file) ps Hps) as Hb.
    destruct (Z.le_gt_cases (ceil_div (file_size file) ps) 0) as [Hle|Hgt].
    + rewrite seqZ_nil by lia. cbn. nia.
    + rewrite <- (Z2Nat.id (ceil_div (file_size file) ps)) at 1 by lia.
      rewrite chunk_sizes_sum by lia. rewrite Z2Nat.id by lia. nia.
Qed.

Lemma uploadParts_sends_whole_file_witness :
  let w := Examples.active (Examples.stored in_progress [])
             [Examples.json (JParts []);
              Examples.signed 1; Examples.put_ok "e1";
              Examples.signed 2; Examples.put_ok "e2";
              Examples.signed 3; Examples.put_ok "e3";
              Examples.signed 4; Examples.put_ok "e4";
              Examples.json (JComplete "https://media/k1")] in
  result_of (UploadHandler.uploadParts 0 0 w) = Ok tt
  /\ foldr Z.add 0
       (snd <$> uploaded_chunks (events_of (UploadHandler.uploadParts 0 0 w)))
     = 40.
Proof.
  split; [reflexivity|].
  apply (uploadParts_sends_whole_file 0 0
           (Examples.active (Examples.stored in_progress [])
              [Examples.json (JParts []);
               Examples.signed 1; Examples.put_ok "e1";
               Examples.signed 2; Examples.put_ok "e2";
               Examples.signed 3; Examples.put_ok "e3";
               Examples.signed 4; Examples.put_ok "e4";
               Examples.json (JComplete "https://media/k1")]));
    [reflexivity|discriminate|reflexivity|reflexivity].
Defined.

(** ** The range of the progress reports *)

Lemma round_percent_nonneg total c :
  0 < total -> 0 <= c -> 0 <= round_percent c total.
Proof.
  intros Ht Hc. rewrite <- (round_percent_zero total).
  apply round_percent_mono; assumption.
Qed.

(** X17. When the part numbers the server lists are distinct and lie
    within [1 .. totalParts], every progress value reported by one run of
    [uploadParts] lies between 0 and 100. *)
Theorem uploadParts_progress_in_range (uploadState abortSignal : nat)
    (w : World) (contentId : string) :
  let state := heap w uploadState in
  let listed := p_partNumber <$> listed_parts state w in
  let total := ceil_div (file_size (st_file state)) (st_partSize state) in
  0 < st_partSize state ->
  NoDup listed ->
  (forall p, p ∈ listed -> 1 <= p <= total) ->
  Forall (fun v => 0 <= v <= 100)
    (progress_values contentId
       (events_of (UploadHandler.uploadParts uploadState abortSignal w))).
Proof.
  cbn zeta. intros Hps Hnd Hrange.
  destruct (uploadParts_progress uploadState abortSignal w contentId)
    as (m & cid & Hpv & Hm & _).
  rewrite Hpv. destruct (decide (cid = contentId)); [|constructor].
  pose proof (outstanding_count _ _ Hnd Hrange) as Hcount.
  rewrite length_fmap in Hcount.
  set (total := ceil_div _ _) in *.
  set (c := length (listed_parts (heap w uploadState) w)) in *.
  apply Forall_forall. intros v Hv.
  apply list_elem_of_lookup in Hv as [i Hi].
  rewrite progress_from_lookup in Hi.
  destruct (decide (i < m)%nat) as [Hlt|]; [|discriminate].
  injection Hi as <-.
  assert (0 < total) by lia.
  split.
  - apply round_percent_nonneg; lia.
  - rewrite <- (round_percent_full total) by lia.
    apply round_percent_mono; lia.
Qed.

Lemma uploadParts_progress_in_range_witness :
  let w := Examples.active (Examples.stored in_progress [])
             [Examples.json (JParts [Examples.part 1]);
              Examples.signed 2; Examples.put_ok "e2"] in
  NoDup (p_partNumber <$> listed_parts (heap w 0%nat) w)
  /\ Forall (fun v => 0 <= v <= 100)
       (progress_values "srv-1"
          (events_of (UploadHandler.uploadParts 0 0 w))).
Proof.
  assert (NoDup (p_partNumber <$>
                   listed_parts
                     (heap (Examples.active (Examples.stored in_progress [])
                              [Examples.json (JParts [Examples.part 1]);
                               Examples.signed 2; Examples.put_ok "e2"]) 0%nat)
                     (Examples.active (Examples.stored in_progress [])
                        [Examples.json (JParts [Examples.part 1]);
                         Examples.signed 2; Examples.put_ok "e2"]))) as Hnd.
  { change (NoDup [1]). apply NoDup_singleton. }
  split; [exact Hnd|].
  apply (uploadParts_progress_in_range 0 0
           (Examples.active (Examples.stored in_progress [])
              [Examples.json (JParts [Examples.part 1]);
               Examples.signed 2; Examples.put_ok "e2"]) "srv-1").
  - reflexivity.
  - exact Hnd.
  - intros p Hp. change (p ∈ [1]) in Hp. apply list_elem_of_singleton in Hp.
    subst p. change (1 <= 1 <= 4). lia.
Defined.

(** ** Reading all records and resuming them *)

Lemma new_objects_run records w :
  exists w',
    databaseService.new_objects records w
    = (Ok (seq (nextObject w) (length records)), w', [])
    /\ objects_added w w'
    /\ nextObject w' = (nextObject w + length records)%nat
    /\ (forall i record, records !! i = Some record ->
          heap w' (nextObject w + i) = record).
Proof.
  revert w. induction records as [|record records IH]; intros w.
  { exists w. cbn. split; [reflexivity|]. split.
    - unfold objects_added. repeat split; auto.
    - split; [lia|]. intros i r Hi. discriminate. }
  cbn [databaseService.new_objects]. rewrite bind_run. unfold new_object at 1.
  set (w1 := with_heap _ _ w).
  destruct (IH w1) as (w' & Hrun & Hadd & Hnext & Hheap).
  exists w'. rewrite bind_run, Hrun. cbn [ret app length seq].
  split; [reflexivity|].
  destruct Hadd as (H1 & H2 & H3 & H4 & H5 & H6 & H7 & H8 & H9 & H10 & H11).
  cbn in *. split.
  - unfold objects_added. repeat split; try assumption; try lia.
    intros r Hr. rewrite H11 by lia. unfold fn_update.
    destruct (Nat.eqb_spec r (nextObject w)); [lia|reflexivity].
  - split; [lia|]. intros [|i] r Hi.
    + cbn in Hi. injection Hi as <-. rewrite Nat.add_0_r, H11 by lia.
      unfold fn_update. rewrite Nat.eqb_refl. reflexivity.
    + cbn in Hi. rewrite <- (Hheap i r Hi). f_equal. lia.
Qed.

Lemma for_of_stable body (refs : list nat) w (ev : nat -> list Event) :
  (forall r, r ∈ refs -> body r w = (Ok tt, w, ev r)) ->
  UploadHandler.for_of body refs w = (Ok tt, w, refs ≫= ev).
Proof.
  induction refs as [|r refs IH]; intros Hbody; [reflexivity|].
  cbn [UploadHandler.for_of]. rewrite bind_run, Hbody by apply list_elem_of_here.
  rewrite IH by (intros r' Hr'; apply Hbody, list_elem_of_further, Hr').
  reflexivity.
Qed.

Lemma bind_nothing {A B} (l : list A) : l ≫= (fun _ => @nil B) = [].
Proof. induction l as [|a l IH]; [reflexivity|exact IH]. Qed.

(** Resuming an upload that is in the registry does nothing. *)
Lemma resumeUpload_active r w :
  already_active w (heap w r) ->
  UploadHandler.resumeUpload r w = (Ok tt, w, []).
Proof.
  intros (cid & Hcid & [upload Hactive]). unfold UploadHandler.resumeUpload.
  rewrite bind_run, read_object_run, Hcid, bind_run. cbn [get_world].
  rewrite Hactive. reflexivity.
Qed.

Lemma already_active_added w w' s :
  objects_added w w' -> already_active w s -> already_active w' s.
Proof.
  intros (_ & _ & Ha & _) (cid & Hcid & Hin). exists cid.
  rewrite Ha. auto.
Qed.

Lemma getAll_stored (m : gmap string UploadState) s :
  s ∈ databaseService.getAll m -> exists k, m !! k = Some s.
Proof.
  unfold databaseService.getAll. intros Hin.
  apply list_elem_of_fmap in Hin as ([k v] & -> & Hin).
  apply elem_of_entries in Hin. eauto.
Qed.

(** The loop of the three resuming handlers, when every record its guard
    selects is already active: the body [report] of a selected record runs
    after a [resumeUpload] that does nothing. *)
Lemma resume_loop_stable (selects : UploadState -> bool)
    (body : nat -> M unit) (ev : UploadState -> list Event) w :
  (forall k s, uploadsStore w !! k = Some s -> selects s = true ->
               already_active w s) ->
  (forall r w', already_active w' (heap w' r) \/ selects (heap w' r) = false ->
                body r w' = (Ok tt, w', ev (heap w' r))) ->
  exists w',
    (allUploadStates <- databaseService.loadAllUploadStates;;
     UploadHandler.for_of body allUploadStates) w
    = (Ok tt, w', databaseService.getAll (uploadsStore w) ≫= ev)
    /\ objects_added w w'.
Proof.
  intros Hactive Hbody. rewrite bind_run.
  unfold databaseService.loadAllUploadStates. rewrite bind_run.
  cbn [get_world].
  destruct (new_objects_run (databaseService.getAll (uploadsStore w)) w)
    as (w' & Hrun & Hadd & Hnext & Hheap).
  rewrite Hrun. exists w'. split; [|exact Hadd].
  rewrite (for_of_stable body _ w' (fun r => ev (heap w' r))).
  - cbn [app]. f_equal.
    set (records := databaseService.getAll (uploadsStore w)) in *.
    clearbody records. clear Hrun Hnext Hadd Hactive.
    revert Hheap. generalize (nextObject w) as n.
    induction records as [|s records IH]; intros n Hheap; [reflexivity|].
    cbn [length seq]. rewrite !bind_cons.
    pose proof (Hheap 0%nat s eq_refl) as Hheap0.
    rewrite Nat.add_0_r in Hheap0. rewrite Hheap0.
    f_equal. apply IH. intros i r Hi. rewrite <- (Hheap (S i) r Hi). f_equal. lia.
  - intros r Hr. apply Hbody.
    apply elem_of_seq in Hr.
    assert (exists i, r = (nextObject w + i)%nat
                      /\ (i < length (databaseService.getAll (uploadsStore w)))%nat)
      as (i & -> & Hi) by (exists (r - nextObject w)%nat; lia).
    destruct (lookup_lt_is_Some_2 _ _ Hi) as [s Hs].
    rewrite (Hheap i s Hs).
    destruct (selects s) eqn:Hsel; [left|right; reflexivity].
    apply (already_active_added w w' s Hadd).
    destruct (getAll_stored (uploadsStore w) s) as [k Hk].
    { apply list_elem_of_lookup. eauto. }
    eapply Hactive; eauto.
Qed.

(** X18. At activation, [loadOngoingUploads] resumes records of status
    [in_progress] only. When every such record belongs to an upload that is
    already in the registry, it starts nothing: no request is issued, no
    message is sent, and the stores, the registry and the abort tokens are
    as before. Records of any other status, paused ones included, are left
    alone. *)
Theorem loadOngoingUploads_starts_nothing (w : World) :
  (forall k s, uploadsStore w !! k = Some s -> st_status s = in_progress ->
               already_active w s) ->
  exists w',
    UploadHandler.loadOngoingUploads w = (Ok tt, w', [])
    /\ objects_added w w'.
Proof.
  intros Hactive. unfold UploadHandler.loadOngoingUploads.
  destruct (resume_loop_stable
              (fun s => bool_decide (st_status s = in_progress))
              (fun state =>
                 s <- read_object state;;
                 if bool_decide (st_status s = in_progress)
                 then UploadHandler.resumeUpload state
                 else ret tt)
              (fun _ => []) w) as (w' & Hrun & Hadd).
  - intros k s Hk Hs. apply (Hactive k s Hk).
    apply bool_decide_eq_true in Hs. exact Hs.
  - intros r w' Hcase. rewrite bind_run, read_object_run.
    destruct (bool_decide (st_status (heap w' r) = in_progress)) eqn:Hs.
    + destruct Hcase as [Ha|Hf]; [|discriminate].
      rewrite (resumeUpload_active r w' Ha). reflexivity.
    + reflexivity.
  - exists w'. split; [|exact Hadd]. rewrite Hrun. f_equal.
    apply bind_nothing.
Qed.

Lemma loadOngoingUploads_starts_nothing_witness :
  exists w',
    UploadHandler.loadOngoingUploads
      (Examples.at_rest (Examples.stored paused []) [])
    = (Ok tt, w', [])
    /\ objects_added (Examples.at_rest (Examples.stored paused []) []) w'.
Proof.
  apply (loadOngoingUploads_starts_nothing
           (Examples.at_rest (Examples.stored paused []) [])).
  intros k s Hk Hs.
  destruct (decide (k = "srv-1")) as [->|Hne].
  - change (Some (Examples.stored paused []) = Some s) in Hk.
    injection Hk as <-. discriminate.
  - unfold Examples.at_rest in Hk. cbn in Hk.
    rewrite lookup_insert_ne in Hk by congruence.
    rewrite lookup_empty in Hk. discriminate.
Defined.

(** X19. [resumeAllUploads] never starts a second driver for an upload
    that is already running: when every paused or in-progress record
    belongs to an upload in the registry, it issues no request, sends no
    message and leaves the stores, the registry and the abort tokens as
    they are. *)
Theorem resumeAllUploads_no_second_start (w : World) :
  (forall k s, uploadsStore w !! k = Some s ->
               st_status s = paused \/ st_status s = in_progress ->
               already_active w s) ->
  exists w',
    UploadHandler.resumeAllUploads w = (Ok tt, w', [])
    /\ objects_added w w'.
Proof.
  intros Hactive. unfold UploadHandler.resumeAllUploads.
  destruct (resume_loop_stable
              (fun s => bool_decide (st_status s = paused)
                        || bool_decide (st_status s = in_progress))
              (fun state =>
                 s <- read_object state;;
                 if bool_decide (st_status s = paused)
                    || bool_decide (st_status s = in_progress)
                 then UploadHandler.resumeUpload state
                 else ret tt)
              (fun _ => []) w) as (w' & Hrun & Hadd).
  - intros k s Hk Hs. apply (Hactive k s Hk).
    apply orb_true_iff in Hs as [Hs|Hs]; apply bool_decide_eq_true in Hs; auto.
  - intros r w' Hcase. rewrite bind_run, read_object_run.
    destruct (bool_decide (st_status (heap w' r) = paused)
              || bool_decide (st_status (heap w' r) = in_progress)) eqn:Hs.
    + destruct Hcase as [Ha|Hf]; [|discriminate].
      rewrite (resumeUpload_active r w' Ha). reflexivity.
    + reflexivity.
  - exists w'. split; [|exact Hadd]. rewrite Hrun. f_equal.
    apply bind_nothing.
Qed.

Lemma resumeAllUploads_no_second_start_witness :
  exists w',
    UploadHandler.resumeAllUploads
      (Examples.active (Examples.stored in_progress []) [])
    = (Ok tt, w', [])
    /\ objects_added (Examples.active (Examples.stored in_progress []) []) w'.
Proof.
  apply (resumeAllUploads_no_second_start
           (Examples.active (Examples.stored in_progress []) [])).
  intros k s Hk _.
  destruct (decide (k = "srv-1")) as [->|Hne].
  - change (Some (Examples.stored in_progress []) = Some s) in Hk.
    injection Hk as <-. exists "srv-1". split; [reflexivity|].
    eexists. reflexivity.
  - unfold Examples.active, Examples.at_rest in Hk. cbn in Hk.
    rewrite lookup_insert_ne in Hk by congruence.
    rewrite lookup_empty in Hk. discriminate.
Defined.

(** X20. GET_ACTIVE_UPLOADS, when every paused or in-progress record
    belongs to an upload in the registry, answers with one UPLOAD_STATUS
    message per such record, in the order of the store's keys and with the
    status as stored, and with nothing for records of any other status; it
    issues no request and leaves stores, registry and tokens as they
    are. *)
Theorem handleGetActiveUploads_reports (w : World) :
  (forall k s, uploadsStore w !! k = Some s ->
               st_status s = paused \/ st_status s = in_progress ->
               already_active w s) ->
  exists w',
    UploadHandler.handleGetActiveUploads w
    = (Ok tt, w', databaseService.getAll (uploadsStore w) ≫= status_report)
    /\ objects_added w w'.
Proof.
  intros Hactive. unfold UploadHandler.handleGetActiveUploads.
  apply (resume_loop_stable
           (fun s => bool_decide (st_status s = in_progress)
                     || bool_decide (st_status s = paused))).
  - intros k s Hk Hs. apply (Hactive k s Hk).
    apply orb_true_iff in Hs as [Hs|Hs]; apply bool_decide_eq_true in Hs; auto.
  - intros r w' Hcase. rewrite bind_run, read_object_run.
    unfold status_report.
    destruct (bool_decide (st_status (heap w' r) = in_progress)
              || bool_decide (st_status (heap w' r) = paused)) eqn:Hs.
    + destruct Hcase as [Ha|Hf]; [|discriminate].
      rewrite bind_run, (resumeUpload_active r w' Ha), bind_run,
        read_object_run.
      destruct (st_contentId (heap w' r)); reflexivity.
    + reflexivity.
Qed.

Lemma handleGetActiveUploads_reports_witness :
  exists w',
    UploadHandler.handleGetActiveUploads
      (Examples.active (Examples.stored in_progress []) [])
    = (Ok tt, w',
       databaseService.getAll
         (uploadsStore (Examples.active (Examples.stored in_progress []) []))
       ≫= status_report)
    /\ objects_added (Examples.active (Examples.stored in_progress []) []) w'.
Proof.
  apply (handleGetActiveUploads_reports
           (Examples.active (Examples.stored in_progress []) [])).
  intros k s Hk _.
  destruct (decide (k = "srv-1")) as [->|Hne].
  - change (Some (Examples.stored in_progress []) = Some s) in Hk.
    injection Hk as <-. exists "srv-1". split; [reflexivity|].
    eexists. reflexivity.
  - unfold Examples.active, Examples.at_rest in Hk. cbn in Hk.
    rewrite lookup_insert_ne in Hk by congruence.
    rewrite lookup_empty in Hk. discriminate.
Defined.

(** ** The rewrite of the host *)

Lemma app_String c s t : String c s +:+ t = String c (s +:+ t).
Proof. reflexivity. Qed.

Lemma strip_prefix_app p s : strip_prefix p (p +:+ s) = Some s.
Proof.
  induction p as [|c p IH]; [reflexivity|]. simpl.
  rewrite Ascii.eqb_refl. exact IH.
Qed.

Lemma strip_prefix_sound p s r : strip_prefix p s = Some r -> s = p +:+ r.
Proof.
  revert s. induction p as [|c p IH]; intros s; simpl.
  - intros [= ->]. reflexivity.
  - destruct s as [|d s]; [discriminate|].
    destruct (Ascii.eqb_spec c d) as [->|]; [|discriminate].
    intros H. rewrite app_String. f_equal. apply IH, H.
Qed.

Lemma span_not_dot_app g r :
  "."%char ∉ chars g ->
  span_not_dot (g +:+ String "."%char r) = (g, String "."%char r).
Proof.
  induction g as [|c g IH]; intros Hg; [reflexivity|].
  simpl in *. apply not_elem_of_cons in Hg as [Hc Hg].
  destruct (Ascii.eqb_spec c "."%char) as [->|]; [congruence|].
  rewrite (IH Hg). reflexivity.
Qed.

Lemma span_not_dot_sound s g r :
  span_not_dot s = (g, r) -> s = g +:+ r /\ "."%char ∉ chars g.
Proof.
  revert g r. induction s as [|c s IH]; intros g r; simpl.
  - intros [= <- <-]. split; [reflexivity|apply not_elem_of_nil].
  - destruct (Ascii.eqb_spec c "."%char) as [->|Hc].
    + intros [= <- <-]. split; [reflexivity|apply not_elem_of_nil].
    + destruct (span_not_dot s) as [g' r'] eqn:Hs. intros [= <- <-].
      destruct (IH g' r' eq_refl) as [-> Hg]. split; [reflexivity|].
      simpl. apply not_elem_of_cons. split; [congruence|exact Hg].
Qed.

Lemma match_here_sound s m g a :
  match_here s = Some (m, g, a) ->
  s = ".s3." +:+ g +:+ ".amazonaws.com" +:+ a
  /\ g <> "" /\ "."%char ∉ chars g.
Proof.
  unfold match_here.
  destruct (strip_prefix ".s3." s) as [r1|] eqn:H1; [|discriminate].
  destruct (span_not_dot r1) as [g' r2] eqn:H2.
  destruct g' as [|c g']; [discriminate|].
  destruct (strip_prefix ".amazonaws.com" r2) as [r3|] eqn:H3; [|discriminate].
  intros [= <- <- <-].
  apply strip_prefix_sound in H1, H3. apply span_not_dot_sound in H2 as [H2 Hg].
  subst. repeat split; [discriminate|exact Hg].
Qed.

Lemma match_here_no_dot c s : c <> "."%char -> match_here (String c s) = None.
Proof.
  intros Hc. unfold match_here.
  change (strip_prefix ".s3." (String c s))
    with (if Ascii.eqb "."%char c then strip_prefix "s3." s else None).
  destruct (Ascii.eqb_spec "."%char c) as [<-|]; [congruence|reflexivity].
Qed.

Lemma regexp_exec_sound s b m g a :
  regexp_exec s = Some (b, m, g, a) ->
  s = b +:+ ".s3." +:+ g +:+ ".amazonaws.com" +:+ a
  /\ g <> "" /\ "."%char ∉ chars g.
Proof.
  revert b. induction s as [|c s IH]; intros b; cbn [regexp_exec].
  - destruct (match_here "") as [[[m' g'] a']|] eqn:Hm; [|discriminate].
    intros [= <- <- <- <-]. apply match_here_sound in Hm. exact Hm.
  - destruct (match_here (String c s)) as [[[m' g'] a']|] eqn:Hm.
    + intros [= <- <- <- <-]. apply match_here_sound in Hm. exact Hm.
    + destruct (regexp_exec s) as [[[[b' m'] g'] a']|]; [|discriminate].
      intros [= <- <- <- <-].
      destruct (IH b' eq_refl) as (-> & Hg). split; [reflexivity|exact Hg].
Qed.

Lemma getSubstitution_plain matched before after group1 template :
  "$"%char ∉ chars template ->
  getSubstitution matched before after group1 template = template.
Proof.
  induction template as [|c t IH]; intros Ht; [reflexivity|].
  simpl in Ht. apply not_elem_of_cons in Ht as [Hc Ht].
  simpl.
  destruct c as [[] [] [] [] [] [] [] []];
    try (f_equal; apply IH, Ht); congruence.
Qed.

Lemma replacement_plain matched before after group1 endpoint :
  "$"%char ∉ chars endpoint ->
  getSubstitution matched before after group1 ("." +:+ endpoint)
  = "." +:+ endpoint.
Proof.
  intros He. apply getSubstitution_plain. simpl.
  apply not_elem_of_cons. split; [discriminate|exact He].
Qed.

(** X21. Whatever the URL, the rewrite under an endpoint without dollar
    sign either finds no host of the form [.s3.<region>.amazonaws.com] and
    returns the URL as it is, or splits the URL around the first such host,
    whose region is a non-empty string without dots, and puts a dot and the
    endpoint in its place, keeping the text before and after. *)
Theorem transform_shape (endpoint url : string) :
  endpoint <> "" ->
  "$"%char ∉ chars endpoint ->
  ApiClient.transformToAcceleratedUrl (Some endpoint) url = url
  \/ exists before region after,
       url = before +:+ ".s3." +:+ region +:+ ".amazonaws.com" +:+ after
       /\ region <> "" /\ ("."%char ∉ chars region)
       /\ ApiClient.transformToAcceleratedUrl (Some endpoint) url
          = before +:+ "." +:+ endpoint +:+ after.
Proof.
  intros Hne Hd. unfold ApiClient.transformToAcceleratedUrl.
  destruct endpoint as [|c e]; [congruence|]. cbn [truthy].
  unfold replace_host.
  destruct (regexp_exec url) as [[[[b m] g] a]|] eqn:Hx; [|left; reflexivity].
  right. exists b, g, a.
  destruct (regexp_exec_sound _ _ _ _ _ Hx) as (Hurl & Hg & Hdot).
  repeat split; try assumption.
  rewrite replacement_plain by exact Hd. reflexivity.
Qed.

Lemma transform_shape_witness :
  ApiClient.transformToAcceleratedUrl
    (Some CONFIG.S3_TRANSFER_ACCELERATION.DEFAULT_ENDPOINT) "https://host/k"
  = "https://host/k"
  \/ exists before region after,
       "https://host/k"
       = before +:+ ".s3." +:+ region +:+ ".amazonaws.com" +:+ after
       /\ region <> "" /\ ("."%char ∉ chars region)
       /\ ApiClient.transformToAcceleratedUrl
            (Some CONFIG.S3_TRANSFER_ACCELERATION.DEFAULT_ENDPOINT)
            "https://host/k"
          = before +:+ "."
              +:+ CONFIG.S3_TRANSFER_ACCELERATION.DEFAULT_ENDPOINT +:+ after.
Proof.
  apply (transform_shape CONFIG.S3_TRANSFER_ACCELERATION.DEFAULT_ENDPOINT
           "https://host/k").
  - discriminate.
  - unfold chars. simpl. intros H.
    repeat (apply elem_of_cons in H as [H|H]; [discriminate H|]).
    apply elem_of_nil in H. exact H.
Defined.

Lemma regexp_exec_here s m g a :
  match_here s = Some (m, g, a) -> regexp_exec s = Some ("", m, g, a).
Proof.
  intros H. destruct s as [|c s].
  - change (regexp_exec "")
      with (match match_here "" with
            | Some (m, g, a) => Some (EmptyString, m, g, a)
            | None => None
            end).
    rewrite H. reflexivity.
  - change (regexp_exec (String c s))
      with (match match_here (String c s) with
            | Some (m, g, a) => Some (EmptyString, m, g, a)
            | None =>
                match regexp_exec s with
                | Some (b, m, g, a) => Some (String c b, m, g, a)
                | None => None
                end
            end).
    rewrite H. reflexivity.
Qed.

Lemma regexp_exec_skip c s :
  match_here (String c s) = None ->
  regexp_exec (String c s)
  = match regexp_exec s with
    | Some (b, m, g, a) => Some (String c b, m, g, a)
    | None => None
    end.
Proof.
  intros H.
  change (regexp_exec (String c s))
    with (match match_here (String c s) with
          | Some (m, g, a) => Some (EmptyString, m, g, a)
          | None =>
              match regexp_exec s with
              | Some (b, m, g, a) => Some (String c b, m, g, a)
              | None => None
              end
          end).
  rewrite H. reflexivity.
Qed.

Lemma regexp_exec_first before region after :
  "."%char ∉ chars before ->
  region <> "" -> "."%char ∉ chars region ->
  regexp_exec (before +:+ ".s3." +:+ region +:+ ".amazonaws.com" +:+ after)
  = Some (before, ".s3." +:+ region +:+ ".amazonaws.com", region, after).
Proof.
  intros Hb Hr Hd.
  assert (match_here (".s3." +:+ region +:+ ".amazonaws.com" +:+ after)
          = Some (".s3." +:+ region +:+ ".amazonaws.com", region, after))
    as Hhere.
  { unfold match_here. rewrite strip_prefix_app.
    change (".amazonaws.com" +:+ after)
      with (String "."%char ("amazonaws.com" +:+ after)).
    rewrite (span_not_dot_app region _ Hd).
    destruct region as [|c region]; [congruence|].
    change (String "."%char ("amazonaws.com" +:+ after))
      with (".amazonaws.com" +:+ after).
    rewrite strip_prefix_app. reflexivity. }
  induction before as [|c before IH].
  - change ("" +:+ ?x) with x. apply regexp_exec_here, Hhere.
  - simpl in Hb. apply not_elem_of_cons in Hb as [Hc Hb].
    rewrite app_String, regexp_exec_skip by (apply match_here_no_dot; congruence).
    rewrite (IH Hb). reflexivity.
Qed.

(** X22. For a URL whose text before the host [.s3.<region>.amazonaws.com]
    contains no dot, with a non-empty region without dots, the rewrite
    under a non-empty endpoint without dollar sign puts a dot and the
    endpoint in place of that host and keeps the rest of the URL. *)
Theorem transform_virtual_hosted (endpoint before region after : string) :
  endpoint <> "" -> "$"%char ∉ chars endpoint ->
  "."%char ∉ chars before ->
  region <> "" -> "."%char ∉ chars region ->
  ApiClient.transformToAcceleratedUrl (Some endpoint)
    (before +:+ ".s3." +:+ region +:+ ".amazonaws.com" +:+ after)
  = before +:+ "." +:+ endpoint +:+ after.
Proof.
  intros Hne Hd Hb Hr Hrd. unfold ApiClient.transformToAcceleratedUrl.
  destruct endpoint as [|c e]; [congruence|]. cbn [truthy].
  unfold replace_host. rewrite (regexp_exec_first _ _ _ Hb Hr Hrd).
  rewrite replacement_plain by exact Hd. reflexivity.
Qed.

Lemma transform_virtual_hosted_witness :
  ApiClient.transformToAcceleratedUrl (Some "s3-accelerate.amazonaws.com")
    ("https://media" +:+ ".s3." +:+ "eu-west-1" +:+ ".amazonaws.com"
     +:+ "/k1?partNumber=1")
  = "https://media" +:+ "." +:+ "s3-accelerate.amazonaws.com"
    +:+ "/k1?partNumber=1".
Proof.
  apply (transform_virtual_hosted "s3-accelerate.amazonaws.com"
           "https://media" "eu-west-1" "/k1?partNumber=1").
  - discriminate.
  - unfold chars. simpl. intros H.
    repeat (apply elem_of_cons in H as [H|H]; [discriminate H|]).
    apply elem_of_nil in H. exact H.
  - unfold chars. simpl. intros H.
    repeat (apply elem_of_cons in H as [H|H]; [discriminate H|]).
    apply elem_of_nil in H. exact H.
  - discriminate.
  - unfold chars. simpl. intros H.
    repeat (apply elem_of_cons in H as [H|H]; [discriminate H|]).
    apply elem_of_nil in H. exact H.
Defined.

(** ** How a run of the driver ends *)

Lemma messages_of_app a b :
  messages_of (a ++ b) = messages_of a ++ messages_of b.
Proof. apply omap_app. Qed.

Lemma handleUploadError_run contentId err w :
  exists w' evs,
    UploadHandler.handleUploadError contentId err w = (Ok tt, w', evs)
    /\ messages_of evs
       = [UPLOAD_ERROR contentId (errorMessage err) (isRetryableError err)]
    /\ activeUploads w' !! contentId = None.
Proof.
  unfold UploadHandler.handleUploadError. cbn.
  destruct (activeUploads w !! contentId) as [upload|] eqn:Hactive; cbn;
    eexists _, _; (split; [reflexivity|]); cbn; split; try reflexivity.
  - apply lookup_delete_eq.
  - exact Hactive.
Qed.

(** A step of the loop that throws has announced the error as its last
    message and has left the upload out of the registry. *)
Lemma part_step_throws r sig file k u cid partSize total p c w e :
  result_of (part_step r sig file k u cid partSize total p c w) = Throw e ->
  last (messages_of
          (events_of (part_step r sig file k u cid partSize total p c w)))
  = Some (UPLOAD_ERROR cid (errorMessage e) (isRetryableError e))
  /\ activeUploads
       (world_of (part_step r sig file k u cid partSize total p c w)) !! cid
     = None.
Proof.
  unfold part_step. set (chunk := slice _ _ _).
  rewrite try_catch_result, try_catch_events, try_catch_world, bind_result,
    bind_events, bind_world.
  destruct (UploadHandler.uploadPart cid k u p chunk sig w)
    as [[[part|e'] w1] e1]; cbn [result_of events_of world_of fst snd].
  { cbn. discriminate. }
  destruct (handleUploadError_run cid e' w1) as (w2 & e2 & Hrun & Hmsg & Hreg).
  rewrite bind_result, bind_events, bind_world, Hrun.
  cbn [result_of events_of world_of fst snd throw]. intros [= ->].
  rewrite !app_nil_r, messages_of_app, Hmsg, last_snoc. split; [reflexivity|].
  exact Hreg.
Qed.

(** X23. When the loop over the parts throws, the error thrown is the
    one announced by the last message of the run, an UPLOAD_ERROR carrying
    its message and telling whether it is a [RetryableError]; the upload is
    then no longer in the registry of active uploads. *)
Theorem partsLoop_failure_announced (uploadState abortSignal : nat)
    (file : File) (key uploadId contentId : string) (partSize totalParts : Z)
    (uploadedPartNumbers partNumbers : list Z) (completedParts : Z)
    (w : World) (e : Err) :
  let run :=
    UploadHandler.partsLoop uploadState abortSignal file key uploadId
      contentId partSize totalParts uploadedPartNumbers partNumbers
      completedParts w in
  result_of run = Throw e ->
  last (messages_of (events_of run))
  = Some (UPLOAD_ERROR contentId (errorMessage e) (isRetryableError e))
  /\ activeUploads (world_of run) !! contentId = None.
Proof.
  cbn zeta. revert completedParts w.
  induction partNumbers as [|p pns IH]; intros c w; [discriminate|].
  rewrite partsLoop_cons.
  destruct (has uploadedPartNumbers p).
  - rewrite bind_result, bind_events, bind_world, broadcastLog_run.
    cbn [result_of events_of world_of fst snd]. intros Hr.
    destruct (IH c w Hr) as [Hlast Hreg]. split; [|exact Hreg].
    rewrite messages_of_app. cbn [messages_of omap app]. exact Hlast.
  - rewrite bind_result, bind_events, bind_world.
    destruct (result_of (part_step uploadState abortSignal file key uploadId
                           contentId partSize totalParts p c w))
      as [c'|e'] eqn:Hstep.
    + intros Hr. destruct (IH c' _ Hr) as [Hlast Hreg]. split; [|exact Hreg].
      rewrite messages_of_app, last_app, Hlast. reflexivity.
    + intros [= ->]. rewrite app_nil_r. apply part_step_throws, Hstep.
Qed.

Lemma partsLoop_failure_announced_witness :
  let run :=
    UploadHandler.partsLoop 0 0 Examples.tiny "k1" "u1" "srv-1" 10 4 [] [1] 0
      (Examples.active (Examples.stored in_progress [])
         [Examples.signed 1; Examples.json JNone]) in
  result_of run = Throw (Error ("No ETag received for part " +:+ show 1))
  /\ activeUploads (world_of run) !! "srv-1" = None.
Proof.
  split; [reflexivity|].
  apply (partsLoop_failure_announced 0 0 Examples.tiny "k1" "u1" "srv-1" 10
           4 [] [1] 0
           (Examples.active (Examples.stored in_progress [])
              [Examples.signed 1; Examples.json JNone])
           (Error ("No ETag received for part " +:+ show 1))).
  reflexivity.
Defined.

(** X24. A run of [uploadParts] that returns normally has completed the
    upload: the shared state object has status [completed], the store
    holds that very state under its [id], an UPLOAD_COMPLETE message was
    sent whose file URL is the one of the state (both are [undefined] when
    the completion response carried no location), and the upload it names
    is no longer in the registry of active uploads. *)
Theorem uploadParts_returns_completed (uploadState abortSignal : nat)
    (w : World) :
  let run := UploadHandler.uploadParts uploadState abortSignal w in
  let w' := world_of run in
  0 < st_partSize (heap w uploadState) ->
  result_of run = Ok tt ->
  exists contentId : string,
    st_status (heap w' uploadState) = completed
    /\ uploadsStore w' !! st_id (heap w' uploadState)
       = Some (heap w' uploadState)
    /\ activeUploads w' !! contentId = None
    /\ exists duration totalBytes,
         Broadcast (UPLOAD_COMPLETE contentId
                      (st_fileUrl (heap w' uploadState)) duration totalBytes)
         ∈ events_of run.
Proof.
  cbn zeta. intros _. unfold UploadHandler.uploadParts.
  rewrite bind_result, bind_world, bind_events, read_object_run.
  cbn [result_of events_of world_of fst snd app].
  destruct (truthy (st_contentId (heap w uploadState))) as [cid0|];
    [|discriminate].
  rewrite bind_result, bind_world, bind_events, broadcastLog_run.
  cbn [result_of events_of world_of fst snd].
  rewrite bind_result, bind_world, bind_events.
  destruct (UploadHandler.getUploadedParts (heap w uploadState) w)
    as [[[listed|e] w1] e1]; cbn [result_of events_of world_of fst snd];
    [|discriminate].
  rewrite bind_result, bind_world, bind_events.
  destruct (UploadHandler.partsLoop _ _ _ _ _ _ _ _ _ _ _ w1)
    as [[[[]|e] w2] e2]; cbn [result_of events_of world_of fst snd];
    [|discriminate].
  unfold UploadHandler.completeUpload.
  rewrite bind_result, bind_world, bind_events, read_object_run.
  cbn [result_of events_of world_of fst snd app].
  destruct (truthy (st_contentId (heap w2 uploadState))) as [cid|];
    [|discriminate].
  rewrite bind_result, bind_world, bind_events, broadcastLog_run.
  cbn [result_of events_of world_of fst snd].
  rewrite bind_result, bind_world, bind_events.
  destruct (ApiClient.completeMultipartUpload _ _ _ _ w2)
    as [[[data|e] w3] e3]; cbn [result_of events_of world_of fst snd];
    [|discriminate].
  intros _. exists cid. cbn.
  unfold fn_update. rewrite !Nat.eqb_refl. cbn.
  split; [reflexivity|].
  split; [apply lookup_insert_eq|]. split; [apply lookup_delete_eq|].
  eexists _, _.
  repeat first [ apply elem_of_cons; left; reflexivity
               | apply elem_of_cons; right
               | apply elem_of_app; right ].
Qed.

Lemma uploadParts_returns_completed_witness :
  let w := Examples.active (Examples.stored in_progress [])
             [Examples.json (JParts [Examples.part 1; Examples.part 2;
                                     Examples.part 3; Examples.part 4]);
              Examples.json (JComplete "https://media/k1")] in
  result_of (UploadHandler.uploadParts 0 0 w) = Ok tt
  /\ st_fileUrl (heap (world_of (UploadHandler.uploadParts 0 0 w)) 0%nat)
     = Some "https://media/k1"
  /\ exists contentId : string,
       st_status (heap (world_of (UploadHandler.uploadParts 0 0 w)) 0%nat)
       = completed
       /\ uploadsStore (world_of (UploadHandler.uploadParts 0 0 w))
            !! st_id (heap (world_of (UploadHandler.uploadParts 0 0 w)) 0%nat)
          = Some (heap (world_of (UploadHandler.uploadParts 0 0 w)) 0%nat)
       /\ activeUploads (world_of (UploadHandler.uploadParts 0 0 w))
            !! contentId = None
       /\ exists duration totalBytes,
            Broadcast
              (UPLOAD_COMPLETE contentId
                 (st_fileUrl
                    (heap (world_of (UploadHandler.uploadParts 0 0 w)) 0%nat))
                 duration totalBytes)
            ∈ events_of (UploadHandler.uploadParts 0 0 w).
Proof.
  split; [reflexivity|]. split; [reflexivity|].
  apply (uploadParts_returns_completed 0 0
           (Examples.active (Examples.stored in_progress [])
              [Examples.json (JParts [Examples.part 1; Examples.part 2;
                                      Examples.part 3; Examples.part 4]);
               Examples.json (JComplete "https://media/k1")]));
    reflexivity.
Defined.

(** A completion response without a location: the run still returns
    normally, and the state and the message carry no file URL. *)
Lemma completion_without_location :
  let w := Examples.active (Examples.stored in_progress [])
             [Examples.json (JParts [Examples.part 1; Examples.part 2;
                                     Examples.part 3; Examples.part 4]);
              Examples.json JNone] in
  let run := UploadHandler.uploadParts 0 0 w in
  result_of run = Ok tt
  /\ st_status (heap (world_of run) 0%nat) = completed
  /\ st_fileUrl (heap (world_of run) 0%nat) = None
  /\ Broadcast (UPLOAD_COMPLETE "srv-1" None 0 40) ∈ events_of run.
Proof.
  cbv zeta. split; [reflexivity|]. split; [reflexivity|].
  split; [reflexivity|]. vm_compute.
  repeat first [ apply elem_of_cons; left; reflexivity
               | apply elem_of_cons; right ].
Qed.

(** A signed-URL response without a URL: a client without endpoint goes
    on to the PUT with [undefined] as its address, a client with an
    endpoint fails at [url.replace] before any PUT. *)
Lemma signed_url_without_url :
  let script := [Examples.json JNone; Examples.put_ok "e1"] in
  let plain :=
    ApiClient.uploadPart "k1" "u1" 1 {| blob_size := 10 |} 0%nat
      (Examples.fresh script) in
  let accelerated :=
    ApiClient.uploadPart "k1" "u1" 1 {| blob_size := 10 |} 0%nat
      (with_accelerationEndpoint
         (Some CONFIG.S3_TRANSFER_ACCELERATION.DEFAULT_ENDPOINT)
         (Examples.fresh script)) in
  result_of plain
  = Ok {| p_partNumber := 1; p_eTag := "e1"; p_size := Some 10 |}
  /\ put_urls (events_of plain) = ["undefined"]
  /\ result_of accelerated
     = Throw (TypeError
                "Cannot read properties of undefined (reading 'replace')")
  /\ put_urls (events_of accelerated) = [].
Proof. vm_compute. repeat split; reflexivity. Qed.

(** An initiate response without the fields of the upload:
    INITIATE_UPLOAD_RESPONSE is sent with what the body holds, then
    reading [content.id] fails; nothing is registered or stored. *)
Lemma initiate_without_content :
  let run :=
    UploadHandler.handleUpload Examples.start_tiny
      (Examples.fresh [Examples.json JNone]) in
  result_of run
  = Throw (TypeError "Cannot read properties of undefined (reading 'id')")
  /\ messages_of (events_of run)
     = [INITIATE_UPLOAD_RESPONSE "local-uuid" None None]
  /\ activeUploads (world_of run) = ∅
  /\ uploadsStore (world_of run) = ∅.
Proof. vm_compute. repeat split; reflexivity. Qed.

Lemma requests_begun_cons_begin req evs :
  requests_begun (FetchBegin req :: evs) = req :: requests_begun evs.
Proof. reflexivity. Qed.

(** X25. The first request of every run of [uploadParts] asks the
    server for the parts it already holds, under the key and the upload id
    of the state; no part is requested or sent before. *)
Theorem uploadParts_lists_parts_first (uploadState abortSignal : nat)
    (w : World) (contentId : string) :
  truthy (st_contentId (heap w uploadState)) = Some contentId ->
  exists rest,
    requests_begun
      (events_of (UploadHandler.uploadParts uploadState abortSignal w))
    = ReqListParts (st_key (heap w uploadState))
        (st_uploadId (heap w uploadState)) :: rest.
Proof.
  intros Hcid. unfold UploadHandler.uploadParts.
  rewrite bind_events, read_object_run.
  cbn [result_of events_of world_of fst snd app]. rewrite Hcid.
  rewrite bind_events, broadcastLog_run.
  cbn [result_of events_of world_of fst snd].
  rewrite bind_events. unfold UploadHandler.getUploadedParts at 1.
  rewrite try_catch_events, bind_events.
  unfold ApiClient.listUploadedParts at 1. rewrite bind_events.
  destruct (fetchWithRetry_begins
              (ReqListParts (st_key (heap w uploadState))
                 (st_uploadId (heap w uploadState)))
              CONFIG.RETRY.ATTEMPTS w) as [rest ->].
  eexists. cbn [app]. rewrite <- !app_assoc. cbn [app requests_begun omap].
  reflexivity.
Qed.

Lemma uploadParts_lists_parts_first_witness :
  let w := Examples.active (Examples.stored in_progress []) [] in
  truthy (st_contentId (heap w 0%nat)) = Some "srv-1"
  /\ exists rest,
       requests_begun (events_of (UploadHandler.uploadParts 0 0 w))
       = ReqListParts "k1" "u1" :: rest.
Proof.
  split; [reflexivity|].
  apply (uploadParts_lists_parts_first 0 0
           (Examples.active (Examples.stored in_progress []) []) "srv-1").
  reflexivity.
Defined.

(** ** Status queries *)

Lemma handleGetUploadStatus_run contentId w :
  UploadHandler.handleGetUploadStatus contentId w
  = (Ok tt, w,
     [Broadcast (LOG (LogLoading contentId) info None);
      Broadcast (LOG (LogLoaded contentId) info None);
      Broadcast (UPLOAD_STATUS contentId
                   match uploadsStore w !! contentId with
                   | Some state => st_status state
                   | None => not_found
                   end)]).
Proof.
  unfold UploadHandler.handleGetUploadStatus. cbn.
  destruct (uploadsStore w !! contentId); reflexivity.
Qed.

(** X26. GET_UPLOAD_STATUS answers from the persistent store alone: it
    sends one UPLOAD_STATUS message with the status of the record stored
    under the content id, or [not_found] when there is none, whether or
    not the upload is in the registry of active uploads, and it changes
    nothing. *)
Theorem status_query_answers_from_store (contentId : string) (w : World) :
  world_of (UploadHandler.handleGetUploadStatus contentId w) = w
  /\ result_of (UploadHandler.handleGetUploadStatus contentId w) = Ok tt
  /\ messages_of (events_of (UploadHandler.handleGetUploadStatus contentId w))
     = [UPLOAD_STATUS contentId
          match uploadsStore w !! contentId with
          | Some state => st_status state
          | None => not_found
          end].
Proof.
  rewrite handleGetUploadStatus_run. split; [reflexivity|].
  split; reflexivity.
Qed.

Lemma loadUploadState_run id w :
  databaseService.loadUploadState id w
  = (Ok (uploadsStore w !! id), w,
     [Broadcast (LOG (LogLoading id) info None);
      Broadcast (LOG (LogLoaded id) info None)]).
Proof. reflexivity. Qed.

(** X27. A resume that is handed a content id without a stored record
    fails with the error "No upload state found to resume" before anything
    happens: no request is issued, nothing is registered or stored. *)
Theorem handleUpload_resume_unknown (contentId : string) (w : World) :
  uploadsStore w !! contentId = None ->
  UploadHandler.handleUpload (RESUME_UPLOAD contentId) w
  = (Throw (Error "No upload state found to resume"), w,
     [Broadcast (LOG (LogLoading contentId) info None);
      Broadcast (LOG (LogLoaded contentId) info None)]).
Proof.
  intros Hnone. unfold UploadHandler.handleUpload,
    UploadHandler.getUploadStateForResume.
  rewrite bind_run, bind_run, loadUploadState_run, Hnone. reflexivity.
Qed.

Lemma handleUpload_resume_unknown_witness :
  UploadHandler.handleUpload (RESUME_UPLOAD "srv-2")
    (Examples.at_rest (Examples.stored paused []) [])
  = (Throw (Error "No upload state found to resume"),
     Examples.at_rest (Examples.stored paused []) [],
     [Broadcast (LOG (LogLoading "srv-2") info None);
      Broadcast (LOG (LogLoaded "srv-2") info None)]).
Proof.
  apply (handleUpload_resume_unknown "srv-2"
           (Examples.at_rest (Examples.stored paused []) [])).
  reflexivity.
Defined.

(** ** The queue and the batch actions of the foreground store *)

Lemma filter_filter_same (fileId : string) (l : list string) :
  filter (fun id => id <> fileId) (filter (fun id => id <> fileId) l)
  = filter (fun id => id <> fileId) l.
Proof.
  induction l as [|x l IH]; [reflexivity|].
  rewrite filter_cons. destruct (decide (x <> fileId)) as [Hx|Hx]; [|exact IH].
  rewrite filter_cons, decide_True by exact Hx. f_equal. exact IH.
Qed.

Lemma filter_others_all (fileId : string) (l : list string) :
  fileId ∉ l -> filter (fun id => id <> fileId) l = l.
Proof.
  induction l as [|x l IH]; intros Hl; [reflexivity|].
  apply not_elem_of_cons in Hl as [Hx Hl].
  rewrite filter_cons, decide_True by congruence. f_equal. apply IH, Hl.
Qed.

Lemma filter_same_none (fileId : string) (l : list string) :
  fileId ∉ l -> filter (fun id => id = fileId) l = [].
Proof.
  induction l as [|x l IH]; intros Hl; [reflexivity|].
  apply not_elem_of_cons in Hl as [Hx Hl].
  rewrite filter_cons, decide_False by congruence. apply IH, Hl.
Qed.

Lemma not_in_others (fileId : string) (l : list string) :
  fileId ∉ filter (fun id => id <> fileId) l.
Proof. intros [Hne _]%list_elem_of_filter. congruence. Qed.

(** X28. [reorderQueue] leaves the file in the queue exactly once,
    whether or not it was queued before and however often: taking it out
    again gives the other entries in their previous order, and for a
    position within the other entries the file stands at that position.
    The files and the active uploads are not touched. *)
Theorem reorderQueue_places_once (fileId : string) (newPosition : Z)
    (state : uploadStore.State) :
  let state' := uploadStore.reorderQueue fileId newPosition state in
  let queue := uploadStore.queuedUploads state' in
  let others :=
    filter (fun id => id <> fileId) (uploadStore.queuedUploads state) in
  filter (fun id => id <> fileId) queue = others
  /\ filter (fun id => id = fileId) queue = [fileId]
  /\ (0 <= newPosition <= Z.of_nat (length others) ->
      queue !! Z.to_nat newPosition = Some fileId)
  /\ (newPosition < 0 ->
      - Z.of_nat (length others) <= newPosition ->
      queue !! Z.to_nat (Z.of_nat (length others) + newPosition)
      = Some fileId)
  /\ uploadStore.files state' = uploadStore.files state
  /\ uploadStore.activeUploads state' = uploadStore.activeUploads state.
Proof.
  cbn zeta. unfold uploadStore.reorderQueue. cbn [uploadStore.queuedUploads
    uploadStore.files uploadStore.activeUploads].
  set (others := filter (fun id => id <> fileId)
                   (uploadStore.queuedUploads state)).
  pose proof (not_in_others fileId (uploadStore.queuedUploads state)) as Hout.
  fold others in Hout.
  unfold uploadStore.splice_insert.
  set (n := Z.to_nat _).
  assert (fileId ∉ take n others) as Htake.
  { intros Hin. apply Hout. rewrite <- (take_drop n others).
    apply elem_of_app. left. exact Hin. }
  assert (fileId ∉ drop n others) as Hdrop.
  { intros Hin. apply Hout. rewrite <- (take_drop n others).
    apply elem_of_app. right. exact Hin. }
  split.
  { rewrite filter_app, filter_cons, decide_False by (intros H; apply H; reflexivity).
    rewrite !filter_others_all by assumption. apply take_drop. }
  split.
  { rewrite filter_app, filter_cons, decide_True by reflexivity.
    rewrite !filter_same_none by assumption. reflexivity. }
  assert (forall k : nat, (k <= length others)%nat -> n = k ->
            (take n others ++ fileId :: drop n others) !! k = Some fileId)
    as Hat.
  { intros k Hk ->. rewrite lookup_app_r by (rewrite length_take; lia).
    rewrite length_take, Nat.min_l by lia. rewrite Nat.sub_diag. reflexivity. }
  split; [|split; [|split; reflexivity]].
  - intros Hpos. apply Hat; [lia|]. unfold n.
    destruct (Z.ltb_spec newPosition 0); [lia|]. f_equal. lia.
  - intros Hneg Hlow. apply Hat; [lia|]. unfold n.
    destruct (Z.ltb_spec newPosition 0); [|lia]. f_equal. lia.
Qed.

(** X29. [cancelAll] empties the queue and the list of active uploads
    and marks as cancelled exactly the files that were uploading, paused,
    selected or preparing; afterwards no file has one of these four
    statuses, and a file of any other status, a retrying one included, is
    kept as it was. *)
Theorem cancelAll_outcome (now : Z) (state : uploadStore.State)
    (id : string) :
  let state' := uploadStore.cancelAll now state in
  uploadStore.activeUploads state' = []
  /\ uploadStore.queuedUploads state' = []
  /\ (uploadStore.files state !! id = None ->
      uploadStore.files state' !! id = None)
  /\ (forall file, uploadStore.files state !! id = Some file ->
      exists file',
        uploadStore.files state' !! id = Some file'
        /\ (uploadStore.uf_status file'
            ∉ [uploadStore.uploading; uploadStore.paused;
               uploadStore.selected; uploadStore.preparing])
        /\ (uploadStore.uf_status file
            ∈ [uploadStore.uploading; uploadStore.paused;
               uploadStore.selected; uploadStore.preparing] ->
            file' = uploadStore.with_status uploadStore.cancelled now file)
        /\ (uploadStore.uf_status file
            ∉ [uploadStore.uploading; uploadStore.paused;
               uploadStore.selected; uploadStore.preparing] ->
            file' = file)).
Proof.
  cbn zeta. unfold uploadStore.cancelAll. cbn [uploadStore.queuedUploads
    uploadStore.files uploadStore.activeUploads].
  split; [reflexivity|]. split; [reflexivity|]. split.
  - intros Hnone. rewrite lookup_fmap, Hnone. reflexivity.
  - intros file Hfile. rewrite lookup_fmap, Hfile. cbn [fmap option_fmap option_map].
    eexists. split; [reflexivity|].
    destruct (bool_decide _) eqn:Hd.
    + apply bool_decide_eq_true in Hd. split; [|split].
      * cbn. intros H.
        repeat (apply elem_of_cons in H as [H|H]; [discriminate H|]).
        apply elem_of_nil in H. exact H.
      * reflexivity.
      * intros Hn. contradiction.
    + apply bool_decide_eq_false in Hd. split; [exact Hd|]. split.
      * intros Hin. contradiction.
      * reflexivity.
Qed.

(** X30. [pauseAll] followed by [resumeAll] is not a round trip: every
    file that was uploading or already paused before is uploading
    afterwards, stamped with the time of the resume; files of any other
    status and the two lists are as before. *)
Theorem resumeAll_after_pauseAll (pausedAt resumedAt : Z)
    (state : uploadStore.State) (id : string) :
  let state' :=
    uploadStore.resumeAll resumedAt (uploadStore.pauseAll pausedAt state) in
  uploadStore.files state' !! id
  = (fun file =>
       if bool_decide (uploadStore.uf_status file
                       ∈ [uploadStore.uploading; uploadStore.paused])
       then uploadStore.with_status uploadStore.uploading resumedAt file
       else file) <$> uploadStore.files state !! id
  /\ uploadStore.activeUploads state' = uploadStore.activeUploads state
  /\ uploadStore.queuedUploads state' = uploadStore.queuedUploads state.
Proof.
  cbn zeta. unfold uploadStore.resumeAll, uploadStore.pauseAll.
  cbn [uploadStore.queuedUploads uploadStore.files uploadStore.activeUploads].
  split; [|split; reflexivity].
  rewrite !lookup_fmap.
  destruct (uploadStore.files state !! id) as [file|]; [|reflexivity].
  cbn [fmap option_fmap option_map]. f_equal.
  destruct file as [i f nm sz ty status pr us ch er ca ua ui si cs].
  destruct status; reflexivity.
Qed.

(** ** Retries of a part: the driver's schedule and the client's own *)

Lemma put_urls_of_requests evs :
  put_urls evs
  = omap (fun r => match r with ReqPut url _ => Some url | _ => None end)
      (requests_begun evs).
Proof.
  induction evs as [|e evs IH]; [reflexivity|].
  destruct e as [m|d|r|r]; try exact IH.
  destruct r; try exact IH.
  unfold put_urls, requests_begun in *. cbn [omap list_omap].
  f_equal. exact IH.
Qed.

Lemma attempted_parts_of_requests evs :
  attempted_parts evs
  = omap (fun r => match r with
                   | ReqSignedUrl p _ _ _ => Some p
                   | _ => None
                   end) (requests_begun evs).
Proof.
  induction evs as [|e evs IH]; [reflexivity|].
  destruct e as [m|d|r|r]; try exact IH.
  destruct r; try exact IH.
  unfold attempted_parts, requests_begun in *. cbn [omap list_omap].
  f_equal. exact IH.
Qed.

Lemma omap_replicate {A B} (f : A -> option B) n x :
  (length (omap f (replicate n x)) <= n)%nat.
Proof.
  induction n as [|n IH]; [reflexivity|].
  cbn [replicate omap list_omap]. destruct (f x); cbn [length]; lia.
Qed.

(** One call of the client's [getSignedUrl]: one request, repeated after
    the fixed delay. *)
Lemma getSignedUrl_counts partNumber uploadId key w :
  let run := ApiClient.getSignedUrl partNumber uploadId key w in
  exists (n k : nat) (useAcceleration : bool),
    requests_begun (events_of run)
    = replicate n (ReqSignedUrl partNumber uploadId key useAcceleration)
    /\ sleeps_of (events_of run) = replicate k CONFIG.RETRY.DELAY
    /\ (k <= CONFIG.RETRY.ATTEMPTS)%nat /\ (n <= S k)%nat.
Proof.
  cbn zeta. unfold ApiClient.getSignedUrl.
  rewrite bind_events.
  cbn [ApiClient.acceleration_on bind get_world ret events_of result_of
         world_of fst snd app].
  set (a := match truthy (accelerationEndpoint w) with
            | Some _ => true | None => false end).
  rewrite bind_events.
  destruct (fetchWithRetry_counts (ReqSignedUrl partNumber uploadId key a)
              CONFIG.RETRY.ATTEMPTS None w)
    as (n & k & Hn & Hk & Hle & Hnk & _).
  exists n, k, a.
  assert (forall r w',
    events_of ((if negb (resp_ok r)
                then throw (RetryableError "Failed to get signed URL")
                else ret (json_signedUrl (resp_json r))) w') = []) as Hrest.
  { intros r w'. destruct (negb (resp_ok r)); reflexivity. }
  destruct (result_of (ApiClient.fetchWithRetry _ _ _ w));
    rewrite ?Hrest, app_nil_r, Hn, Hk; auto.
Qed.

(** One call of the client's [uploadPart]: the signed-URL request of the
    part and then one PUT, each repeated after the fixed delay. *)
Lemma api_uploadPart_counts key uploadId partNumber chunk abortSignal w :
  let run := ApiClient.uploadPart key uploadId partNumber chunk abortSignal w in
  exists (n1 k1 n2 k2 : nat) (useAcceleration : bool) (url : string),
    requests_begun (events_of run)
    = replicate n1 (ReqSignedUrl partNumber uploadId key useAcceleration)
      ++ replicate n2 (ReqPut url (blob_size chunk))
    /\ sleeps_of (events_of run) = replicate (k1 + k2) CONFIG.RETRY.DELAY
    /\ (k1 <= CONFIG.RETRY.ATTEMPTS)%nat /\ (n1 <= S k1)%nat
    /\ (k2 <= CONFIG.RETRY.ATTEMPTS)%nat /\ (n2 <= S k2)%nat.
Proof.
  cbn zeta. unfold ApiClient.uploadPart.
  rewrite bind_events.
  destruct (getSignedUrl_counts partNumber uploadId key w)
    as (n1 & k1 & a & Hn1 & Hk1 & Hle1 & Hnk1).
  destruct (result_of (ApiClient.getSignedUrl partNumber uploadId key w))
    as [signedUrl|e].
  2:{ exists n1, k1, 0%nat, 0%nat, a, "".
      rewrite app_nil_r, Hn1, Hk1, Nat.add_0_r. cbn [replicate].
      rewrite app_nil_r. repeat split; auto; lia. }
  set (w1 := world_of (ApiClient.getSignedUrl partNumber uploadId key w)).
  rewrite bind_events.
  cbn [get_world events_of result_of world_of fst snd]. rewrite app_nil_l.
  rewrite bind_events.
  set (target := match signedUrl with
                 | Some url => _
                 | None => _
                 end).
  assert (events_of (target w1) = [] /\ world_of (target w1) = w1) as [Ht Hw].
  { subst target. destruct signedUrl; [split; reflexivity|].
    destruct (truthy (accelerationEndpoint w1)); split; reflexivity. }
  rewrite Ht, app_nil_l.
  destruct (result_of (target w1)) as [uploadUrl|e].
  2:{ exists n1, k1, 0%nat, 0%nat, a, "".
      rewrite app_nil_r, Hn1, Hk1, Nat.add_0_r. cbn [replicate].
      rewrite app_nil_r. repeat split; auto; lia. }
  rewrite Hw, bind_events.
  destruct (fetchWithRetry_counts
              (ReqPut (url_string uploadUrl) (blob_size chunk))
              CONFIG.RETRY.ATTEMPTS (Some abortSignal) w1)
    as (n2 & k2 & Hn2 & Hk2 & Hle2 & Hnk2 & _).
  exists n1, k1, n2, k2, a, (url_string uploadUrl).
  assert (forall r w',
    events_of ((if negb (resp_ok r)
                then throw (RetryableError
                              ("Failed to upload part " +:+ show partNumber))
                else match truthy (resp_ETag r) with
                     | None =>
                         throw (Error ("No ETag received for part "
                                       +:+ show partNumber))
                     | Some eTag =>
                         ret {| p_partNumber := partNumber;
                                p_eTag := strip_quotes eTag;
                                p_size := Some (blob_size chunk) |}
                     end) w') = []) as Hrest.
  { intros r w'. destruct (negb (resp_ok r)); [reflexivity|].
    destruct (truthy (resp_ETag r)); reflexivity. }
  rewrite !requests_begun_app, !sleeps_of_app, Hn1, Hk1.
  destruct (result_of (ApiClient.fetchWithRetry _ _ _ w1));
    rewrite ?Hrest, app_nil_r, Hn2, Hk2, replicate_add;
    change (sleeps_of []) with (@nil Z); rewrite ?app_nil_r; auto 10.
Qed.

(** What one attempt may issue. *)
Lemma attempt_counts cid key uid pn chunk sig w :
  let evs := events_of (attempt cid key uid pn chunk sig w) in
  (length (put_urls evs) <= S CONFIG.RETRY.ATTEMPTS)%nat
  /\ (length (attempted_parts evs) <= S CONFIG.RETRY.ATTEMPTS)%nat
  /\ Forall (fun d => d = CONFIG.RETRY.DELAY) (sleeps_of evs)
  /\ (length (sleeps_of evs) <= 2 * CONFIG.RETRY.ATTEMPTS)%nat.
Proof.
  cbn zeta.
  assert (requests_begun (events_of (attempt cid key uid pn chunk sig w))
          = requests_begun (events_of (ApiClient.uploadPart key uid pn chunk
                                         sig w))
          /\ sleeps_of (events_of (attempt cid key uid pn chunk sig w))
             = sleeps_of (events_of (ApiClient.uploadPart key uid pn chunk
                                       sig w))) as [Hr Hs].
  { unfold attempt. rewrite bind_events.
    destruct (result_of (ApiClient.uploadPart key uid pn chunk sig w));
      [|rewrite app_nil_r; split; reflexivity].
    rewrite requests_begun_app, sleeps_of_app.
    cbn. rewrite !app_nil_r. split; reflexivity. }
  rewrite put_urls_of_requests, attempted_parts_of_requests, Hr, Hs.
  destruct (api_uploadPart_counts key uid pn chunk sig w)
    as (n1 & k1 & n2 & k2 & a & url & -> & -> & Hk1 & Hn1 & Hk2 & Hn2).
  rewrite !omap_app, !length_app, length_replicate.
  pose proof (omap_replicate
    (fun r => match r with ReqPut u _ => Some u | _ => None end)
    n2 (ReqPut url (blob_size chunk))) as H2.
  pose proof (omap_replicate
    (fun r => match r with ReqSignedUrl p _ _ _ => Some p | _ => None end)
    n1 (ReqSignedUrl pn uid key a)) as H1.
  assert (forall n, omap (fun r => match r with
                                   | ReqPut u _ => Some u | _ => None end)
                      (replicate n (ReqSignedUrl pn uid key a)) = []) as E1.
  { induction n; [reflexivity|exact IHn]. }
  assert (forall n, omap (fun r => match r with
                                   | ReqSignedUrl p _ _ _ => Some p
                                   | _ => None end)
                      (replicate n (ReqPut url (blob_size chunk))) = [])
    as E2.
  { induction n; [reflexivity|exact IHn]. }
  rewrite E1, E2. cbn [length].
  split; [lia|]. split; [lia|]. split; [|lia].
  apply Forall_forall. intros d Hd. apply elem_of_replicate in Hd as [-> _].
  reflexivity.
Qed.

(** What a run on the schedule shows. *)
Lemma schedule_observed cid key uid pn chunk sig k w evs r w' m :
  retry_schedule cid key uid pn chunk sig k w evs r w' m ->
  retries_of evs = (fun j => (j, backoff j)) <$> seqZ k (Z.of_nat m)
  /\ sleeps_after_retry evs
  /\ (length (put_urls evs) <= S CONFIG.RETRY.ATTEMPTS * S m)%nat
  /\ (length (attempted_parts evs) <= S CONFIG.RETRY.ATTEMPTS * S m)%nat
  /\ Forall (fun d => d = CONFIG.RETRY.DELAY
                      \/ exists j, k <= j < k + Z.of_nat m /\ d = backoff j)
       (sleeps_of evs)
  /\ (length (sleeps_of evs) <= m + 2 * CONFIG.RETRY.ATTEMPTS * S m)%nat.
Proof.
  induction 1 as [k w|k w e evs r w' m He Hretry Habort Hrest IH].
  - pose proof (attempt_not_retrying cid key uid pn chunk sig w) as Hq.
    destruct (attempt_counts cid key uid pn chunk sig w)
      as (Hp & Ha & Hs & Hl).
    unfold events_of.
    destruct (attempt cid key uid pn chunk sig w) as [[r w1] e1] eqn:E.
    unfold events_of in *. cbn [snd] in *.
    destruct (quiet_trace_retries _ Hq) as [Hr Hsl].
    split; [exact Hr|]. split; [exact Hsl|].
    split; [lia|]. split; [lia|]. split; [|lia].
    eapply Forall_impl; [exact Hs|]. intros d ->. left. reflexivity.
  - pose proof (attempt_not_retrying cid key uid pn chunk sig w) as Hq.
    destruct (attempt_counts cid key uid pn chunk sig w)
      as (Hp & Ha & Hs & Hl).
    destruct IH as (IHr & IHs & IHp & IHa & IHf & IHl).
    unfold events_of in *.
    destruct (attempt cid key uid pn chunk sig w) as [[r1 w1] e1] eqn:E.
    cbn [snd] in *.
    split; [|split; [|split; [|split; [|split]]]].
    + rewrite retries_of_app, (retries_of_quiet e1) by assumption.
      rewrite app_nil_l, retries_of_retrying.
      change (retries_of (Sleep ?d :: evs)) with (retries_of evs).
      rewrite IHr, (seqZ_cons k (Z.of_nat (S m))) by lia.
      rewrite fmap_cons. repeat f_equal; lia.
    + apply sleeps_after_retry_quiet_app; [assumption|].
      split; [reflexivity|exact IHs].
    + rewrite put_urls_app, length_app.
      change (put_urls (Broadcast ?b :: Sleep ?d :: evs)) with (put_urls evs).
      lia.
    + rewrite attempted_parts_app, length_app.
      change (attempted_parts (Broadcast ?b :: Sleep ?d :: evs))
        with (attempted_parts evs).
      lia.
    + rewrite sleeps_of_app.
      change (sleeps_of (Broadcast ?b :: Sleep ?d :: evs))
        with (d :: sleeps_of evs).
      apply Forall_app. split.
      * eapply Forall_impl; [exact Hs|]. intros d ->. left. reflexivity.
      * constructor.
        -- right. exists k. split; [lia|reflexivity].
        -- eapply Forall_impl; [exact IHf|].
           intros d [->|(j & Hj & ->)]; [left; reflexivity|].
           right. exists j. split; [lia|reflexivity].
    + rewrite sleeps_of_app, length_app.
      change (sleeps_of (Broadcast ?b :: Sleep ?d :: evs))
        with (d :: sleeps_of evs).
      cbn [length]. lia.
Qed.

(** The driver's [uploadPart] follows the schedule: it retries after
    every attempt that failed with a retryable error other than an abort,
    as long as retries are left. *)
Lemma uploadPart_from_schedule remaining cid key uid pn chunk sig w :
  (remaining <= CONFIG.RETRY.ATTEMPTS)%nat ->
  let run := UploadHandler.uploadPart_from remaining cid key uid pn chunk
               sig w in
  exists m : nat,
    (m <= remaining)%nat
    /\ retry_schedule cid key uid pn chunk sig
         (Z.of_nat (CONFIG.RETRY.ATTEMPTS - remaining) + 1) w
         (events_of run) (result_of run) (world_of run) m
    /\ (forall e, result_of run = Throw e -> isRetryableError e = true ->
                  isAbortError e = false -> m = remaining).
Proof.
  cbn zeta. revert w.
  induction remaining as [|n IH]; intros w Hle;
    rewrite uploadPart_from_unfold;
    rewrite try_catch_events, try_catch_result, try_catch_world.
  - destruct (result_of (attempt cid key uid pn chunk sig w)) as [p|e] eqn:E.
    + exists 0%nat. split; [lia|]. rewrite app_nil_r, <- E.
      split; [constructor|]. intros; reflexivity.
    + exists 0%nat. split; [lia|].
      cbn [throw events_of result_of world_of fst snd].
      rewrite app_nil_r, <- E. split; [constructor|]. intros; reflexivity.
  - destruct (result_of (attempt cid key uid pn chunk sig w)) as [p|e] eqn:E.
    + exists 0%nat. split; [lia|]. rewrite app_nil_r, <- E.
      split; [constructor|]. rewrite E. discriminate.
    + destruct (isRetryableError e) eqn:Hretry;
        [destruct (isAbortError e) eqn:Habort|]; cbn [andb negb].
      2:{ set (w1 := world_of (attempt cid key uid pn chunk sig w)).
          rewrite announce_then_sleep.
          set (k := Z.of_nat (CONFIG.RETRY.ATTEMPTS - S n) + 1).
          replace (Z.min (1000 * 2 ^ Z.of_nat (CONFIG.RETRY.ATTEMPTS - S n))
                     30000) with (backoff k)
            by (unfold backoff, k; repeat f_equal; lia).
          destruct (IH (with_clock (clock w1 + backoff k) w1) ltac:(lia))
            as (m & Hm & Hsched & Hgive).
          replace (Z.of_nat (CONFIG.RETRY.ATTEMPTS - n) + 1) with (k + 1)
            in Hsched by (unfold k; lia).
          destruct (UploadHandler.uploadPart_from n cid key uid pn chunk sig
                      (with_clock (clock w1 + backoff k) w1))
            as [[r w3] e3].
          cbn [events_of result_of world_of fst snd] in *.
          exists (S m). split; [lia|]. split.
          - eapply schedule_retry; eauto.
          - intros e' He' Hr' Ha'. f_equal. eapply Hgive; eauto. }
      all: exists 0%nat; split; [lia|];
        cbn [throw events_of result_of world_of fst snd];
        rewrite app_nil_r, <- E; (split; [constructor|]);
        rewrite E; intros e' [= <-]; congruence.
Qed.

(** C7, where it fails. Every PUT of part 1 times out. The part is PUT
    sixteen times, fifteen more than once and twelve more than the three
    retries that RETRYING_CHUNK announces: each of the driver's four
    attempts is repeated three times by the client's own [fetchWithRetry],
    after a fixed wait of [CONFIG.RETRY.DELAY]. The wait before the third
    PUT is 1000 ms, not 2000 ms. *)
Lemma C7_part_is_put_sixteen_times :
  let script :=
    concat (replicate 4 (Examples.signed 1 :: replicate 4 TimesOut)) in
  let run :=
    UploadHandler.uploadPart "srv-1" "k1" "u1" 1 {| blob_size := 10 |} 0%nat
      (Examples.fresh script) in
  result_of run = Throw (RetryableError "Request timed out")
  /\ put_urls (events_of run)
     = replicate 16
         "https://media.s3.eu-west-1.amazonaws.com/k1?partNumber=1"
  /\ retries_of (events_of run) = [(1, 1000); (2, 2000); (3, 4000)]
  /\ sleeps_of (events_of run)
     = [1000; 1000; 1000; 1000; 1000; 1000; 1000; 2000;
        1000; 1000; 1000; 4000; 1000; 1000; 1000]
  /\ ~ (length (put_urls (events_of run)) - 1 <= CONFIG.RETRY.ATTEMPTS)%nat
  /\ ~ (forall (k : nat) (d : Z),
          sleeps_of (events_of run) !! k = Some d ->
          d = Z.min (1000 * 2 ^ (Z.of_nat (S k) - 1)) 30000).
Proof.
  cbv zeta.
  split; [vm_compute; reflexivity|].
  split; [vm_compute; reflexivity|].
  split; [vm_compute; reflexivity|].
  split; [vm_compute; reflexivity|].
  split.
  - vm_compute. lia.
  - intros H. specialize (H 1%nat 1000 ltac:(vm_compute; reflexivity)).
    vm_compute in H. discriminate H.
Qed.

(** C7, as the code has it. The driver's [uploadPart] runs on the retry
    schedule: it attempts the part again after, and only after, an attempt
    that failed with a retryable error other than an abort, at most
    [CONFIG.RETRY.ATTEMPTS] times, and gives up on such an error only when
    these retries are used up. The retries are numbered [1, 2, ...]; the
    [k]-th is announced by RETRYING_CHUNK with the delay
    [min (1000 * 2^(k-1)) 30000], and the announcement is directly
    followed by a sleep of that delay. Every attempt requests a signed
    URL for this part and PUTs it, and the client repeats each of these
    requests on its own, unannounced, up to [CONFIG.RETRY.ATTEMPTS] times
    after a wait of [CONFIG.RETRY.DELAY]: with [m] retries announced, the
    part is PUT at most [(ATTEMPTS + 1) * (m + 1)] times, and every wait is
    either [CONFIG.RETRY.DELAY] or the announced delay of a retry. *)
Theorem C7_retries_follow_retryable_failures (contentId key uploadId : string)
    (partNumber : Z) (chunk : Blob) (abortSignal : nat) (w : World) :
  let run := UploadHandler.uploadPart contentId key uploadId partNumber chunk
               abortSignal w in
  exists m : nat,
    (m <= CONFIG.RETRY.ATTEMPTS)%nat
    /\ retry_schedule contentId key uploadId partNumber chunk abortSignal
         1 w (events_of run) (result_of run) (world_of run) m
    /\ (forall e, result_of run = Throw e -> isRetryableError e = true ->
                  isAbortError e = false -> m = CONFIG.RETRY.ATTEMPTS)
    /\ retries_of (events_of run)
       = (fun k => (k, Z.min (1000 * 2 ^ (k - 1)) 30000))
           <$> seqZ 1 (Z.of_nat m)
    /\ sleeps_after_retry (events_of run)
    /\ (forall p, p ∈ attempted_parts (events_of run) -> p = partNumber)
    /\ (length (put_urls (events_of run))
        <= S CONFIG.RETRY.ATTEMPTS * S m)%nat
    /\ (length (attempted_parts (events_of run))
        <= S CONFIG.RETRY.ATTEMPTS * S m)%nat
    /\ Forall (scheduled_sleep m) (sleeps_of (events_of run))
    /\ (length (sleeps_of (events_of run))
        <= m + 2 * CONFIG.RETRY.ATTEMPTS * S m)%nat.
Proof.
  cbn zeta. unfold UploadHandler.uploadPart.
  destruct (uploadPart_from_schedule CONFIG.RETRY.ATTEMPTS contentId key
              uploadId partNumber chunk abortSignal w (le_n _))
    as (m & Hm & Hsched & Hgive).
  replace (Z.of_nat (CONFIG.RETRY.ATTEMPTS - CONFIG.RETRY.ATTEMPTS) + 1)
    with 1 in Hsched by (rewrite Nat.sub_diag; reflexivity).
  destruct (schedule_observed _ _ _ _ _ _ _ _ _ _ _ _ Hsched)
    as (Hr & Hs & Hp & Ha & Hf & Hl).
  exists m. split; [exact Hm|]. split; [exact Hsched|].
  split; [exact Hgive|]. split; [exact Hr|]. split; [exact Hs|].
  split.
  { intros p.
    apply (attempted_parts_within (fun _ => True) (fun q => q = partNumber)).
    apply uploadPart_requests_own_part. }
  split; [exact Hp|]. split; [exact Ha|]. split; [|exact Hl].
  eapply Forall_impl; [exact Hf|].
  intros d [->|(j & Hj & ->)]; [left; reflexivity|].
  right. exists j. split; [lia|reflexivity].
Qed.

(** ** Progress over the runs of an upload *)











(** ** The acceleration rewrite and the endpoint of the client *)

Lemma match_here_host region rest :
  region <> "" -> "."%char ∉ chars region ->
  match_here (".s3." +:+ region +:+ ".amazonaws.com" +:+ rest)
  = Some (".s3." +:+ region +:+ ".amazonaws.com", region, rest).
Proof.
  intros Hr Hd.
  unfold match_here. rewrite strip_prefix_app.
  change (".amazonaws.com" +:+ rest)
    with (String "."%char ("amazonaws.com" +:+ rest)).
  rewrite (span_not_dot_app region _ Hd).
  destruct region as [|c region]; [congruence|].
  change (String "."%char ("amazonaws.com" +:+ rest))
    with (".amazonaws.com" +:+ rest).
  rewrite strip_prefix_app. reflexivity.
Qed.

Lemma match_here_host_at s : match_here s <> None -> host_at s.
Proof.
  destruct (match_here s) as [[[m g] a]|] eqn:H; [|congruence].
  intros _. apply match_here_sound in H as (-> & Hg & Hd).
  exists g, a. auto.
Qed.

Lemma match_here_no_host s : ~ host_at s -> match_here s = None.
Proof.
  intros Hn. destruct (match_here s) eqn:H; [|reflexivity].
  exfalso. apply Hn, match_here_host_at. congruence.
Qed.

(** The pattern matches at the first host and nowhere before. *)
Lemma regexp_exec_first_host before region after :
  region <> "" -> "."%char ∉ chars region ->
  no_host_before before (".s3." +:+ region +:+ ".amazonaws.com" +:+ after) ->
  regexp_exec (before +:+ ".s3." +:+ region +:+ ".amazonaws.com" +:+ after)
  = Some (before, ".s3." +:+ region +:+ ".amazonaws.com", region, after).
Proof.
  intros Hr Hd. induction before as [|c before IH]; intros Hfirst.
  - change ("" +:+ ?x) with x. apply regexp_exec_here, match_here_host; auto.
  - rewrite app_String, regexp_exec_skip.
    + rewrite IH; [reflexivity|].
      intros b1 b2 -> Hb2. exact (Hfirst (String c b1) b2 eq_refl Hb2).
    + rewrite <- app_String. apply match_here_no_host.
      apply (Hfirst "" (String c before) eq_refl). discriminate.
Qed.

(** The pattern matches nowhere in a URL without host. *)
Lemma regexp_exec_host_free url : host_free url -> regexp_exec url = None.
Proof.
  induction url as [|c url IH]; intros Hfree.
  - reflexivity.
  - rewrite regexp_exec_skip.
    + rewrite IH; [reflexivity|].
      intros before s -> Hs. exact (Hfree (String c before) s eq_refl Hs).
    + apply match_here_no_host, (Hfree "" (String c url) eq_refl).
Qed.

Lemma dotless_no_host_before before s :
  "."%char ∉ chars before -> no_host_before before s.
Proof.
  intros Hb b1 b2 -> Hb2 (region & rest & Heq & _).
  destruct b2 as [|c b2]; [congruence|].
  rewrite app_String in Heq. injection Heq as -> _.
  apply Hb. unfold chars.
  clear. induction b1 as [|d b1 IH]; simpl; [left|right; exact IH].
Qed.

Lemma transform_first_host endpoint before region after :
  endpoint <> "" -> "$"%char ∉ chars endpoint ->
  region <> "" -> "."%char ∉ chars region ->
  no_host_before before (".s3." +:+ region +:+ ".amazonaws.com" +:+ after) ->
  ApiClient.transformToAcceleratedUrl (Some endpoint)
    (before +:+ ".s3." +:+ region +:+ ".amazonaws.com" +:+ after)
  = before +:+ "." +:+ endpoint +:+ after.
Proof.
  intros Hne Hd Hr Hrd Hfirst. unfold ApiClient.transformToAcceleratedUrl.
  destruct endpoint as [|c e]; [congruence|]. cbn [truthy].
  unfold replace_host. rewrite (regexp_exec_first_host _ _ _ Hr Hrd Hfirst).
  rewrite replacement_plain by exact Hd. reflexivity.
Qed.

Lemma transform_host_free endpoint url :
  host_free url -> ApiClient.transformToAcceleratedUrl endpoint url = url.
Proof.
  intros Hfree. unfold ApiClient.transformToAcceleratedUrl.
  destruct (truthy endpoint); [|reflexivity].
  unfold replace_host. rewrite (regexp_exec_host_free _ Hfree). reflexivity.
Qed.

Lemma put_urls_replicate n url size :
  omap (fun r => match r with ReqPut u _ => Some u | _ => None end)
    (replicate n (ReqPut url size)) = replicate n url.
Proof.
  induction n as [|n IH]; [reflexivity|].
  cbn [replicate omap list_omap]. f_equal. exact IH.
Qed.

(** With the signed URL answered at once and the signal of the upload
    live, the part is PUT, at least once, to the signed URL rewritten
    under the endpoint the client holds. *)
Lemma api_uploadPart_puts key uploadId partNumber chunk abortSignal w
    response rest url :
  network w = Responds response :: rest ->
  resp_ok response = true ->
  json_signedUrl (resp_json response) = Some url ->
  aborted w abortSignal = false ->
  exists n : nat,
    (1 <= n)%nat
    /\ put_urls (events_of (ApiClient.uploadPart key uploadId partNumber chunk
                              abortSignal w))
       = replicate n
           (ApiClient.transformToAcceleratedUrl (accelerationEndpoint w) url).
Proof.
  intros Hnet Hok Hjson Hlive. unfold ApiClient.uploadPart.
  rewrite bind_events,
    (getSignedUrl_answered _ _ _ _ _ _ Hnet Hok), Hjson.
  cbn [events_of result_of world_of fst snd].
  rewrite bind_events.
  cbn [get_world events_of result_of world_of fst snd]. rewrite app_nil_l.
  rewrite bind_events.
  cbn [ret events_of result_of world_of fst snd]. rewrite app_nil_l.
  change (accelerationEndpoint (with_network rest w))
    with (accelerationEndpoint w).
  cbn [url_string].
  set (target := ApiClient.transformToAcceleratedUrl _ _).
  rewrite bind_events.
  destruct (fetchWithRetry_counts (ReqPut target (blob_size chunk))
              CONFIG.RETRY.ATTEMPTS (Some abortSignal) (with_network rest w))
    as (n & k & Hn & _ & _ & _ & _ & Hone).
  exists n. split; [apply Hone; exact Hlive|].
  rewrite put_urls_app. change (put_urls [_; _]) with (@nil string).
  rewrite app_nil_l, put_urls_app, put_urls_of_requests, Hn,
    put_urls_replicate.
  assert (forall r w',
    events_of ((if negb (resp_ok r)
                then throw (RetryableError
                              ("Failed to upload part " +:+ show partNumber))
                else match truthy (resp_ETag r) with
                     | None =>
                         throw (Error ("No ETag received for part "
                                       +:+ show partNumber))
                     | Some eTag =>
                         ret {| p_partNumber := partNumber;
                                p_eTag := strip_quotes eTag;
                                p_size := Some (blob_size chunk) |}
                     end) w') = []) as Hrest.
  { intros r w'. destruct (negb (resp_ok r)); [reflexivity|].
    destruct (truthy (resp_ETag r)); reflexivity. }
  destruct (result_of (ApiClient.fetchWithRetry _ _ _ _));
    rewrite ?Hrest; cbn [put_urls omap list_omap]; apply app_nil_r.
Qed.

(** After a successful initiate the client holds the endpoint of the
    body if the body carries one, and the endpoint it held before
    otherwise. *)
Lemma initiate_endpoint file duration fileType w data :
  result_of (ApiClient.initiateMultipartUpload file duration fileType w)
  = Ok data ->
  accelerationEndpoint
    (world_of (ApiClient.initiateMultipartUpload file duration fileType w))
  = match truthy (json_accelerationEndpoint data) with
    | Some e => Some e
    | None => accelerationEndpoint w
    end.
Proof.
  unfold ApiClient.initiateMultipartUpload.
  rewrite bind_result, bind_world.
  set (req := ReqInitiate _ _ _ _ _).
  pose proof (preserves_fetchWithRetry endpoint_kept_laws req
                CONFIG.RETRY.ATTEMPTS None w) as Hkept.
  unfold endpoint_kept in Hkept.
  destruct (result_of (ApiClient.fetchWithRetry req CONFIG.RETRY.ATTEMPTS
                         None w)) as [response|e]; [|discriminate].
  set (w1 := world_of _) in *.
  destruct (negb (resp_ok response)); [discriminate|].
  rewrite bind_result, bind_world.
  destruct (truthy (json_accelerationEndpoint (resp_json response)))
    as [e|] eqn:He;
    cbn [update_world ret result_of world_of fst snd];
    intros [= <-]; rewrite He; [reflexivity|exact Hkept].
Qed.

(** C8, as the code has it. Without an endpoint the rewrite returns the
    signed URL as it is. Under a non-empty endpoint without dollar sign it
    replaces the first host [.s3.<region>.amazonaws.com] of the URL, and
    only that one, by a dot and the endpoint; a URL without such a host is
    returned as it is, and the rewrite is idempotent on every URL whose
    rewritten form contains no such host. Every PUT of a part goes to the
    signed URL rewritten in this way when the client holds an endpoint,
    and to the signed URL itself when it holds none. A successful
    [initiateMultipartUpload] whose body carries an endpoint makes the
    client hold it, whatever the size of the file; a client that holds
    none holds none afterwards when the body carries none. *)
Theorem C8_rewrite_follows_granted_endpoint :
  (forall endpoint url,
      truthy endpoint = None ->
      ApiClient.transformToAcceleratedUrl endpoint url = url)
  /\ (forall endpoint before region after,
        endpoint <> "" -> "$"%char ∉ chars endpoint ->
        region <> "" -> "."%char ∉ chars region ->
        no_host_before before
          (".s3." +:+ region +:+ ".amazonaws.com" +:+ after) ->
        ApiClient.transformToAcceleratedUrl (Some endpoint)
          (before +:+ ".s3." +:+ region +:+ ".amazonaws.com" +:+ after)
        = before +:+ "." +:+ endpoint +:+ after)
  /\ (forall endpoint url,
        host_free url ->
        ApiClient.transformToAcceleratedUrl endpoint url = url)
  /\ (forall endpoint url,
        host_free (ApiClient.transformToAcceleratedUrl endpoint url) ->
        ApiClient.transformToAcceleratedUrl endpoint
          (ApiClient.transformToAcceleratedUrl endpoint url)
        = ApiClient.transformToAcceleratedUrl endpoint url)
  /\ (forall key uploadId partNumber chunk abortSignal w response rest
             endpoint before region after,
        network w = Responds response :: rest ->
        resp_ok response = true ->
        json_signedUrl (resp_json response)
        = Some (before +:+ ".s3." +:+ region +:+ ".amazonaws.com"
                +:+ after) ->
        aborted w abortSignal = false ->
        accelerationEndpoint w = Some endpoint ->
        endpoint <> "" -> "$"%char ∉ chars endpoint ->
        region <> "" -> "."%char ∉ chars region ->
        no_host_before before
          (".s3." +:+ region +:+ ".amazonaws.com" +:+ after) ->
        exists n : nat,
          (1 <= n)%nat
          /\ put_urls (events_of (ApiClient.uploadPart key uploadId
                                    partNumber chunk abortSignal w))
             = replicate n (before +:+ "." +:+ endpoint +:+ after))
  /\ (forall key uploadId partNumber chunk abortSignal w response rest url,
        network w = Responds response :: rest ->
        resp_ok response = true ->
        json_signedUrl (resp_json response) = Some url ->
        aborted w abortSignal = false ->
        truthy (accelerationEndpoint w) = None ->
        exists n : nat,
          (1 <= n)%nat
          /\ put_urls (events_of (ApiClient.uploadPart key uploadId
                                    partNumber chunk abortSignal w))
             = replicate n url)
  /\ (forall file duration fileType w data endpoint,
        result_of (ApiClient.initiateMultipartUpload file duration fileType w)
        = Ok data ->
        truthy (json_accelerationEndpoint data) = Some endpoint ->
        accelerationEndpoint
          (world_of (ApiClient.initiateMultipartUpload file duration
                       fileType w))
        = Some endpoint)
  /\ (forall file duration fileType w data,
        result_of (ApiClient.initiateMultipartUpload file duration fileType w)
        = Ok data ->
        truthy (json_accelerationEndpoint data) = None ->
        accelerationEndpoint w = None ->
        accelerationEndpoint
          (world_of (ApiClient.initiateMultipartUpload file duration
                       fileType w))
        = None).
Proof.
  split.
  { intros endpoint url He. unfold ApiClient.transformToAcceleratedUrl.
    rewrite He. reflexivity. }
  split; [exact transform_first_host|].
  split; [exact transform_host_free|].
  split.
  { intros endpoint url Hfree. apply transform_host_free, Hfree. }
  split.
  { intros key uploadId partNumber chunk abortSignal w response rest
      endpoint before region after Hnet Hok Hjson Hlive He Hne Hd Hr Hrd
      Hfirst.
    destruct (api_uploadPart_puts key uploadId partNumber chunk abortSignal
                w response rest _ Hnet Hok Hjson Hlive) as (n & Hn & Hputs).
    exists n. split; [exact Hn|].
    rewrite Hputs, He, transform_first_host by assumption. reflexivity. }
  split.
  { intros key uploadId partNumber chunk abortSignal w response rest url
      Hnet Hok Hjson Hlive He.
    destruct (api_uploadPart_puts key uploadId partNumber chunk abortSignal
                w response rest _ Hnet Hok Hjson Hlive) as (n & Hn & Hputs).
    exists n. split; [exact Hn|].
    rewrite Hputs. unfold ApiClient.transformToAcceleratedUrl.
    rewrite He. reflexivity. }
  split.
  { intros file duration fileType w data endpoint Hres He.
    rewrite (initiate_endpoint _ _ _ _ _ Hres), He. reflexivity. }
  intros file duration fileType w data Hres He Hw.
  rewrite (initiate_endpoint _ _ _ _ _ Hres), He. exact Hw.
Qed.

(** C8 on a part of the four-part file: with the default endpoint granted,
    the part is PUT to the accelerated host. *)
Lemma C8_rewrite_witness :
  exists n : nat,
    (1 <= n)%nat
    /\ put_urls
         (events_of
            (ApiClient.uploadPart "k1" "u1" 1 {| blob_size := 10 |} 0%nat
               (with_accelerationEndpoint
                  (Some CONFIG.S3_TRANSFER_ACCELERATION.DEFAULT_ENDPOINT)
                  (Examples.fresh [Examples.signed 1;
                                   Examples.put_ok "e1"]))))
       = replicate n
           "https://media.s3-accelerate.amazonaws.com/k1?partNumber=1".
Proof.
  pose proof C8_rewrite_follows_granted_endpoint
    as (_ & _ & _ & _ & Hput & _).
  apply (Hput "k1" "u1" 1 {| blob_size := 10 |} 0%nat
           (with_accelerationEndpoint
              (Some CONFIG.S3_TRANSFER_ACCELERATION.DEFAULT_ENDPOINT)
              (Examples.fresh [Examples.signed 1; Examples.put_ok "e1"]))
           {| resp_ok := true; resp_ETag := None;
              resp_json :=
                JSignedUrl 1
                  "https://media.s3.eu-west-1.amazonaws.com/k1?partNumber=1" |}
           [Examples.put_ok "e1"]
           "s3-accelerate.amazonaws.com" "https://media" "eu-west-1"
           "/k1?partNumber=1").
  - reflexivity.
  - reflexivity.
  - reflexivity.
  - reflexivity.
  - reflexivity.
  - discriminate.
  - unfold chars. simpl. intros H.
    repeat (apply elem_of_cons in H as [H|H]; [discriminate H|]).
    apply elem_of_nil in H. exact H.
  - discriminate.
  - unfold chars. simpl. intros H.
    repeat (apply elem_of_cons in H as [H|H]; [discriminate H|]).
    apply elem_of_nil in H. exact H.
  - apply dotless_no_host_before. unfold chars. simpl. intros H.
    repeat (apply elem_of_cons in H as [H|H]; [discriminate H|]).
    apply elem_of_nil in H. exact H.
Defined.
